(** * Chatbot API: session / message state machine and conversation replay

    A shallow embedding of the request handlers of the chatbot backend
    (authenticateApiKey, generateSessionTitle, processChat and the four
    authenticated routes) together with the properties claimed for them.

    The handlers are asynchronous TypeScript functions that await, in
    sequence, calls to a Prisma client (the store) and to a generative model
    (the oracle).  They are embedded in a state-and-exception monad over a
    [World]: the tables of the store, a clock and a log of every call made
    to the store or to the oracle.  Effects performed before an exception is
    thrown stay in the world, as they do in the database.

    What the handlers do not decide is a parameter, the [Env]: the answers
    of the model, which store calls the store rejects, how much time passes
    between calls, and the trimming of a string by the runtime.  A request
    is processed from start to end before the next one; interleavings of
    concurrent requests are not modelled.

    The tables are lists of rows in insertion order.  A query with
    [orderBy] sorts by the creation time and keeps the insertion order of
    rows created at the same time. *)

From Stdlib Require Import List ZArith String Ascii Bool Lia Sorted Permutation.
Import ListNotations.

Local Open Scope string_scope.
Local Open Scope list_scope.
Local Open Scope Z_scope.

(** ** Rows of the three tables *)

Module ApiKey.
Record t := mk {
  id : Z;
  key : string;
  name : string;
  createdAt : Z;
  active : bool
}.
End ApiKey.

Module ChatSession.
Record t := mk {
  id : Z;
  title : option string;
  createdAt : Z;
  apiKeyId : Z
}.
End ChatSession.

Module Message.
Record t := mk {
  id : Z;
  chatSessionId : Z;
  content : string;
  sender : string;
  createdAt : Z
}.
End Message.

(** One entry of the transcript handed to the model:
    [{ role, parts: [{ text }] }]. *)
Record Content := mkContent {
  role : string;
  text : string
}.

(** ** The world outside the handlers *)

(** What a call to the model yields: it rejects, or it resolves to a result
    whose [text] getter is a string or undefined. *)
Inductive OracleResult :=
| Raises
| Returns (text : option string).

Inductive StoreOp :=
| ApiKeyFindUnique (key : string)
| ChatSessionCreate (apiKeyId : Z)
| ChatSessionFindUnique (id : Z)
| ChatSessionUpdate (id : Z) (title : string)
| ChatSessionFindFirst (id apiKeyId : Z)
| ChatSessionFindMany (apiKeyId : Z)
| MessageCreate (content sender : string) (chatSessionId : Z)
| MessageFindMany (chatSessionId : Z).

Inductive Event :=
| Prisma (op : StoreOp)
| GenerateContent (prompt : string)
| SendMessage (history : list Content) (message : string).

(** Everything a handler cannot decide by itself: the answers of the model,
    whether the n-th logged call (a store call) is rejected by the store,
    how much time passes before the n-th logged call, and the runtime's
    [String.prototype.trim]. *)
Record Env := mkEnv {
  generateContent : string -> OracleResult;
  sendMessage : list Content -> string -> OracleResult;
  storeFault : nat -> bool;
  tick : nat -> N;
  trim : string -> string
}.

Record Db := mkDb {
  apiKeys : list ApiKey.t;
  chatSessions : list ChatSession.t;
  messages : list Message.t;
  nextSessionId : Z;
  nextMessageId : Z
}.

Record World := mkWorld {
  db : Db;
  now : Z;
  log : list Event
}.

(** ** The monad of handlers *)

Inductive PrismaFailure :=
| Unavailable
| ForeignKeyViolation
| RecordNotFound.

Inductive Error :=
| PrismaError (why : PrismaFailure)
| OracleError.

Inductive Outcome (A : Type) :=
| Ok (a : A)
| Throw (e : Error).
Arguments Ok {A} a.
Arguments Throw {A} e.

Definition M (A : Type) : Type := World -> Outcome A * World.

Definition ret {A} (a : A) : M A := fun w => (Ok a, w).

Definition bind {A B} (m : M A) (k : A -> M B) : M B :=
  fun w =>
    match m w with
    | (Ok a, w') => k a w'
    | (Throw e, w') => (Throw e, w')
    end.

(** [try { m } catch (error) { h error }] *)
Definition try_catch {A} (m : M A) (h : Error -> M A) : M A :=
  fun w =>
    match m w with
    | (Ok a, w') => (Ok a, w')
    | (Throw e, w') => h e w'
    end.

Declare Scope chat_scope.
Delimit Scope chat_scope with chat.
Notation "x <- c1 ;; c2" := (bind c1 (fun x => c2))
  (at level 61, c1 at next level, right associativity) : chat_scope.
Notation "c1 ;; c2" := (bind c1 (fun _ => c2))
  (at level 61, right associativity) : chat_scope.
Local Open Scope chat_scope.

(** The time at which the next logged call takes effect. *)
Definition clock (env : Env) (w : World) : Z :=
  now w + Z.of_N (tick env (List.length (log w))).

(** One awaited call to the Prisma client.  The call is logged and time
    passes; the store either rejects it, leaving the tables as they were,
    or runs it atomically on the tables. *)
Definition prisma {A} (env : Env) (op : StoreOp)
    (run : Z -> Db -> Outcome A * Db) : M A :=
  fun w =>
    let t := clock env w in
    let l := log w ++ [Prisma op] in
    if storeFault env (List.length (log w))
    then (Throw (PrismaError Unavailable), mkWorld (db w) t l)
    else let (r, d) := run t (db w) in (r, mkWorld d t l).

(** One awaited call to the model. *)
Definition oracle (env : Env) (ev : Event) (res : OracleResult)
    : M (option string) :=
  fun w =>
    let w' := mkWorld (db w) (clock env w) (log w ++ [ev]) in
    match res with
    | Raises => (Throw OracleError, w')
    | Returns t => (Ok t, w')
    end.

(** ** Ordering of query results *)

Section OrderBy.
Context {A : Type} (le : A -> A -> bool).

Fixpoint insert_row (a : A) (l : list A) : list A :=
  match l with
  | [] => [a]
  | b :: l' => if le a b then a :: l else b :: insert_row a l'
  end.

(** A stable sort: rows that compare equal keep their insertion order. *)
Fixpoint orderBy (l : list A) : list A :=
  match l with
  | [] => []
  | a :: l' => insert_row a (orderBy l')
  end.
End OrderBy.

Definition createdAt_asc (a b : Message.t) : bool :=
  Message.createdAt a <=? Message.createdAt b.

Definition createdAt_desc (a b : ChatSession.t) : bool :=
  ChatSession.createdAt b <=? ChatSession.createdAt a.

(** ** The Prisma calls of the handlers *)

Definition has_key (k : string) (r : ApiKey.t) : bool :=
  String.eqb (ApiKey.key r) k.

Definition has_id (sid : Z) (s : ChatSession.t) : bool :=
  ChatSession.id s =? sid.

Definition owned_by (aid : Z) (s : ChatSession.t) : bool :=
  ChatSession.apiKeyId s =? aid.

Definition in_session (sid : Z) (m : Message.t) : bool :=
  Message.chatSessionId m =? sid.

(** [prisma.apiKey.findUnique({ where: { key } })] *)
Definition apiKey_findUnique (env : Env) (k : string)
    : M (option ApiKey.t) :=
  prisma env (ApiKeyFindUnique k)
    (fun _ d => (Ok (find (has_key k) (apiKeys d)), d)).

(** Modelled from the spec: the Prisma schema is not among the sources.  A
    session has an integer id assigned by the store, a title that is absent
    until assigned, a creation time set by the store and an owning tenant
    that is a foreign key; a message has an integer id, a parent session
    that is a foreign key, and a creation time set by the store.  A create
    whose foreign key names no row is rejected by the store. *)
Definition new_session (t : Z) (d : Db) (aid : Z) : ChatSession.t :=
  ChatSession.mk (nextSessionId d) None t aid.

Definition new_message (t : Z) (d : Db) (c s : string) (sid : Z)
    : Message.t :=
  Message.mk (nextMessageId d) sid c s t.

(** [prisma.chatSession.create({ data: { apiKeyId } })] *)
Definition chatSession_create (env : Env) (aid : Z) : M ChatSession.t :=
  prisma env (ChatSessionCreate aid)
    (fun t d =>
       if existsb (fun k => ApiKey.id k =? aid) (apiKeys d)
       then (Ok (new_session t d aid),
             mkDb (apiKeys d) (chatSessions d ++ [new_session t d aid])
                  (messages d) (nextSessionId d + 1) (nextMessageId d))
       else (Throw (PrismaError ForeignKeyViolation), d)).

(** [prisma.chatSession.findUnique({ where: { id } })] *)
Definition chatSession_findUnique (env : Env) (sid : Z)
    : M (option ChatSession.t) :=
  prisma env (ChatSessionFindUnique sid)
    (fun _ d => (Ok (find (has_id sid) (chatSessions d)), d)).

Definition set_title (sid : Z) (t : string) (s : ChatSession.t)
    : ChatSession.t :=
  if has_id sid s
  then ChatSession.mk (ChatSession.id s) (Some t)
         (ChatSession.createdAt s) (ChatSession.apiKeyId s)
  else s.

(** [prisma.chatSession.update({ where: { id }, data: { title } })], which
    rejects when no row has the id. *)
Definition chatSession_update (env : Env) (sid : Z) (t : string)
    : M unit :=
  prisma env (ChatSessionUpdate sid t)
    (fun _ d =>
       if existsb (has_id sid) (chatSessions d)
       then (Ok tt,
             mkDb (apiKeys d) (map (set_title sid t) (chatSessions d))
                  (messages d) (nextSessionId d) (nextMessageId d))
       else (Throw (PrismaError RecordNotFound), d)).

(** [prisma.chatSession.findFirst({ where: { id, apiKeyId } })] *)
Definition chatSession_findFirst (env : Env) (sid aid : Z)
    : M (option ChatSession.t) :=
  prisma env (ChatSessionFindFirst sid aid)
    (fun _ d =>
       (Ok (find (fun s => has_id sid s && owned_by aid s) (chatSessions d)),
        d)).

(** [prisma.chatSession.findMany({ where: { apiKeyId },
      orderBy: { createdAt: 'desc' } })] *)
Definition chatSession_findMany (env : Env) (aid : Z)
    : M (list ChatSession.t) :=
  prisma env (ChatSessionFindMany aid)
    (fun _ d =>
       (Ok (orderBy createdAt_desc (filter (owned_by aid) (chatSessions d))),
        d)).

(** [prisma.message.create({ data: { content, sender, chatSessionId } })] *)
Definition message_create (env : Env) (c s : string) (sid : Z)
    : M Message.t :=
  prisma env (MessageCreate c s sid)
    (fun t d =>
       if existsb (has_id sid) (chatSessions d)
       then (Ok (new_message t d c s sid),
             mkDb (apiKeys d) (chatSessions d)
                  (messages d ++ [new_message t d c s sid])
                  (nextSessionId d) (nextMessageId d + 1))
       else (Throw (PrismaError ForeignKeyViolation), d)).

(** The rows [findMany] returns for a session. *)
Definition history (d : Db) (sid : Z) : list Message.t :=
  orderBy createdAt_asc (filter (in_session sid) (messages d)).

(** [prisma.message.findMany({ where: { chatSessionId },
      orderBy: { createdAt: 'asc' } })] *)
Definition message_findMany (env : Env) (sid : Z) : M (list Message.t) :=
  prisma env (MessageFindMany sid) (fun _ d => (Ok (history d sid), d)).

(** ** Requests and responses *)

(** The value of [req.headers['x-api-key']]: undefined, one string, or an
    array of strings. *)
Inductive HeaderValue :=
| HUndefined
| HString (s : string)
| HArray (l : list string).

(** What the handlers read of a request.  The body fields are the ones of
    the documented request schemas (an integer [sessionId], a string
    [message]), each of them possibly absent, as they all are when the
    request has no body ([req.body || {}]); [params_sessionId] is
    [Number(req.params.sessionId)] for the documented integer path
    parameter. *)
Record Request := mkRequest {
  x_api_key : HeaderValue;
  body_sessionId : option Z;
  body_message : option string;
  params_sessionId : Z
}.

Inductive Json :=
| JError (error : string)
| JMessage (m : Message.t)
| JMessages (l : list Message.t)
| JSessions (l : list ChatSession.t)
| JStarted (session : option ChatSession.t) (message : Message.t).

Record Response := mkResponse {
  status : Z;
  json : Json
}.

(** [res.json(j)] with the default status. *)
Definition res_json (j : Json) : Response := mkResponse 200 j.

(** [res.status(c).json({ error })] *)
Definition res_error (c : Z) (e : string) : Response :=
  mkResponse c (JError e).

(** ** JavaScript truthiness of the values the handlers test *)

(** [s] if it is a non-empty string, nothing if it is falsy. *)
Definition truthy_string (x : option string) : option string :=
  match x with
  | Some s => if String.eqb s "" then None else Some s
  | None => None
  end.

(** [n] if it is a non-zero number, nothing if it is falsy. *)
Definition truthy_number (x : option Z) : option Z :=
  match x with
  | Some n => if n =? 0 then None else Some n
  | None => None
  end.

(** [x || d] on strings. *)
Definition or_else (x : option string) (d : string) : string :=
  match truthy_string x with
  | Some s => s
  | None => d
  end.

(** ** The middleware *)

Definition authenticateApiKey (env : Env) (req : Request)
    : M (Response + ApiKey.t) :=
  match x_api_key req with
  | HString apiKeyHeader =>
      if String.eqb apiKeyHeader ""
      then ret (inl (res_error 401 "API key is missing or invalid"))
      else
        keyRecord <- apiKey_findUnique env apiKeyHeader;;
        match keyRecord with
        | Some k =>
            if ApiKey.active k
            then ret (inr k)
            else ret (inl (res_error 401 "Unauthorized: Invalid API key"))
        | None => ret (inl (res_error 401 "Unauthorized: Invalid API key"))
        end
  | _ => ret (inl (res_error 401 "API key is missing or invalid"))
  end.

(** [app.METHOD(path, authenticateApiKey, handler)]: the handler runs, with
    [res.locals.apiKey] set, only if the middleware calls [next()]. *)
Definition authenticated (env : Env)
    (handler : ApiKey.t -> Request -> M Response) (req : Request)
    : M Response :=
  a <- authenticateApiKey env req;;
  match a with
  | inl res => ret res
  | inr apiKey => handler apiKey req
  end.

(** ** Titling and turn processing *)

Definition dquote : string := String (Ascii.ascii_of_nat 34) EmptyString.

Definition title_prompt (message : string) : string :=
  String.append
    "Generate a very short, concise title (max 5 words) for a chat session starting with this message: "
    (String.append dquote
       (String.append message
          (String.append dquote
             ". Return ONLY the title text, no quotes or explanation."))).

Definition generateSessionTitle (env : Env) (message : string) : M string :=
  try_catch
    (let prompt := title_prompt message in
     result <- oracle env (GenerateContent prompt)
                 (generateContent env prompt);;
     ret (or_else (option_map (trim env) result) "New Chat"))
    (fun _ => ret "New Chat").

(** [!session.title] *)
Definition untitled (s : ChatSession.t) : bool :=
  match truthy_string (ChatSession.title s) with
  | Some _ => false
  | None => true
  end.

Definition to_content (msg : Message.t) : Content :=
  mkContent (if String.eqb (Message.sender msg) "user"
             then "user" else "model")
            (Message.content msg).

Definition processChat (env : Env) (sessionId : Z) (message : string)
    : M Message.t :=
  session <- chatSession_findUnique env sessionId;;
  match session with
  | Some s =>
      if untitled s
      then
        title <- generateSessionTitle env message;;
        chatSession_update env sessionId title
      else ret tt
  | None => ret tt
  end;;
  message_create env message "user" sessionId;;
  history <- message_findMany env sessionId;;
  let chatHistory := map to_content history in
  let prior := removelast chatHistory in
  result <- oracle env (SendMessage prior message)
              (sendMessage env prior message);;
  let botResponse := or_else result "No response text" in
  savedBotMessage <- message_create env botResponse "bot" sessionId;;
  ret savedBotMessage.

(** ** The handlers of the authenticated routes *)

(** POST /api/chat/start *)
Definition chat_start (env : Env) (apiKey : ApiKey.t) (req : Request)
    : M Response :=
  match truthy_string (body_message req) with
  | None => ret (res_error 400 "Initial message is required")
  | Some message =>
      try_catch
        (session <- chatSession_create env (ApiKey.id apiKey);;
         botMessage <- processChat env (ChatSession.id session) message;;
         updatedSession <-
           chatSession_findUnique env (ChatSession.id session);;
         ret (res_json (JStarted updatedSession botMessage)))
        (fun _ => ret (res_error 500 "Failed to create session"))
  end.

(** POST /api/chat/message *)
Definition chat_message (env : Env) (apiKey : ApiKey.t) (req : Request)
    : M Response :=
  match truthy_number (body_sessionId req),
        truthy_string (body_message req) with
  | Some sessionId, Some message =>
      try_catch
        (session <- chatSession_findFirst env sessionId (ApiKey.id apiKey);;
         match session with
         | None => ret (res_error 404 "Session not found or unauthorized")
         | Some _ =>
             savedBotMessage <- processChat env sessionId message;;
             ret (res_json (JMessage savedBotMessage))
         end)
        (fun _ =>
           ret (res_error 500
                  "Something went wrong processing the AI response"))
  | _, _ => ret (res_error 400 "sessionId and message are required")
  end.

(** GET /api/chat/sessions *)
Definition chat_sessions (env : Env) (apiKey : ApiKey.t) (req : Request)
    : M Response :=
  try_catch
    (sessions <- chatSession_findMany env (ApiKey.id apiKey);;
     ret (res_json (JSessions sessions)))
    (fun _ => ret (res_error 500 "Failed to fetch sessions")).

(** GET /api/chat/:sessionId *)
Definition chat_history (env : Env) (apiKey : ApiKey.t) (req : Request)
    : M Response :=
  try_catch
    (let sessionId := params_sessionId req in
     session <- chatSession_findFirst env sessionId (ApiKey.id apiKey);;
     match session with
     | None => ret (res_error 404 "Session not found or unauthorized")
     | Some _ =>
         history <- message_findMany env sessionId;;
         ret (res_json (JMessages history))
     end)
    (fun _ => ret (res_error 500 "Failed to fetch history")).

(** The authenticated endpoints of the application. *)
Inductive Endpoint :=
| PostChatStart
| PostChatMessage
| GetChatSessions
| GetChatSessionId.

Definition handler_of (env : Env) (e : Endpoint)
    : ApiKey.t -> Request -> M Response :=
  match e with
  | PostChatStart => chat_start env
  | PostChatMessage => chat_message env
  | GetChatSessions => chat_sessions env
  | GetChatSessionId => chat_history env
  end.

Definition serve (env : Env) (e : Endpoint) (req : Request) : M Response :=
  authenticated env (handler_of env e) req.

(** ** Derived notions used by the statements *)

(** The row [findUnique] returns for a session id. *)
Definition session_row (w : World) (sid : Z) : option ChatSession.t :=
  find (has_id sid) (chatSessions (db w)).

(** The title of a session: [None] if there is no such session,
    [Some None] if it exists and has no title yet. *)
Definition title_of (w : World) (sid : Z) : option (option string) :=
  option_map ChatSession.title (session_row w sid).

(** Tenant [aid] owns a session with id [sid]. *)
Definition owns (w : World) (aid sid : Z) : Prop :=
  exists s, In s (chatSessions (db w)) /\
            ChatSession.id s = sid /\ ChatSession.apiKeyId s = aid.

(** The store rejects no call of the request. *)
Definition store_ok (env : Env) : Prop :=
  forall n, storeFault env n = false.

(** The calls to the reply capability of the model found in a log. *)
Definition reply_calls (l : list Event) : list (list Content * string) :=
  flat_map (fun e => match e with
                     | SendMessage h m => [(h, m)]
                     | _ => []
                     end) l.

(** The session ids a response body discloses. *)
Definition session_ids_in (j : Json) : list Z :=
  match j with
  | JError _ => []
  | JMessage m => [Message.chatSessionId m]
  | JMessages l => map Message.chatSessionId l
  | JSessions l => map ChatSession.id l
  | JStarted s m =>
      match s with
      | Some s' => [ChatSession.id s']
      | None => []
      end ++ [Message.chatSessionId m]
  end.

(** [m] is a turn of session [sid] with the given sender and text. *)
Definition is_turn (m : Message.t) (sid : Z) (sender content : string)
    : Prop :=
  Message.chatSessionId m = sid /\ Message.sender m = sender /\
  Message.content m = content.

(** A sequence of turn-processing calls, each with its own environment,
    session and text; a call that throws leaves its effects behind. *)
Fixpoint process_turns (calls : list (Env * Z * string)) (w : World)
    : World :=
  match calls with
  | [] => w
  | (env, sid, msg) :: rest =>
      process_turns rest (snd (processChat env sid msg w))
  end.

(** The invariant of the store that the handlers maintain: a title is
    absent or a non-empty string, session ids are below the next id to be
    assigned, and no message is stamped later than the current time. *)
Record wf (w : World) : Prop := mk_wf {
  wf_titles :
    Forall (fun s => ChatSession.title s <> Some "") (chatSessions (db w));
  wf_session_ids :
    Forall (fun s => ChatSession.id s < nextSessionId (db w))
           (chatSessions (db w));
  wf_times :
    Forall (fun m => Message.createdAt m <= now w) (messages (db w))
}.

(** The store before any request. *)
Definition empty_world : World := mkWorld (mkDb [] [] [] 1 1) 0 [].

(** ** A program logic for the monad *)

(** [hoare P m Q E]: from a world satisfying [P], [m] either returns [a] in
    a world satisfying [Q a] or throws [e] in a world satisfying [E e]. *)
Definition hoare {A} (P : World -> Prop) (m : M A)
    (Q : A -> World -> Prop) (E : Error -> World -> Prop) : Prop :=
  forall w, P w ->
    match m w with
    | (Ok a, w') => Q a w'
    | (Throw e, w') => E e w'
    end.

(** [m] keeps the invariant, whether it returns or throws. *)
Definition keeps_wf {A} (m : M A) : Prop :=
  hoare wf m (fun _ => wf) (fun _ => wf).

(** ** Abbreviations used by the statements about [processChat] *)

(** The relation a boolean comparison decides. *)
Definition holds {A} (le : A -> A -> bool) (a b : A) : Prop :=
  le a b = true.

(** The title [generateSessionTitle] settles on. *)
Local Abbreviation chosen_title env message :=
  (match generateContent env (title_prompt message) with
   | Raises => "New Chat"
   | Returns r => or_else (option_map (trim env) r) "New Chat"
   end).

(** The statements of [processChat] after the lookup of the session. *)
Local Abbreviation title_phase env sessionId message session :=
  (match session with
   | Some s =>
       if untitled s
       then bind (generateSessionTitle env message)
                 (fun title => chatSession_update env sessionId title)
       else ret tt
   | None => ret tt
   end).

(** The statements of [processChat] from the append of the user turn on. *)
Local Abbreviation reply_phase env sessionId message :=
  (bind (message_create env message "user" sessionId) (fun _ =>
   bind (message_findMany env sessionId) (fun history =>
   bind (oracle env
           (SendMessage (removelast (map to_content history)) message)
           (sendMessage env (removelast (map to_content history)) message))
        (fun result =>
   bind (message_create env (or_else result "No response text") "bot"
           sessionId)
        (fun savedBotMessage => ret savedBotMessage))))).

(** The tables after a message has been appended. *)
Local Abbreviation with_message d m :=
  (mkDb (apiKeys d) (chatSessions d) (messages d ++ [m])
        (nextSessionId d) (nextMessageId d + 1)).

(** The world after [chatSession.create] has succeeded for tenant [aid]. *)
Local Abbreviation started env aid w :=
  (mkWorld (mkDb (apiKeys (db w))
                 (chatSessions (db w)
                    ++ [new_session (clock env w) (db w) aid])
                 (messages (db w)) (nextSessionId (db w) + 1)
                 (nextMessageId (db w)))
           (clock env w)
           (log w ++ [Prisma (ChatSessionCreate aid)])).

(** ** A small store and environments to run the handlers on *)

Definition alice : ApiKey.t := ApiKey.mk 1 "key-alice" "Alice" 1 true.
Definition bob : ApiKey.t := ApiKey.mk 2 "key-bob" "Bob" 2 true.

(** Alice owns session 1, titled, with one exchange; Bob owns session 2,
    which has neither a title nor a message yet. *)
Definition demo_db : Db :=
  mkDb [alice; bob]
       [ChatSession.mk 1 (Some "Greetings") 3 1;
        ChatSession.mk 2 None 4 2]
       [Message.mk 1 1 "hi" "user" 5;
        Message.mk 2 1 "hello" "bot" 6]
       3 3.

Definition demo_world : World := mkWorld demo_db 10 [].

(** An environment with a reliable store, a clock that advances by one
    between calls, and a model that answers every title request with
    [title] and every reply request with [reply]. *)
Definition demo_env (title reply : OracleResult) : Env :=
  mkEnv (fun _ => title) (fun _ _ => reply) (fun _ => false)
        (fun _ => 1%N) (fun s => s).

(** The same environment with a store that rejects every call from the
    n-th logged call on. *)
Definition failing_env (title reply : OracleResult) (n : nat) : Env :=
  mkEnv (fun _ => title) (fun _ _ => reply) (fun k => Nat.leb n k)
        (fun _ => 1%N) (fun s => s).

(** ** Notions used by the statements about whole requests *)

(** [s'] is the row [s] up to its title. *)
Definition same_but_title (s s' : ChatSession.t) : Prop :=
  ChatSession.id s' = ChatSession.id s /\
  ChatSession.apiKeyId s' = ChatSession.apiKeyId s /\
  ChatSession.createdAt s' = ChatSession.createdAt s.

(** From [w] to [w'] nothing was removed or rewritten: the key table is the
    same, messages were only appended, session rows were only appended and
    the earlier ones changed at most their title, time did not go back and
    the log was only extended. *)
Record grows (w w' : World) : Prop := mk_grows {
  grows_keys : apiKeys (db w') = apiKeys (db w);
  grows_messages : exists new, messages (db w') = messages (db w) ++ new;
  grows_sessions :
    exists kept new,
      chatSessions (db w') = kept ++ new /\
      Forall2 same_but_title (chatSessions (db w)) kept;
  grows_time : now w <= now w';
  grows_log : exists l, log w' = log w ++ l
}.

(** Referential integrity of the tables: session ids are pairwise distinct
    and every message belongs to a session of the store. *)
Record linked (w : World) : Prop := mk_linked {
  linked_ids : NoDup (map ChatSession.id (chatSessions (db w)));
  linked_messages :
    Forall (fun m => existsb (has_id (Message.chatSessionId m))
                       (chatSessions (db w)) = true)
           (messages (db w))
}.

(** A sequence of requests to the authenticated endpoints, each with its
    own environment, served one after the other. *)
Fixpoint serve_all (reqs : list (Env * Endpoint * Request)) (w : World)
    : World :=
  match reqs with
  | [] => w
  | (env, e, req) :: rest => serve_all rest (snd (serve env e req w))
  end.

(** The calls that title a session: the title request to the model and the
    update of the title. *)
Definition is_titling (e : Event) : bool :=
  match e with
  | GenerateContent _ => true
  | Prisma (ChatSessionUpdate _ _) => true
  | _ => false
  end.

Definition titling_calls (l : list Event) : list Event :=
  filter is_titling l.

(** The key of the request is the key of an active tenant [k] of the
    store. *)
Definition presents_key_of (w : World) (req : Request) (k : ApiKey.t)
    : Prop :=
  In k (apiKeys (db w)) /\ ApiKey.active k = true /\
  ApiKey.key k <> "" /\ x_api_key req = HString (ApiKey.key k).

(** Tenant keys are pairwise distinct (the key column is unique). *)
Definition unique_keys (w : World) : Prop :=
  NoDup (map ApiKey.key (apiKeys (db w))).

(** A store with an inactive tenant, for the rejection of its key. *)
Definition carol : ApiKey.t := ApiKey.mk 3 "key-carol" "Carol" 3 false.

Definition demo_world_carol : World :=
  mkWorld (mkDb [alice; bob; carol] (chatSessions demo_db)
                (messages demo_db) 3 3) 10 [].

(** The responses of an endpoint: the two refusals of the middleware, the
    fixed error responses of the handler, and its success response. *)
Definition response_of (e : Endpoint) (r : Response) : Prop :=
  r = res_error 401 "API key is missing or invalid" \/
  r = res_error 401 "Unauthorized: Invalid API key" \/
  match e with
  | PostChatStart =>
      r = res_error 400 "Initial message is required" \/
      r = res_error 500 "Failed to create session" \/
      exists s b, r = res_json (JStarted s b)
  | PostChatMessage =>
      r = res_error 400 "sessionId and message are required" \/
      r = res_error 404 "Session not found or unauthorized" \/
      r = res_error 500 "Something went wrong processing the AI response" \/
      exists b, r = res_json (JMessage b)
  | GetChatSessions =>
      r = res_error 500 "Failed to fetch sessions" \/
      exists l, r = res_json (JSessions l)
  | GetChatSessionId =>
      r = res_error 404 "Session not found or unauthorized" \/
      r = res_error 500 "Failed to fetch history" \/
      exists l, r = res_json (JMessages l)
  end.

(** ** The handlers at work on the small store *)

(** Alice starts a session: the row is created, titled on the first turn,
    and both turns are appended. *)
Example demo_start :
  let env := demo_env (Returns (Some "Small talk")) (Returns (Some "Hi!")) in
  let r := serve env PostChatStart
             (mkRequest (HString "key-alice") None (Some "hello") 0)
             demo_world in
  option_map status (match fst r with Ok x => Some x | Throw _ => None end)
  = Some 200 /\
  title_of (snd r) 3 = Some (Some "Small talk") /\
  map (fun m => (Message.sender m, Message.content m))
      (history (db (snd r)) 3)
  = [("user", "hello"); ("bot", "Hi!")] /\
  log (snd r)
  = [Prisma (ApiKeyFindUnique "key-alice");
     Prisma (ChatSessionCreate 1);
     Prisma (ChatSessionFindUnique 3);
     GenerateContent (title_prompt "hello");
     Prisma (ChatSessionUpdate 3 "Small talk");
     Prisma (MessageCreate "hello" "user" 3);
     Prisma (MessageFindMany 3);
     SendMessage [] "hello";
     Prisma (MessageCreate "Hi!" "bot" 3);
     Prisma (ChatSessionFindUnique 3)].
Proof. repeat split. Qed.

(** Two turns in a row on Bob's session: the history alternates, the
    title is requested on the first turn only, and the second reply call
    carries the first exchange as context. *)
Example demo_two_turns :
  let env := demo_env (Returns None) (Returns (Some "ok")) in
  let w1 := snd (serve env PostChatMessage
                   (mkRequest (HString "key-bob") (Some 2) (Some "A") 0)
                   demo_world) in
  let w2 := snd (serve env PostChatMessage
                   (mkRequest (HString "key-bob") (Some 2) (Some "B") 0)
                   w1) in
  map (fun m => (Message.sender m, Message.content m)) (history (db w2) 2)
  = [("user", "A"); ("bot", "ok"); ("user", "B"); ("bot", "ok")] /\
  title_of w2 2 = Some (Some "New Chat") /\
  reply_calls (log w2)
  = [([], "A");
     ([mkContent "user" "A"; mkContent "model" "ok"], "B")] /\
  List.length (filter (fun e => match e with
                                | GenerateContent _ => true
                                | _ => false
                                end) (log w2)) = 1%nat.
Proof. repeat split. Qed.

(** ** Rules of the program logic *)

Lemma hoare_ret {A} (P : World -> Prop) (a : A) Q E :
  (forall w, P w -> Q a w) -> hoare P (ret a) Q E.
Proof. intros H w Hw. cbn. auto. Qed.

Lemma hoare_bind {A B} P (m : M A) (k : A -> M B) R Q E :
  hoare P m R E ->
  (forall a, hoare (R a) (k a) Q E) ->
  hoare P (bind m k) Q E.
Proof.
  intros Hm Hk w Hw. unfold bind. specialize (Hm w Hw).
  destruct (m w) as [[a | e] w1]; [ apply (Hk a w1 Hm) | exact Hm ].
Qed.

Lemma hoare_try_catch {A} P (m : M A) h Q E E' :
  hoare P m Q E' ->
  (forall e, hoare (E' e) (h e) Q E) ->
  hoare P (try_catch m h) Q E.
Proof.
  intros Hm Hh w Hw. unfold try_catch. specialize (Hm w Hw).
  destruct (m w) as [[a | e] w1]; [ exact Hm | apply (Hh e w1 Hm) ].
Qed.

Lemma hoare_weaken {A} (P P' : World -> Prop) (m : M A)
    (Q Q' : A -> World -> Prop) (E E' : Error -> World -> Prop) :
  hoare P' m Q' E' ->
  (forall w, P w -> P' w) ->
  (forall a w, Q' a w -> Q a w) ->
  (forall e w, E' e w -> E e w) ->
  hoare P m Q E.
Proof.
  intros Hm HP HQ HE w Hw. specialize (Hm w (HP w Hw)).
  destruct (m w) as [[a | e] w1]; auto.
Qed.

Lemma hoare_prisma {A} P env op (run : Z -> Db -> Outcome A * Db) Q E :
  (forall w, P w ->
     E (PrismaError Unavailable)
       (mkWorld (db w) (clock env w) (log w ++ [Prisma op]))) ->
  (forall w, P w ->
     match run (clock env w) (db w) with
     | (Ok a, d) => Q a (mkWorld d (clock env w) (log w ++ [Prisma op]))
     | (Throw e, d) => E e (mkWorld d (clock env w) (log w ++ [Prisma op]))
     end) ->
  hoare P (prisma env op run) Q E.
Proof.
  intros Hf Hr w Hw. unfold prisma.
  destruct (storeFault env (List.length (log w))); [ apply Hf, Hw | ].
  specialize (Hr w Hw).
  destruct (run (clock env w) (db w)) as [[a | e] d]; exact Hr.
Qed.

Lemma hoare_oracle P env ev res Q E :
  (forall w, P w ->
     E OracleError (mkWorld (db w) (clock env w) (log w ++ [ev]))) ->
  (forall w t, P w -> res = Returns t ->
     Q t (mkWorld (db w) (clock env w) (log w ++ [ev]))) ->
  hoare P (oracle env ev res) Q E.
Proof.
  intros Hf Hr w Hw. unfold oracle.
  destruct res as [ | t ]; [ apply Hf, Hw | apply Hr; auto ].
Qed.

(** ** Ordering of query results *)

Section OrderByFacts.
Context {A : Type} (le : A -> A -> bool).
Hypothesis le_total : forall a b, le a b = false -> le b a = true.

Lemma insert_row_perm (a : A) (l : list A) :
  Permutation (insert_row le a l) (a :: l).
Proof.
  induction l as [ | b l IH ]; cbn; [ reflexivity | ].
  destruct (le a b); [ reflexivity | ].
  rewrite IH. apply perm_swap.
Qed.

Lemma orderBy_perm (l : list A) : Permutation (orderBy le l) l.
Proof.
  induction l as [ | a l IH ]; cbn; [ reflexivity | ].
  rewrite insert_row_perm. now constructor.
Qed.

Lemma insert_row_hd (a x : A) (l : list A) :
  holds le x a -> HdRel (holds le) x l -> HdRel (holds le) x (insert_row le a l).
Proof.
  intros Hxa Hl. destruct l as [ | b l ]; cbn; [ now constructor | ].
  destruct (le a b); constructor; [ exact Hxa | now inversion Hl ].
Qed.

Lemma insert_row_sorted (a : A) (l : list A) :
  Sorted (holds le) l -> Sorted (holds le) (insert_row le a l).
Proof.
  induction 1 as [ | b l Hs IH Hb ]; cbn; [ repeat constructor | ].
  destruct (le a b) eqn:Hab.
  - constructor; [ now constructor | now constructor ].
  - constructor; [ exact IH | ].
    apply insert_row_hd; [ now apply le_total | exact Hb ].
Qed.

Lemma orderBy_sorted (l : list A) : Sorted (holds le) (orderBy le l).
Proof.
  induction l as [ | a l IH ]; cbn; [ constructor | ].
  now apply insert_row_sorted.
Qed.

Lemma insert_row_snoc (a x : A) (l : list A) :
  le a x = true -> insert_row le a (l ++ [x]) = insert_row le a l ++ [x].
Proof.
  intros Hax. induction l as [ | b l IH ]; cbn.
  - now rewrite Hax.
  - destruct (le a b); [ reflexivity | now rewrite IH ].
Qed.

(** A row that is not before any other one is returned last. *)
Lemma orderBy_snoc (x : A) (l : list A) :
  Forall (fun a => le a x = true) l ->
  orderBy le (l ++ [x]) = orderBy le l ++ [x].
Proof.
  induction 1 as [ | a l Ha Hl IH ]; cbn; [ reflexivity | ].
  rewrite IH. now apply insert_row_snoc.
Qed.
End OrderByFacts.

Lemma createdAt_asc_total (a b : Message.t) :
  createdAt_asc a b = false -> createdAt_asc b a = true.
Proof. unfold createdAt_asc. lia. Qed.

Lemma history_sorted (d : Db) (sid : Z) :
  Sorted (fun a b => Message.createdAt a <= Message.createdAt b)
         (history d sid).
Proof.
  unfold history.
  pose proof (orderBy_sorted createdAt_asc createdAt_asc_total
                (filter (in_session sid) (messages d))) as H.
  induction H as [ | a l Hs IH Ha ]; constructor; [ exact IH | ].
  destruct Ha as [ | b l Hab ]; constructor.
  unfold holds, createdAt_asc in Hab. lia.
Qed.

Lemma history_perm (d : Db) (sid : Z) :
  Permutation (history d sid) (filter (in_session sid) (messages d)).
Proof. apply orderBy_perm. Qed.

Lemma history_in (d : Db) (sid : Z) (m : Message.t) :
  In m (history d sid) <->
  In m (messages d) /\ Message.chatSessionId m = sid.
Proof.
  transitivity (In m (filter (in_session sid) (messages d))).
  - split; apply Permutation_in;
      [ apply history_perm | symmetry; apply history_perm ].
  - rewrite filter_In. unfold in_session. now rewrite Z.eqb_eq.
Qed.

(** Reading the history after a row stamped no earlier than the rows of the
    store has been appended to a session: the row comes last. *)
Lemma history_append (d : Db) (sid t : Z) (c s : string) :
  Forall (fun m => Message.createdAt m <= t) (messages d) ->
  history (mkDb (apiKeys d) (chatSessions d)
                (messages d ++ [new_message t d c s sid])
                (nextSessionId d) (nextMessageId d + 1)) sid
  = history d sid ++ [new_message t d c s sid].
Proof.
  intros Ht. unfold history. cbn [messages].
  rewrite filter_app. cbn [filter].
  replace (in_session sid (new_message t d c s sid)) with true
    by (symmetry; apply Z.eqb_refl).
  apply orderBy_snoc.
  apply Forall_forall. intros m Hm. apply filter_In in Hm.
  rewrite Forall_forall in Ht. unfold createdAt_asc. cbn.
  apply Z.leb_le, Ht, Hm.
Qed.

(** ** The handlers maintain the invariant of the store *)

Lemma clock_ge (env : Env) (w : World) : now w <= clock env w.
Proof. unfold clock. lia. Qed.

Lemma wf_empty_world : wf empty_world.
Proof. split; constructor. Qed.

Lemma wf_later (env : Env) (w : World) (l : list Event) :
  wf w -> wf (mkWorld (db w) (clock env w) l).
Proof.
  intros [Ht Hi Hm]. split; cbn; auto.
  eapply Forall_impl; [ | exact Hm ].
  cbn. intros m Hle. pose proof (clock_ge env w). lia.
Qed.

Lemma wf_new_session (env : Env) (w : World) (aid : Z) (l : list Event) :
  wf w ->
  wf (mkWorld (mkDb (apiKeys (db w))
                    (chatSessions (db w)
                       ++ [new_session (clock env w) (db w) aid])
                    (messages (db w)) (nextSessionId (db w) + 1)
                    (nextMessageId (db w)))
              (clock env w) l).
Proof.
  intros H. destruct (wf_later env w l H) as [Ht Hi Hm].
  split; cbn in *; auto.
  - apply Forall_app. split; [ exact Ht | ].
    constructor; [ cbn; discriminate | constructor ].
  - apply Forall_app. split.
    + eapply Forall_impl; [ | exact Hi ]. cbn. intros s Hs. lia.
    + constructor; [ cbn; lia | constructor ].
Qed.

Lemma wf_set_title (env : Env) (w : World) (sid : Z) (t : string)
    (l : list Event) :
  t <> "" -> wf w ->
  wf (mkWorld (mkDb (apiKeys (db w))
                    (map (set_title sid t) (chatSessions (db w)))
                    (messages (db w)) (nextSessionId (db w))
                    (nextMessageId (db w)))
              (clock env w) l).
Proof.
  intros Hne H. destruct (wf_later env w l H) as [Ht Hi Hm].
  split; cbn in *; auto; apply Forall_map.
  - eapply Forall_impl; [ | exact Ht ]. intros s Hs.
    unfold set_title. destruct (has_id sid s); cbn; congruence.
  - eapply Forall_impl; [ | exact Hi ]. intros s Hs.
    unfold set_title. destruct (has_id sid s); cbn; exact Hs.
Qed.

Lemma wf_new_message (env : Env) (w : World) (c s : string) (sid : Z)
    (l : list Event) :
  wf w ->
  wf (mkWorld (mkDb (apiKeys (db w)) (chatSessions (db w))
                    (messages (db w)
                       ++ [new_message (clock env w) (db w) c s sid])
                    (nextSessionId (db w)) (nextMessageId (db w) + 1))
              (clock env w) l).
Proof.
  intros H. destruct (wf_later env w l H) as [Ht Hi Hm].
  split; cbn in *; auto.
  apply Forall_app. split; [ exact Hm | ].
  constructor; [ cbn; lia | constructor ].
Qed.

Create HintDb keeps discriminated.

Lemma keeps_ret {A} (a : A) : keeps_wf (ret a).
Proof. apply hoare_ret. auto. Qed.

Lemma keeps_bind {A B} (m : M A) (k : A -> M B) :
  keeps_wf m -> (forall a, keeps_wf (k a)) -> keeps_wf (bind m k).
Proof. intros Hm Hk. eapply hoare_bind; [ exact Hm | exact Hk ]. Qed.

Lemma keeps_try_catch {A} (m : M A) (h : Error -> M A) :
  keeps_wf m -> (forall e, keeps_wf (h e)) -> keeps_wf (try_catch m h).
Proof. intros Hm Hh. eapply hoare_try_catch; [ exact Hm | exact Hh ]. Qed.

Lemma keeps_read {A} (env : Env) (op : StoreOp) (f : Db -> A) :
  keeps_wf (prisma env op (fun _ d => (Ok (f d), d))).
Proof. apply hoare_prisma; intros w Hw; now apply wf_later. Qed.

Lemma keeps_apiKey_findUnique env k : keeps_wf (apiKey_findUnique env k).
Proof. apply keeps_read. Qed.

Lemma keeps_chatSession_findUnique env sid :
  keeps_wf (chatSession_findUnique env sid).
Proof. apply keeps_read. Qed.

Lemma keeps_chatSession_findFirst env sid aid :
  keeps_wf (chatSession_findFirst env sid aid).
Proof. apply keeps_read. Qed.

Lemma keeps_chatSession_findMany env aid :
  keeps_wf (chatSession_findMany env aid).
Proof. apply keeps_read. Qed.

Lemma keeps_message_findMany env sid : keeps_wf (message_findMany env sid).
Proof. apply keeps_read. Qed.

Lemma keeps_chatSession_create env aid :
  keeps_wf (chatSession_create env aid).
Proof.
  apply hoare_prisma; intros w Hw; [ now apply wf_later | ].
  destruct (existsb _ _); [ now apply wf_new_session | now apply wf_later ].
Qed.

Lemma keeps_chatSession_update env sid t :
  t <> "" -> keeps_wf (chatSession_update env sid t).
Proof.
  intros Hne. apply hoare_prisma; intros w Hw; [ now apply wf_later | ].
  destruct (existsb _ _); [ now apply wf_set_title | now apply wf_later ].
Qed.

Lemma keeps_message_create env c s sid :
  keeps_wf (message_create env c s sid).
Proof.
  apply hoare_prisma; intros w Hw; [ now apply wf_later | ].
  destruct (existsb _ _); [ now apply wf_new_message | now apply wf_later ].
Qed.

Lemma keeps_oracle env ev res : keeps_wf (oracle env ev res).
Proof. apply hoare_oracle; intros; now apply wf_later. Qed.

#[local] Hint Resolve keeps_ret keeps_apiKey_findUnique
  keeps_chatSession_findUnique keeps_chatSession_findFirst
  keeps_chatSession_findMany keeps_message_findMany
  keeps_chatSession_create keeps_message_create keeps_oracle : keeps.

Lemma or_else_nonempty (x : option string) (d : string) :
  d <> "" -> or_else x d <> "".
Proof.
  intros Hd. unfold or_else, truthy_string.
  destruct x as [ s | ]; [ | exact Hd ].
  destruct (String.eqb_spec s ""); [ exact Hd | assumption ].
Qed.

(** Titling never throws, and the title it returns is not empty. *)
Lemma generateSessionTitle_spec (env : Env) (message : string)
    (P : World -> Prop) :
  (forall w l, P w -> P (mkWorld (db w) (clock env w) l)) ->
  hoare P (generateSessionTitle env message)
        (fun t w => P w /\ t <> "") (fun _ _ => False).
Proof.
  intros HP. unfold generateSessionTitle.
  eapply hoare_try_catch with (E' := fun _ => P).
  - eapply hoare_bind with (R := fun _ => P).
    + apply hoare_oracle; intros; now apply HP.
    + intros r. apply hoare_ret. intros w Hw. split; [ exact Hw | ].
      now apply or_else_nonempty.
  - intros e. apply hoare_ret. intros w Hw. split; [ exact Hw | easy ].
Qed.

Lemma keeps_processChat env sid message :
  keeps_wf (processChat env sid message).
Proof.
  unfold processChat. apply keeps_bind; [ auto with keeps | ].
  intros session. apply keeps_bind.
  - destruct session as [ s | ]; [ | auto with keeps ].
    destruct (untitled s); [ | auto with keeps ].
    eapply hoare_bind.
    + eapply hoare_weaken;
        [ apply (generateSessionTitle_spec env message wf);
          intros; now apply wf_later
        | auto | intros a w H; exact H | easy ].
    + intros t w [Hw Ht]. apply keeps_chatSession_update; assumption.
  - intros _. apply keeps_bind; [ auto with keeps | ].
    intros _. apply keeps_bind; [ auto with keeps | ].
    intros hist. cbv zeta. apply keeps_bind; [ auto with keeps | ].
    intros r. apply keeps_bind; auto with keeps.
Qed.

Lemma keeps_authenticateApiKey env req :
  keeps_wf (authenticateApiKey env req).
Proof.
  unfold authenticateApiKey.
  destruct (x_api_key req) as [ | h | l ]; auto with keeps.
  destruct (String.eqb h ""); [ auto with keeps | ].
  apply keeps_bind; [ auto with keeps | ].
  intros [ k | ]; [ destruct (ApiKey.active k) | ]; auto with keeps.
Qed.

Lemma keeps_handler env e apiKey req :
  keeps_wf (handler_of env e apiKey req).
Proof.
  destruct e; cbn [handler_of].
  - unfold chat_start. destruct (truthy_string _); [ | auto with keeps ].
    apply keeps_try_catch; [ | auto with keeps ].
    apply keeps_bind; [ auto with keeps | ].
    intros ses. apply keeps_bind; [ apply keeps_processChat | ].
    intros bot. apply keeps_bind; auto with keeps.
  - unfold chat_message.
    destruct (truthy_number _); [ | auto with keeps ].
    destruct (truthy_string _); [ | auto with keeps ].
    apply keeps_try_catch; [ | auto with keeps ].
    apply keeps_bind; [ auto with keeps | ].
    intros [ ses | ]; [ | auto with keeps ].
    apply keeps_bind; [ apply keeps_processChat | auto with keeps ].
  - unfold chat_sessions.
    apply keeps_try_catch; [ | auto with keeps ].
    apply keeps_bind; auto with keeps.
  - unfold chat_history.
    apply keeps_try_catch; [ | auto with keeps ].
    cbv zeta. apply keeps_bind; [ auto with keeps | ].
    intros [ ses | ]; [ | auto with keeps ].
    apply keeps_bind; auto with keeps.
Qed.

(** Every request to an authenticated endpoint, whatever the store and the
    model do, leaves the store in a state satisfying the invariant. *)
Lemma serve_wf env e req w : wf w -> wf (snd (serve env e req w)).
Proof.
  intros Hw.
  assert (H : keeps_wf (serve env e req)).
  { unfold serve, authenticated.
    apply keeps_bind; [ apply keeps_authenticateApiKey | ].
    intros [ r | k ]; [ auto with keeps | apply keeps_handler ]. }
  specialize (H w Hw). destruct (serve env e req w) as [[r | x] w']; exact H.
Qed.

Lemma processChat_wf env sid message w :
  wf w -> wf (snd (processChat env sid message w)).
Proof.
  intros Hw. pose proof (keeps_processChat env sid message w Hw) as H.
  destruct (processChat env sid message w) as [[r | x] w']; exact H.
Qed.

(** ** Lookups *)

Lemma find_none_iff {A} (f : A -> bool) (l : list A) :
  find f l = None <-> forall x, In x l -> f x = false.
Proof.
  split; [ apply find_none | ].
  induction l as [ | a l IH ]; cbn; [ reflexivity | ].
  intros H. rewrite (H a (or_introl eq_refl)). apply IH. auto.
Qed.

Lemma findFirst_not_owned (w : World) (aid sid : Z) :
  ~ owns w aid sid ->
  find (fun s => has_id sid s && owned_by aid s) (chatSessions (db w))
  = None.
Proof.
  intros Hn. apply find_none_iff. intros s Hs.
  destruct (has_id sid s && owned_by aid s) eqn:E; [ | reflexivity ].
  exfalso. apply Hn. exists s.
  apply andb_true_iff in E. unfold has_id, owned_by in E.
  rewrite !Z.eqb_eq in E. tauto.
Qed.

Lemma findFirst_owned (w : World) (aid sid : Z) :
  owns w aid sid ->
  exists s,
    find (fun s => has_id sid s && owned_by aid s) (chatSessions (db w))
    = Some s /\ ChatSession.id s = sid.
Proof.
  intros (s & Hs & Hi & Ha).
  destruct (find _ _) as [ r | ] eqn:E.
  - exists r. split; [ reflexivity | ].
    apply find_some in E. destruct E as [_ E].
    apply andb_true_iff in E. unfold has_id in E.
    now rewrite Z.eqb_eq in E.
  - exfalso. rewrite find_none_iff in E. specialize (E s Hs).
    unfold has_id, owned_by in E. rewrite Hi, Ha, !Z.eqb_refl in E.
    discriminate.
Qed.

(** A session that does not exist, or whose rows all belong to another
    tenant, is not owned by the caller. *)
Lemma absent_or_foreign_not_owned (w : World) (aid sid : Z) :
  session_row w sid = None \/
  (exists other, other <> aid /\
     forall r, In r (chatSessions (db w)) -> ChatSession.id r = sid ->
               ChatSession.apiKeyId r = other) ->
  ~ owns w aid sid.
Proof.
  intros [Habs | (other & Hne & Hall)] (s & Hs & Hi & Ha).
  - unfold session_row in Habs. rewrite find_none_iff in Habs.
    specialize (Habs s Hs). unfold has_id in Habs. lia.
  - specialize (Hall s Hs Hi). congruence.
Qed.

Lemma session_row_exists (w : World) (sid : Z) (s : ChatSession.t) :
  session_row w sid = Some s ->
  existsb (has_id sid) (chatSessions (db w)) = true.
Proof.
  intros H. apply find_some in H. apply existsb_exists.
  exists s. exact H.
Qed.

(** ** The middleware *)

(** When the middleware calls [next()], it has made one lookup by key and
    changed nothing. *)
Lemma authenticateApiKey_next env req w k w1 :
  authenticateApiKey env req w = (Ok (inr k), w1) ->
  exists h,
    x_api_key req = HString h /\ h <> "" /\
    find (has_key h) (apiKeys (db w)) = Some k /\ ApiKey.active k = true /\
    storeFault env (List.length (log w)) = false /\
    w1 = mkWorld (db w) (clock env w)
                 (log w ++ [Prisma (ApiKeyFindUnique h)]).
Proof.
  unfold authenticateApiKey.
  destruct (x_api_key req) as [ | h | l ]; try discriminate.
  destruct (String.eqb_spec h ""); [ discriminate | ].
  unfold bind, apiKey_findUnique, prisma.
  destruct (storeFault env (List.length (log w))) eqn:Hf; [ discriminate | ].
  destruct (find (has_key h) (apiKeys (db w))) as [ r | ] eqn:Hr;
    [ | discriminate ].
  destruct (ApiKey.active r) eqn:Ha; [ | discriminate ].
  unfold ret. intros H. inversion H; subst.
  exists h. repeat split; auto.
Qed.

Lemma serve_next env e req w k w1 :
  authenticateApiKey env req w = (Ok (inr k), w1) ->
  serve env e req w = handler_of env e k req w1.
Proof.
  intros H. unfold serve, authenticated, bind. now rewrite H.
Qed.

(** ** C10 *)

(** C10: on every authenticated endpoint, a request whose x-api-key header
    is absent, or arrives as an array because it was supplied more than
    once, is answered 401 by the middleware: the world is unchanged, so no
    store lookup was made, and the answer is the same whatever handler is
    mounted behind the middleware, so the route handler did not run. *)
Theorem missing_or_repeated_key_is_rejected
    (env : Env) (e : Endpoint) (req : Request) (w : World) :
  x_api_key req = HUndefined \/ (exists l, x_api_key req = HArray l) ->
  serve env e req w
  = (Ok (res_error 401 "API key is missing or invalid"), w)
  /\ forall handler,
       authenticated env handler req w
       = (Ok (res_error 401 "API key is missing or invalid"), w).
Proof.
  intros H.
  assert (G : forall handler,
             authenticated env handler req w
             = (Ok (res_error 401 "API key is missing or invalid"), w)).
  { intros handler. unfold authenticated, bind, authenticateApiKey.
    destruct H as [ -> | [l ->] ]; reflexivity. }
  split; [ apply G | exact G ].
Qed.

Lemma missing_or_repeated_key_is_rejected_witness :
  serve (demo_env Raises Raises) PostChatMessage
        (mkRequest (HArray ["key-alice"; "key-alice"]) (Some 1)
                   (Some "hi") 1)
        demo_world
  = (Ok (res_error 401 "API key is missing or invalid"), demo_world)
  /\ forall handler,
       authenticated (demo_env Raises Raises) handler
         (mkRequest (HArray ["key-alice"; "key-alice"]) (Some 1)
                    (Some "hi") 1)
         demo_world
       = (Ok (res_error 401 "API key is missing or invalid"), demo_world).
Proof.
  apply (missing_or_repeated_key_is_rejected
           (demo_env Raises Raises) PostChatMessage
           (mkRequest (HArray ["key-alice"; "key-alice"]) (Some 1)
                      (Some "hi") 1)
           demo_world).
  right. exists ["key-alice"; "key-alice"]. reflexivity.
Defined.

(** ** C8 *)

Lemma chat_message_invalid env apiKey req w :
  truthy_number (body_sessionId req) = None \/
  truthy_string (body_message req) = None ->
  chat_message env apiKey req w
  = (Ok (res_error 400 "sessionId and message are required"), w).
Proof.
  intros H. unfold chat_message.
  destruct H as [ -> | -> ]; [ | destruct (truthy_number _) ]; reflexivity.
Qed.

Lemma chat_start_invalid env apiKey req w :
  truthy_string (body_message req) = None ->
  chat_start env apiKey req w
  = (Ok (res_error 400 "Initial message is required"), w).
Proof. intros H. unfold chat_start. now rewrite H. Qed.

Lemma empty_message_falsy (x : option string) :
  x = None \/ x = Some "" -> truthy_string x = None.
Proof. intros [ -> | -> ]; reflexivity. Qed.

(** The claim as worded fails on two counts.  A request with an empty
    message and the key of an active tenant is answered 400 only after the
    middleware has read the key table: the lookup is in the log.  The same
    body without a key is answered 401, not 400. *)
Lemma invalid_body_is_not_rejected_before_any_store_access :
  (body_message (mkRequest (HString "key-alice") None (Some "") 0)
   = Some "" /\
   serve (demo_env Raises Raises) PostChatMessage
     (mkRequest (HString "key-alice") None (Some "") 0) demo_world
   = (Ok (res_error 400 "sessionId and message are required"),
      mkWorld demo_db 11 [Prisma (ApiKeyFindUnique "key-alice")]) /\
   serve (demo_env Raises Raises) PostChatStart
     (mkRequest (HString "key-alice") None (Some "") 0) demo_world
   = (Ok (res_error 400 "Initial message is required"),
      mkWorld demo_db 11 [Prisma (ApiKeyFindUnique "key-alice")]) /\
   log demo_world = [] /\
   mkWorld demo_db 11 [Prisma (ApiKeyFindUnique "key-alice")] <> demo_world)
  /\
  (serve (demo_env Raises Raises) PostChatMessage
     (mkRequest HUndefined None (Some "") 0) demo_world
   = (Ok (res_error 401 "API key is missing or invalid"), demo_world) /\
   serve (demo_env Raises Raises) PostChatStart
     (mkRequest HUndefined None (Some "") 0) demo_world
   = (Ok (res_error 401 "API key is missing or invalid"), demo_world)).
Proof.
  repeat split; try reflexivity. discriminate.
Qed.

(** C8, as amended: for a request that the middleware lets through, which
    it does after one lookup of the key and nothing else, the handler of
    POST /api/chat/message answers 400 when sessionId is missing or the
    message is missing or empty, and the handler of POST /api/chat/start
    answers 400 when the message is missing or empty.  The handler leaves
    the world it is given as it is: it makes no call to the store or to
    the model.  So the only store access of the whole request is the
    middleware's lookup of the key, and no table is changed. *)
Theorem invalid_body_is_rejected_after_the_key_lookup_only
    (env : Env) (req : Request) (k : ApiKey.t) (w w1 : World) :
  authenticateApiKey env req w = (Ok (inr k), w1) ->
  (exists h,
     x_api_key req = HString h /\
     w1 = mkWorld (db w) (clock env w)
            (log w ++ [Prisma (ApiKeyFindUnique h)])) /\
  (body_sessionId req = None \/ body_message req = None \/
   body_message req = Some "" ->
   chat_message env k req w1
   = (Ok (res_error 400 "sessionId and message are required"), w1) /\
   serve env PostChatMessage req w
   = (Ok (res_error 400 "sessionId and message are required"), w1)) /\
  (body_message req = None \/ body_message req = Some "" ->
   chat_start env k req w1
   = (Ok (res_error 400 "Initial message is required"), w1) /\
   serve env PostChatStart req w
   = (Ok (res_error 400 "Initial message is required"), w1)).
Proof.
  intros Ha.
  destruct (authenticateApiKey_next _ _ _ _ _ Ha)
    as (h & Hh & _ & _ & _ & _ & Hw1).
  split; [ exists h; split; assumption | ].
  rewrite !(serve_next _ _ _ _ _ _ Ha). cbn [handler_of].
  split; intros Hb.
  - assert (H : chat_message env k req w1
                = (Ok (res_error 400 "sessionId and message are required"),
                   w1)).
    { apply chat_message_invalid.
      destruct Hb as [ -> | Hb ]; [ left; reflexivity | right ].
      now apply empty_message_falsy. }
    split; exact H.
  - assert (H : chat_start env k req w1
                = (Ok (res_error 400 "Initial message is required"), w1)).
    { apply chat_start_invalid. now apply empty_message_falsy. }
    split; exact H.
Qed.

Lemma invalid_body_is_rejected_after_the_key_lookup_only_witness :
  (exists h,
     x_api_key (mkRequest (HString "key-alice") None (Some "") 0)
     = HString h /\
     mkWorld demo_db 11 [Prisma (ApiKeyFindUnique "key-alice")]
     = mkWorld (db demo_world) (clock (demo_env Raises Raises) demo_world)
         (log demo_world ++ [Prisma (ApiKeyFindUnique h)])) /\
  (chat_message (demo_env Raises Raises) alice
     (mkRequest (HString "key-alice") None (Some "") 0)
     (mkWorld demo_db 11 [Prisma (ApiKeyFindUnique "key-alice")])
   = (Ok (res_error 400 "sessionId and message are required"),
      mkWorld demo_db 11 [Prisma (ApiKeyFindUnique "key-alice")]) /\
   serve (demo_env Raises Raises) PostChatMessage
     (mkRequest (HString "key-alice") None (Some "") 0) demo_world
   = (Ok (res_error 400 "sessionId and message are required"),
      mkWorld demo_db 11 [Prisma (ApiKeyFindUnique "key-alice")])) /\
  (chat_start (demo_env Raises Raises) alice
     (mkRequest (HString "key-alice") None (Some "") 0)
     (mkWorld demo_db 11 [Prisma (ApiKeyFindUnique "key-alice")])
   = (Ok (res_error 400 "Initial message is required"),
      mkWorld demo_db 11 [Prisma (ApiKeyFindUnique "key-alice")]) /\
   serve (demo_env Raises Raises) PostChatStart
     (mkRequest (HString "key-alice") None (Some "") 0) demo_world
   = (Ok (res_error 400 "Initial message is required"),
      mkWorld demo_db 11 [Prisma (ApiKeyFindUnique "key-alice")])).
Proof.
  destruct (invalid_body_is_rejected_after_the_key_lookup_only
              (demo_env Raises Raises)
              (mkRequest (HString "key-alice") None (Some "") 0)
              alice demo_world
              (mkWorld demo_db 11 [Prisma (ApiKeyFindUnique "key-alice")])
              eq_refl) as (H1 & H2 & H3).
  split; [ exact H1 | split ].
  - apply H2. left. reflexivity.
  - apply H3. right. reflexivity.
Defined.

(** ** C1 *)

Lemma truthy_number_some (x : option Z) (n : Z) :
  x = Some n -> n <> 0 -> truthy_number x = Some n.
Proof.
  intros -> Hn. cbn. destruct (Z.eqb_spec n 0); [ contradiction | easy ].
Qed.

Lemma truthy_string_some (x : option string) (s : string) :
  x = Some s -> s <> "" -> truthy_string x = Some s.
Proof.
  intros -> Hs. cbn. destruct (String.eqb_spec s ""); [ contradiction | easy ].
Qed.

Lemma chat_message_not_owned env apiKey req sid message w :
  truthy_number (body_sessionId req) = Some sid ->
  truthy_string (body_message req) = Some message ->
  storeFault env (List.length (log w)) = false ->
  ~ owns w (ApiKey.id apiKey) sid ->
  chat_message env apiKey req w
  = (Ok (res_error 404 "Session not found or unauthorized"),
     mkWorld (db w) (clock env w)
       (log w ++ [Prisma (ChatSessionFindFirst sid (ApiKey.id apiKey))])).
Proof.
  intros Hs Hm Hf Hn. unfold chat_message. rewrite Hs, Hm.
  unfold try_catch, bind, chatSession_findFirst, prisma.
  rewrite Hf, (findFirst_not_owned _ _ _ Hn). reflexivity.
Qed.

Lemma chat_history_not_owned env apiKey req w :
  storeFault env (List.length (log w)) = false ->
  ~ owns w (ApiKey.id apiKey) (params_sessionId req) ->
  chat_history env apiKey req w
  = (Ok (res_error 404 "Session not found or unauthorized"),
     mkWorld (db w) (clock env w)
       (log w ++ [Prisma (ChatSessionFindFirst (params_sessionId req)
                            (ApiKey.id apiKey))])).
Proof.
  intros Hf Hn. unfold chat_history.
  unfold try_catch, bind, chatSession_findFirst, prisma.
  rewrite Hf, (findFirst_not_owned _ _ _ Hn). reflexivity.
Qed.

(** C1: a request authenticated as tenant T1 that names a session [s] which
    does not exist, or whose rows belong to another tenant T2, and that
    reaches the session lookup (for POST /api/chat/message the body passes
    validation; the store answers the lookup), is answered with the one
    404 response, the same in both cases.  The tables are unchanged, and the
    only calls logged are the key lookup of the middleware and the session
    lookup filtered by the id and by T1: no row of T2 is returned and the
    message table is not queried. *)
Theorem foreign_session_is_not_found
    (env : Env) (req : Request) (T1 : ApiKey.t) (s : Z) (w w1 : World) :
  authenticateApiKey env req w = (Ok (inr T1), w1) ->
  session_row w s = None \/
  (exists T2, T2 <> ApiKey.id T1 /\
     forall r, In r (chatSessions (db w)) -> ChatSession.id r = s ->
               ChatSession.apiKeyId r = T2) ->
  storeFault env (List.length (log w1)) = false ->
  exists k w2,
    db w2 = db w /\
    log w2 = log w ++ [Prisma (ApiKeyFindUnique k);
                       Prisma (ChatSessionFindFirst s (ApiKey.id T1))] /\
    (forall message,
       body_sessionId req = Some s -> s <> 0 ->
       body_message req = Some message -> message <> "" ->
       serve env PostChatMessage req w
       = (Ok (res_error 404 "Session not found or unauthorized"), w2)) /\
    (params_sessionId req = s ->
     serve env GetChatSessionId req w
     = (Ok (res_error 404 "Session not found or unauthorized"), w2)).
Proof.
  intros Ha Hs Hf.
  pose proof (absent_or_foreign_not_owned w (ApiKey.id T1) s Hs) as Hn.
  destruct (authenticateApiKey_next _ _ _ _ _ Ha)
    as (k & _ & _ & _ & _ & _ & Hw1).
  exists k,
    (mkWorld (db w1) (clock env w1)
       (log w1 ++ [Prisma (ChatSessionFindFirst s (ApiKey.id T1))])).
  assert (Hn1 : ~ owns w1 (ApiKey.id T1) s) by (subst w1; exact Hn).
  repeat split.
  - subst w1. reflexivity.
  - subst w1. cbn. now rewrite <- app_assoc.
  - intros message Hb Hz Hm Hne.
    rewrite (serve_next _ _ _ _ _ _ Ha). cbn [handler_of].
    apply chat_message_not_owned with (message := message); auto.
    + now apply truthy_number_some.
    + now apply truthy_string_some.
  - intros Hp. rewrite (serve_next _ _ _ _ _ _ Ha). cbn [handler_of].
    subst s. now apply chat_history_not_owned.
Qed.

Lemma foreign_session_is_not_found_witness :
  exists w2,
    db w2 = db demo_world /\
    serve (demo_env Raises Raises) PostChatMessage
      (mkRequest (HString "key-alice") (Some 2)
         (Some "what did Bob say?") 2) demo_world
    = (Ok (res_error 404 "Session not found or unauthorized"), w2) /\
    serve (demo_env Raises Raises) GetChatSessionId
      (mkRequest (HString "key-alice") (Some 2)
         (Some "what did Bob say?") 2) demo_world
    = (Ok (res_error 404 "Session not found or unauthorized"), w2).
Proof.
  destruct (foreign_session_is_not_found (demo_env Raises Raises)
              (mkRequest (HString "key-alice") (Some 2)
                 (Some "what did Bob say?") 2)
              alice 2 demo_world
              (mkWorld demo_db 11 [Prisma (ApiKeyFindUnique "key-alice")]))
    as (k & w2 & Hdb & _ & Hpost & Hget).
  - reflexivity.
  - right. exists 2. split; [ discriminate | ].
    intros r [ <- | [ <- | [] ] ]; cbn; intros; [ discriminate | reflexivity ].
  - reflexivity.
  - exists w2. split; [ exact Hdb | split ].
    + apply (Hpost "what did Bob say?");
        [ reflexivity | discriminate | reflexivity | discriminate ].
    + apply Hget. reflexivity.
Defined.

(** ** Running a turn on a store that answers *)

Lemma processChat_phases env sessionId message :
  processChat env sessionId message
  = bind (chatSession_findUnique env sessionId) (fun session =>
    bind (title_phase env sessionId message session) (fun _ =>
    reply_phase env sessionId message)).
Proof. reflexivity. Qed.

Lemma generateSessionTitle_run env message w :
  generateSessionTitle env message w
  = (Ok (chosen_title env message),
     mkWorld (db w) (clock env w)
             (log w ++ [GenerateContent (title_prompt message)])).
Proof.
  unfold generateSessionTitle, try_catch, bind, oracle, ret.
  destruct (generateContent env (title_prompt message)); reflexivity.
Qed.

Lemma chosen_title_nonempty env message : chosen_title env message <> "".
Proof.
  destruct (generateContent env (title_prompt message));
    [ easy | now apply or_else_nonempty ].
Qed.

Lemma reply_calls_app (l1 l2 : list Event) :
  reply_calls (l1 ++ l2) = reply_calls l1 ++ reply_calls l2.
Proof. apply flat_map_app. Qed.

Lemma find_set_title (sid sid' : Z) (t : string) (l : list ChatSession.t) :
  find (has_id sid') (map (set_title sid t) l)
  = option_map (set_title sid t) (find (has_id sid') l).
Proof.
  induction l as [ | a l IH ]; cbn; [ reflexivity | ].
  assert (E : has_id sid' (set_title sid t a) = has_id sid' a).
  { unfold set_title. destruct (has_id sid a); reflexivity. }
  rewrite E. destruct (has_id sid' a); [ reflexivity | exact IH ].
Qed.

Lemma existsb_set_title (sid sid' : Z) (t : string)
    (l : list ChatSession.t) :
  existsb (has_id sid') (map (set_title sid t) l) = existsb (has_id sid') l.
Proof.
  induction l as [ | a l IH ]; cbn; [ reflexivity | ].
  rewrite IH. f_equal. unfold set_title.
  destruct (has_id sid a); reflexivity.
Qed.

(** What the title phase does when the store answers: nothing to a session
    that has a title, and one title request followed by one update to a
    session that has none. *)
Lemma title_phase_run env sid message s w :
  store_ok env ->
  session_row w sid = Some s ->
  exists w3 l,
    title_phase env sid message (Some s) w = (Ok tt, w3) /\
    log w3 = log w ++ l /\ reply_calls l = [] /\
    now w <= now w3 /\
    apiKeys (db w3) = apiKeys (db w) /\
    messages (db w3) = messages (db w) /\
    nextSessionId (db w3) = nextSessionId (db w) /\
    nextMessageId (db w3) = nextMessageId (db w) /\
    chatSessions (db w3)
    = (if untitled s
       then map (set_title sid (chosen_title env message))
                (chatSessions (db w))
       else chatSessions (db w)).
Proof.
  intros Hok Hs. cbv beta iota. destruct (untitled s).
  - eexists.
    exists [GenerateContent (title_prompt message);
            Prisma (ChatSessionUpdate sid (chosen_title env message))].
    split.
    { unfold bind. rewrite generateSessionTitle_run.
      unfold chatSession_update, prisma. rewrite Hok.
      cbn [db now log].
      rewrite (session_row_exists _ _ _ Hs). reflexivity. }
    cbn [db now log apiKeys messages chatSessions nextSessionId
         nextMessageId].
    repeat split.
    + now rewrite <- app_assoc.
    + pose proof (clock_ge env w).
      pose proof (clock_ge env
        (mkWorld (db w) (clock env w)
           (log w ++ [GenerateContent (title_prompt message)]))).
      cbn [now] in *. lia.
  - exists w, []. repeat split; auto using app_nil_r; try lia.
Qed.

(** What the reply phase does when the store answers: the user turn [u] is
    appended, the history is read back with [u] last, the model is given
    the transcript of the earlier turns as context and the text of [u] as
    the message, and its answer, if it gives one, is appended. *)
Lemma reply_phase_run env sid message w :
  store_ok env ->
  existsb (has_id sid) (chatSessions (db w)) = true ->
  Forall (fun m => Message.createdAt m <= now w) (messages (db w)) ->
  let u := new_message (clock env w) (db w) message "user" sid in
  let prior := map to_content (history (db w) sid) in
  exists w6,
    db w6 = with_message (db w) u /\
    history (db w6) sid = history (db w) sid ++ [u] /\
    log w6 = log w ++ [Prisma (MessageCreate message "user" sid);
                       Prisma (MessageFindMany sid);
                       SendMessage prior message] /\
    clock env w <= now w6 /\
    reply_phase env sid message w
    = match sendMessage env prior message with
      | Raises => (Throw OracleError, w6)
      | Returns r =>
          let b := new_message (clock env w6) (db w6)
                     (or_else r "No response text") "bot" sid in
          (Ok b,
           mkWorld (with_message (db w6) b) (clock env w6)
             (log w6 ++ [Prisma (MessageCreate
                                   (or_else r "No response text") "bot"
                                   sid)]))
      end.
Proof.
  intros Hok Hex Ht u prior.
  assert (Hh : history (with_message (db w) u) sid
               = history (db w) sid ++ [u]).
  { apply history_append. eapply Forall_impl; [ | exact Ht ].
    cbn. intros m Hm. pose proof (clock_ge env w). lia. }
  set (w4 := mkWorld (with_message (db w) u) (clock env w)
               (log w ++ [Prisma (MessageCreate message "user" sid)])).
  set (w5 := mkWorld (db w4) (clock env w4)
               (log w4 ++ [Prisma (MessageFindMany sid)])).
  exists (mkWorld (db w5) (clock env w5)
            (log w5 ++ [SendMessage prior message])).
  cbn [db now log]. repeat split.
  - exact Hh.
  - subst w5 w4. cbn [db now log]. now rewrite <- !app_assoc.
  - pose proof (clock_ge env w5). pose proof (clock_ge env w4).
    subst w5 w4. cbn [now] in *. lia.
  - unfold bind at 1. unfold message_create at 1, prisma.
    rewrite Hok, Hex. fold u. fold w4.
    unfold bind at 1. unfold message_findMany, prisma.
    rewrite Hok. fold w5.
    replace (history (db w4) sid) with (history (db w) sid ++ [u])
      by (symmetry; exact Hh).
    rewrite map_app. cbn [map]. rewrite removelast_last. fold prior.
    unfold bind at 1. unfold oracle at 1.
    destruct (sendMessage env prior message) as [ | r ]; [ reflexivity | ].
    cbv zeta. unfold bind, message_create, prisma, ret.
    rewrite Hok. cbn [db now log chatSessions].
    subst w5 w4. cbn [db chatSessions]. rewrite Hex. reflexivity.
Qed.

(** A whole turn on a session that exists, when the store answers. *)
Lemma processChat_run env sid message s w :
  store_ok env ->
  wf w ->
  session_row w sid = Some s ->
  let prior := map to_content (history (db w) sid) in
  exists u w6 l,
    (Message.content u = message /\ Message.sender u = "user" /\
     Message.chatSessionId u = sid) /\
    messages (db w6) = messages (db w) ++ [u] /\
    history (db w6) sid = history (db w) sid ++ [u] /\
    apiKeys (db w6) = apiKeys (db w) /\
    chatSessions (db w6)
    = (if untitled s
       then map (set_title sid (chosen_title env message))
                (chatSessions (db w))
       else chatSessions (db w)) /\
    log w6 = log w ++ l ++ [SendMessage prior message] /\
    reply_calls l = [] /\
    processChat env sid message w
    = match sendMessage env prior message with
      | Raises => (Throw OracleError, w6)
      | Returns r =>
          let b := new_message (clock env w6) (db w6)
                     (or_else r "No response text") "bot" sid in
          (Ok b,
           mkWorld (with_message (db w6) b) (clock env w6)
             (log w6 ++ [Prisma (MessageCreate
                                   (or_else r "No response text") "bot"
                                   sid)]))
      end.
Proof.
  intros Hok Hwf Hs prior.
  set (w1 := mkWorld (db w) (clock env w)
               (log w ++ [Prisma (ChatSessionFindUnique sid)])).
  assert (Hs1 : session_row w1 sid = Some s) by exact Hs.
  destruct (title_phase_run env sid message s w1 Hok Hs1)
    as (w3 & l3 & Hrun3 & Hlog3 & Hrc3 & Hnow3 & Hkeys3 & Hmsg3 & _ & _
        & Hses3).
  assert (Hex3 : existsb (has_id sid) (chatSessions (db w3)) = true).
  { rewrite Hses3. destruct (untitled s);
      [ rewrite existsb_set_title | ];
      exact (session_row_exists _ _ _ Hs). }
  assert (Ht3 : Forall (fun m => Message.createdAt m <= now w3)
                       (messages (db w3))).
  { rewrite Hmsg3. eapply Forall_impl; [ | exact (wf_times _ Hwf) ].
    cbn. intros m Hm. pose proof (clock_ge env w).
    subst w1. cbn [now] in Hnow3. lia. }
  assert (Hh3 : history (db w3) sid = history (db w) sid).
  { unfold history. now rewrite Hmsg3. }
  destruct (reply_phase_run env sid message w3 Hok Hex3 Ht3)
    as (w6 & Hdb6 & Hh6 & Hlog6 & _ & Hrun6).
  rewrite Hh3 in Hh6, Hlog6, Hrun6. fold prior in Hlog6, Hrun6.
  exists (new_message (clock env w3) (db w3) message "user" sid), w6,
    ([Prisma (ChatSessionFindUnique sid)] ++ l3
       ++ [Prisma (MessageCreate message "user" sid);
           Prisma (MessageFindMany sid)]).
  repeat split.
  - rewrite Hdb6. cbn [messages]. now rewrite Hmsg3.
  - exact Hh6.
  - rewrite Hdb6. exact Hkeys3.
  - rewrite Hdb6. exact Hses3.
  - rewrite Hlog6, Hlog3. subst w1. cbn [log].
    rewrite <- !app_assoc. reflexivity.
  - rewrite !reply_calls_app, Hrc3. reflexivity.
  - rewrite processChat_phases. unfold bind at 1.
    unfold chatSession_findUnique, prisma. rewrite Hok. fold w1.
    unfold session_row in Hs. rewrite Hs.
    unfold bind at 1. rewrite Hrun3. exact Hrun6.
Qed.

Lemma owns_session_row (w : World) (aid sid : Z) :
  owns w aid sid -> exists s, session_row w sid = Some s.
Proof.
  intros (r & Hr & Hi & _). unfold session_row.
  destruct (find (has_id sid) (chatSessions (db w))) as [ s | ] eqn:E;
    [ now exists s | ].
  rewrite find_none_iff in E. specialize (E r Hr).
  unfold has_id in E. lia.
Qed.

Lemma title_of_set_title (w w' : World) (sid : Z) (s : ChatSession.t)
    (t : string) :
  session_row w sid = Some s ->
  chatSessions (db w') = map (set_title sid t) (chatSessions (db w)) ->
  title_of w' sid = Some (Some t).
Proof.
  intros Hs Hc. unfold title_of, session_row in *.
  rewrite Hc, find_set_title, Hs. cbn.
  apply find_some in Hs. destruct Hs as [_ Hs].
  unfold set_title. now rewrite Hs.
Qed.

Lemma title_of_other_set_title (w w' : World) (sid sid' : Z) (t : string) :
  sid' <> sid ->
  chatSessions (db w') = map (set_title sid t) (chatSessions (db w)) ->
  title_of w' sid' = title_of w sid'.
Proof.
  intros Hne Hc. unfold title_of, session_row.
  rewrite Hc, find_set_title.
  destruct (find (has_id sid') (chatSessions (db w))) as [ s | ] eqn:E;
    [ | reflexivity ].
  apply find_some in E. destruct E as [_ E]. cbn.
  unfold set_title, has_id in *.
  destruct (Z.eqb_spec (ChatSession.id s) sid); [ lia | reflexivity ].
Qed.

(** The handler of POST /api/chat/message on a session the caller owns:
    one lookup, then the turn; the answer is the bot turn, or the 500
    response if the turn throws. *)
Lemma chat_message_run env apiKey req sid message w :
  truthy_number (body_sessionId req) = Some sid ->
  truthy_string (body_message req) = Some message ->
  storeFault env (List.length (log w)) = false ->
  owns w (ApiKey.id apiKey) sid ->
  chat_message env apiKey req w
  = match processChat env sid message
            (mkWorld (db w) (clock env w)
               (log w ++ [Prisma (ChatSessionFindFirst sid
                                    (ApiKey.id apiKey))])) with
    | (Ok b, w') => (Ok (res_json (JMessage b)), w')
    | (Throw _, w') =>
        (Ok (res_error 500
               "Something went wrong processing the AI response"), w')
    end.
Proof.
  intros Hs Hm Hf Ho. unfold chat_message. rewrite Hs, Hm.
  destruct (findFirst_owned _ _ _ Ho) as (s & Hfind & _).
  unfold try_catch, bind at 1. unfold chatSession_findFirst, prisma.
  rewrite Hf, Hfind. unfold bind, ret.
  destruct (processChat _ _ _ _) as [[b | e] w']; reflexivity.
Qed.

(** ** C3 *)

Lemma processChat_reply_raises env sid message s w :
  store_ok env -> wf w -> session_row w sid = Some s ->
  (forall h, sendMessage env h message = Raises) ->
  exists u w',
    processChat env sid message w = (Throw OracleError, w') /\
    is_turn u sid "user" message /\
    messages (db w') = messages (db w) ++ [u] /\
    history (db w') sid = history (db w) sid ++ [u] /\
    wf w'.
Proof.
  intros Hok Hwf Hs Hr.
  destruct (processChat_run env sid message s w Hok Hwf Hs)
    as (u & w6 & l & (Hc & Hsd & Hi) & Hmsg & Hh & _ & _ & _ & _ & Hrun).
  rewrite Hr in Hrun. exists u, w6. repeat split; auto.
  1-3: pose proof (processChat_wf env sid message w Hwf) as H;
       rewrite Hrun in H; apply H.
Qed.

(** C3: when the reply call to the model raises during a turn on a session
    of the caller (the store answering every call), [processChat] throws
    the model's error after having appended exactly one message, the user
    turn, which is then the last turn of the session's history; no bot turn
    is appended, the store still satisfies its invariant, and the handler
    of POST /api/chat/message answers with status 500. *)
Theorem reply_error_keeps_only_user_turn
    (env : Env) (apiKey : ApiKey.t) (req : Request) (sid : Z)
    (message : string) (w : World) :
  store_ok env -> wf w -> owns w (ApiKey.id apiKey) sid ->
  body_sessionId req = Some sid -> sid <> 0 ->
  body_message req = Some message -> message <> "" ->
  (forall h, sendMessage env h message = Raises) ->
  (exists u w',
     processChat env sid message w = (Throw OracleError, w') /\
     is_turn u sid "user" message /\
     messages (db w') = messages (db w) ++ [u] /\
     history (db w') sid = history (db w) sid ++ [u] /\
     wf w')
  /\
  (exists u w',
     chat_message env apiKey req w
     = (Ok (res_error 500
              "Something went wrong processing the AI response"), w') /\
     is_turn u sid "user" message /\
     messages (db w') = messages (db w) ++ [u] /\
     history (db w') sid = history (db w) sid ++ [u] /\
     wf w').
Proof.
  intros Hok Hwf Ho Hb Hz Hm Hne Hr.
  destruct (owns_session_row _ _ _ Ho) as [s Hs]. split.
  - now apply processChat_reply_raises with (s := s).
  - rewrite (chat_message_run env apiKey req sid message w);
      auto using truthy_number_some, truthy_string_some.
    set (w0 := mkWorld (db w) (clock env w) _).
    assert (Hwf0 : wf w0) by (apply wf_later; exact Hwf).
    destruct (processChat_reply_raises env sid message s w0 Hok Hwf0 Hs Hr)
      as (u & w' & Hrun & Hu & Hmsg & Hh & Hwf').
    rewrite Hrun. exists u, w'. auto.
Qed.

Lemma reply_error_keeps_only_user_turn_witness :
  (exists u w',
     processChat (demo_env Raises Raises) 1 "and then?" demo_world
     = (Throw OracleError, w') /\
     is_turn u 1 "user" "and then?" /\
     messages (db w') = messages (db demo_world) ++ [u] /\
     history (db w') 1 = history (db demo_world) 1 ++ [u] /\
     wf w')
  /\
  (exists u w',
     chat_message (demo_env Raises Raises) alice
       (mkRequest (HString "key-alice") (Some 1) (Some "and then?") 0)
       demo_world
     = (Ok (res_error 500
              "Something went wrong processing the AI response"), w') /\
     is_turn u 1 "user" "and then?" /\
     messages (db w') = messages (db demo_world) ++ [u] /\
     history (db w') 1 = history (db demo_world) 1 ++ [u] /\
     wf w').
Proof.
  apply (reply_error_keeps_only_user_turn (demo_env Raises Raises) alice
           (mkRequest (HString "key-alice") (Some 1) (Some "and then?") 0)
           1 "and then?" demo_world).
  - intros n. reflexivity.
  - split; cbn; repeat constructor; cbn; try discriminate; lia.
  - exists (ChatSession.mk 1 (Some "Greetings") 3 1). cbn. auto.
  - reflexivity.
  - discriminate.
  - reflexivity.
  - discriminate.
  - intros h. reflexivity.
Defined.

(** ** C5 *)

(** A turn in which the model answers: both turns are appended, in order. *)
Lemma processChat_reply_returns env sid message s w r :
  store_ok env -> wf w -> session_row w sid = Some s ->
  sendMessage env (map to_content (history (db w) sid)) message
  = Returns r ->
  exists u b w',
    processChat env sid message w = (Ok b, w') /\
    is_turn u sid "user" message /\
    is_turn b sid "bot" (or_else r "No response text") /\
    messages (db w') = messages (db w) ++ [u; b] /\
    history (db w') sid = history (db w) sid ++ [u; b] /\
    chatSessions (db w')
    = (if untitled s
       then map (set_title sid (chosen_title env message))
                (chatSessions (db w))
       else chatSessions (db w)) /\
    wf w'.
Proof.
  intros Hok Hwf Hs Hr.
  destruct (processChat_run env sid message s w Hok Hwf Hs)
    as (u & w6 & l & Hu & Hmsg & Hh & _ & Hses & _ & _ & Hrun).
  rewrite Hr in Hrun. cbv zeta in Hrun.
  pose proof (processChat_wf env sid message w Hwf) as Hwf'.
  rewrite Hrun in Hwf'. cbn [snd] in Hwf'.
  eexists u, _, _. split; [ exact Hrun | ].
  cbn [db messages chatSessions]. repeat split; try apply Hu; auto.
  - rewrite Hmsg, <- app_assoc. reflexivity.
  - rewrite history_append.
    + rewrite Hh, <- app_assoc. reflexivity.
    + pose proof (wf_times _ Hwf') as Ht. cbn [db messages now] in Ht.
      apply Forall_app in Ht. apply Ht.
  - apply Hwf'.
  - apply Hwf'.
  - apply Hwf'.
Qed.

(** C5: when the reply call to the model succeeds with no usable text
    (its text is undefined or empty) during a turn on a session of the
    caller (the store answering every call), [processChat] returns a bot
    turn whose text is the placeholder, appended after the user turn, and
    the handler of POST /api/chat/message answers with that turn and
    status 200. *)
Theorem empty_reply_is_replaced_by_placeholder
    (env : Env) (apiKey : ApiKey.t) (req : Request) (sid : Z)
    (message : string) (w : World) :
  store_ok env -> wf w -> owns w (ApiKey.id apiKey) sid ->
  body_sessionId req = Some sid -> sid <> 0 ->
  body_message req = Some message -> message <> "" ->
  (forall h, sendMessage env h message = Returns None \/
             sendMessage env h message = Returns (Some "")) ->
  (exists u b w',
     processChat env sid message w = (Ok b, w') /\
     is_turn u sid "user" message /\
     is_turn b sid "bot" "No response text" /\
     messages (db w') = messages (db w) ++ [u; b] /\
     history (db w') sid = history (db w) sid ++ [u; b])
  /\
  (exists u b w',
     chat_message env apiKey req w = (Ok (mkResponse 200 (JMessage b)), w') /\
     is_turn u sid "user" message /\
     is_turn b sid "bot" "No response text" /\
     messages (db w') = messages (db w) ++ [u; b] /\
     history (db w') sid = history (db w) sid ++ [u; b]).
Proof.
  intros Hok Hwf Ho Hb Hz Hm Hne Hr.
  destruct (owns_session_row _ _ _ Ho) as [s Hs].
  assert (Hr' : forall h, exists r,
               sendMessage env h message = Returns r /\
               or_else r "No response text" = "No response text").
  { intros h. destruct (Hr h) as [ E | E ]; rewrite E; eauto. }
  split.
  - destruct (Hr' (map to_content (history (db w) sid))) as (r & Er & Ee).
    destruct (processChat_reply_returns env sid message s w r Hok Hwf Hs Er)
      as (u & b & w' & Hrun & Hu & Hbot & Hmsg & Hh & _).
    rewrite Ee in Hbot. exists u, b, w'. auto.
  - rewrite (chat_message_run env apiKey req sid message w);
      auto using truthy_number_some, truthy_string_some.
    set (w0 := mkWorld (db w) (clock env w) _).
    assert (Hwf0 : wf w0) by (apply wf_later; exact Hwf).
    destruct (Hr' (map to_content (history (db w0) sid))) as (r & Er & Ee).
    destruct (processChat_reply_returns env sid message s w0 r
                Hok Hwf0 Hs Er)
      as (u & b & w' & Hrun & Hu & Hbot & Hmsg & Hh & _).
    rewrite Ee in Hbot. rewrite Hrun. exists u, b, w'. auto.
Qed.

Lemma empty_reply_is_replaced_by_placeholder_witness :
  (exists u b w',
     processChat (demo_env Raises (Returns (Some ""))) 1 "and then?"
       demo_world = (Ok b, w') /\
     is_turn u 1 "user" "and then?" /\
     is_turn b 1 "bot" "No response text" /\
     messages (db w') = messages (db demo_world) ++ [u; b] /\
     history (db w') 1 = history (db demo_world) 1 ++ [u; b])
  /\
  (exists u b w',
     chat_message (demo_env Raises (Returns (Some ""))) alice
       (mkRequest (HString "key-alice") (Some 1) (Some "and then?") 0)
       demo_world
     = (Ok (mkResponse 200 (JMessage b)), w') /\
     is_turn u 1 "user" "and then?" /\
     is_turn b 1 "bot" "No response text" /\
     messages (db w') = messages (db demo_world) ++ [u; b] /\
     history (db w') 1 = history (db demo_world) 1 ++ [u; b]).
Proof.
  apply (empty_reply_is_replaced_by_placeholder
           (demo_env Raises (Returns (Some ""))) alice
           (mkRequest (HString "key-alice") (Some 1) (Some "and then?") 0)
           1 "and then?" demo_world).
  - intros n. reflexivity.
  - split; cbn; repeat constructor; cbn; try discriminate; lia.
  - exists (ChatSession.mk 1 (Some "Greetings") 3 1). cbn. auto.
  - reflexivity.
  - discriminate.
  - reflexivity.
  - discriminate.
  - intros h. right. reflexivity.
Defined.

(** ** C4 *)

Lemma to_content_user_turn (u : Message.t) (sid : Z) (message : string) :
  is_turn u sid "user" message -> to_content u = mkContent "user" message.
Proof. intros (_ & Hs & Hc). unfold to_content. now rewrite Hs, Hc. Qed.

(** C4: in a turn on an existing session (the store answering every
    call), the model is called once, in a store whose history of the
    session is the earlier history followed by the just-appended user
    turn.  The transcript is that history, in its ascending order, with
    sender user mapped to role user and sender bot to role model; the call
    carries the transcript without its last entry as context and the user
    text as the message, and the last entry of the transcript is that very
    user text: context and message together are the transcript, with the
    current user text once. *)
Theorem reply_call_gets_prior_context_and_current_turn
    (env : Env) (sid : Z) (message : string) (s : ChatSession.t)
    (w : World) :
  store_ok env -> wf w -> session_row w sid = Some s ->
  (forall m, Message.sender m = "user" -> role (to_content m) = "user") /\
  (forall m, Message.sender m = "bot" -> role (to_content m) = "model") /\
  (forall m, text (to_content m) = Message.content m) /\
  exists u w6,
    is_turn u sid "user" message /\
    messages (db w6) = messages (db w) ++ [u] /\
    history (db w6) sid = history (db w) sid ++ [u] /\
    Sorted (fun a b => Message.createdAt a <= Message.createdAt b)
           (history (db w6) sid) /\
    let transcript := map to_content (history (db w6) sid) in
    (forall i, nth_error transcript i
               = option_map to_content (nth_error (history (db w6) sid) i)) /\
    transcript = removelast transcript ++ [mkContent "user" message] /\
    (exists l, log w6 = l ++ [SendMessage (removelast transcript) message]) /\
    reply_calls (log (snd (processChat env sid message w)))
    = reply_calls (log w) ++ [(removelast transcript, message)].
Proof.
  intros Hok Hwf Hs.
  split; [ | split; [ | split ] ].
  - intros m Hm. unfold to_content. now rewrite Hm.
  - intros m Hm. unfold to_content. now rewrite Hm.
  - reflexivity.
  - destruct (processChat_run env sid message s w Hok Hwf Hs)
      as (u & w6 & l & (Hc & Hsd & Hi) & Hmsg & Hh & _ & _ & Hlog & Hrc
          & Hrun).
    assert (Hu : is_turn u sid "user" message) by (repeat split; auto).
    exists u, w6. split; [ exact Hu | ]. split; [ exact Hmsg | ].
    split; [ exact Hh | ]. split; [ apply history_sorted | ].
    cbv zeta. split; [ intros i; apply nth_error_map | ].
    rewrite Hh, map_app. cbn [map].
    rewrite removelast_last, (to_content_user_turn u sid message Hu).
    split; [ reflexivity | split ].
    + exists (log w ++ l). rewrite Hlog. now rewrite app_assoc.
    + rewrite Hrun.
      destruct (sendMessage env _ message); cbn [snd log];
        rewrite ?reply_calls_app, Hlog, !reply_calls_app, Hrc;
        cbn; now rewrite ?app_nil_r.
Qed.

Lemma reply_call_gets_prior_context_and_current_turn_witness :
  (forall m, Message.sender m = "user" -> role (to_content m) = "user") /\
  (forall m, Message.sender m = "bot" -> role (to_content m) = "model") /\
  (forall m, text (to_content m) = Message.content m) /\
  exists u w6,
    is_turn u 1 "user" "and then?" /\
    messages (db w6) = messages (db demo_world) ++ [u] /\
    history (db w6) 1 = history (db demo_world) 1 ++ [u] /\
    Sorted (fun a b => Message.createdAt a <= Message.createdAt b)
           (history (db w6) 1) /\
    let transcript := map to_content (history (db w6) 1) in
    (forall i, nth_error transcript i
               = option_map to_content (nth_error (history (db w6) 1) i)) /\
    transcript = removelast transcript ++ [mkContent "user" "and then?"] /\
    (exists l,
       log w6 = l ++ [SendMessage (removelast transcript) "and then?"]) /\
    reply_calls
      (log (snd (processChat (demo_env Raises (Returns (Some "nothing")))
                   1 "and then?" demo_world)))
    = reply_calls (log demo_world)
      ++ [(removelast transcript, "and then?")].
Proof.
  apply (reply_call_gets_prior_context_and_current_turn
           (demo_env Raises (Returns (Some "nothing"))) 1 "and then?"
           (ChatSession.mk 1 (Some "Greetings") 3 1) demo_world).
  - intros n. reflexivity.
  - split; cbn; repeat constructor; cbn; try discriminate; lia.
  - reflexivity.
Defined.

(** ** C6 *)

Lemma title_of_untitled (w : World) (sid : Z) :
  title_of w sid = Some None ->
  exists s, session_row w sid = Some s /\ untitled s = true.
Proof.
  unfold title_of. destruct (session_row w sid) as [ s | ]; [ | easy ].
  cbn. intros H. exists s. split; [ reflexivity | ].
  unfold untitled. injection H as ->. reflexivity.
Qed.

(** C6: on a turn for a session that has no title yet (the store answering
    every call), if the title request to the model raises, or yields no
    text, or yields text that is empty once trimmed, then
    [generateSessionTitle] returns the default title without throwing, the
    session's title becomes that default, the user turn is appended, and
    the outcome of the turn is decided by the reply call alone: a bot turn
    if the model replies, the model's error if the reply call raises. *)
Theorem failed_titling_falls_back_to_default
    (env : Env) (sid : Z) (message : string) (w : World) :
  store_ok env -> wf w -> title_of w sid = Some None ->
  generateContent env (title_prompt message) = Raises \/
  generateContent env (title_prompt message) = Returns None \/
  (exists t, generateContent env (title_prompt message) = Returns (Some t)
             /\ trim env t = "") ->
  (forall w0, exists w1,
     generateSessionTitle env message w0 = (Ok "New Chat", w1) /\
     db w1 = db w0) /\
  title_of (snd (processChat env sid message w)) sid
  = Some (Some "New Chat") /\
  (exists u rest,
     is_turn u sid "user" message /\
     messages (db (snd (processChat env sid message w)))
     = messages (db w) ++ u :: rest) /\
  match sendMessage env (map to_content (history (db w) sid)) message with
  | Raises => fst (processChat env sid message w) = Throw OracleError
  | Returns r =>
      exists b, fst (processChat env sid message w) = Ok b /\
                is_turn b sid "bot" (or_else r "No response text")
  end.
Proof.
  intros Hok Hwf Ht Hfail.
  assert (Hdef : chosen_title env message = "New Chat").
  { destruct Hfail as [ -> | [ -> | (t & -> & Et) ] ]; try reflexivity.
    cbn. unfold or_else. cbn. now rewrite Et. }
  destruct (title_of_untitled _ _ Ht) as (s & Hs & Hun).
  destruct (processChat_run env sid message s w Hok Hwf Hs)
    as (u & w6 & l & (Hc & Hsd & Hi) & Hmsg & _ & _ & Hses & _ & _ & Hrun).
  rewrite Hun, Hdef in Hses.
  assert (Hu : is_turn u sid "user" message) by (repeat split; auto).
  split; [ | rewrite Hrun;
             destruct (sendMessage env _ message) as [ | r ];
             cbv zeta; cbn [fst snd]; repeat split ].
  - intros w0. rewrite generateSessionTitle_run, Hdef. eexists. split;
      reflexivity.
  - now apply (title_of_set_title w w6 sid s).
  - exists u, []. split; [ exact Hu | exact Hmsg ].
  - apply (title_of_set_title w _ sid s); [ exact Hs | exact Hses ].
  - eexists u, [_]. split; [ exact Hu | ]. cbn [db messages].
    rewrite Hmsg, <- app_assoc. reflexivity.
  - eexists. split; [ reflexivity | ]. repeat split.
Qed.

Lemma failed_titling_falls_back_to_default_witness :
  (forall w0, exists w1,
     generateSessionTitle (demo_env Raises (Returns (Some "Hello Bob")))
       "hi there" w0 = (Ok "New Chat", w1) /\
     db w1 = db w0) /\
  title_of (snd (processChat (demo_env Raises (Returns (Some "Hello Bob")))
                   2 "hi there" demo_world)) 2
  = Some (Some "New Chat") /\
  (exists u rest,
     is_turn u 2 "user" "hi there" /\
     messages (db (snd (processChat
                          (demo_env Raises (Returns (Some "Hello Bob")))
                          2 "hi there" demo_world)))
     = messages (db demo_world) ++ u :: rest) /\
  match sendMessage (demo_env Raises (Returns (Some "Hello Bob")))
          (map to_content (history (db demo_world) 2)) "hi there" with
  | Raises =>
      fst (processChat (demo_env Raises (Returns (Some "Hello Bob")))
             2 "hi there" demo_world) = Throw OracleError
  | Returns r =>
      exists b,
        fst (processChat (demo_env Raises (Returns (Some "Hello Bob")))
               2 "hi there" demo_world) = Ok b /\
        is_turn b 2 "bot" (or_else r "No response text")
  end.
Proof.
  apply (failed_titling_falls_back_to_default
           (demo_env Raises (Returns (Some "Hello Bob"))) 2 "hi there"
           demo_world).
  - intros n. reflexivity.
  - split; cbn; repeat constructor; cbn; try discriminate; lia.
  - reflexivity.
  - left. reflexivity.
Defined.

(** ** What a turn may do to the session table, on every path *)

Section SessionsOnly.
Variable P : World -> Prop.
Hypothesis P_sessions :
  forall w1 w2,
    chatSessions (db w1) = chatSessions (db w2) -> P w1 -> P w2.

Lemma sessions_only_oracle env ev res :
  hoare P (oracle env ev res) (fun _ => P) (fun _ => P).
Proof.
  apply hoare_oracle; intros w; intros;
    (apply (P_sessions w); [ reflexivity | assumption ]).
Qed.

Lemma sessions_only_message_create env c s sid :
  hoare P (message_create env c s sid) (fun _ => P) (fun _ => P).
Proof.
  apply hoare_prisma; intros w Hw;
    [ | destruct (existsb _ _) ];
    (apply (P_sessions w); [ reflexivity | assumption ]).
Qed.

Lemma sessions_only_message_findMany env sid :
  hoare P (message_findMany env sid) (fun _ => P) (fun _ => P).
Proof.
  apply hoare_prisma; intros w Hw;
    (apply (P_sessions w); [ reflexivity | assumption ]).
Qed.

Lemma sessions_only_reply_phase env sid message :
  hoare P (reply_phase env sid message) (fun _ => P) (fun _ => P).
Proof.
  eapply hoare_bind; [ apply sessions_only_message_create | ].
  intros u. eapply hoare_bind; [ apply sessions_only_message_findMany | ].
  intros hist. eapply hoare_bind; [ apply sessions_only_oracle | ].
  intros r. eapply hoare_bind; [ apply sessions_only_message_create | ].
  intros b. apply hoare_ret. auto.
Qed.
End SessionsOnly.

(** Whatever the store and the model do, a turn leaves the session table
    as it was, or it has given a title, which is not empty, to the session
    of the turn, which had none. *)
Lemma processChat_sessions env sid message w :
  let w' := snd (processChat env sid message w) in
  chatSessions (db w') = chatSessions (db w) \/
  exists s t,
    session_row w sid = Some s /\ untitled s = true /\ t <> "" /\
    chatSessions (db w') = map (set_title sid t) (chatSessions (db w)).
Proof.
  set (P0 := fun w1 : World => chatSessions (db w1) = chatSessions (db w)).
  set (T := fun w1 : World =>
              chatSessions (db w1) = chatSessions (db w) \/
              exists s t,
                session_row w sid = Some s /\ untitled s = true /\
                t <> "" /\
                chatSessions (db w1)
                = map (set_title sid t) (chatSessions (db w))).
  assert (HT : forall w1 w2,
             chatSessions (db w1) = chatSessions (db w2) -> T w1 -> T w2).
  { unfold T. intros w1 w2 E. rewrite E. auto. }
  assert (H0T : forall w1, P0 w1 -> T w1) by (intros w1 H; left; exact H).
  assert (H : hoare P0 (processChat env sid message) (fun _ => T)
                (fun _ => T)).
  { rewrite processChat_phases.
    eapply hoare_bind with
      (R := fun session w1 => P0 w1 /\ session = session_row w sid).
    - apply hoare_prisma; intros w1 H1.
      + apply H0T. exact H1.
      + split; [ exact H1 | ]. unfold session_row. now rewrite <- H1.
    - intros session. eapply hoare_bind with (R := fun _ => T).
      + destruct session as [ s | ];
          [ | apply hoare_ret; intros w1 [H1 _]; auto ].
        destruct (untitled s) eqn:Hun;
          [ | apply hoare_ret; intros w1 [H1 _]; auto ].
        eapply hoare_bind with
          (R := fun t w1 => (P0 w1 /\ Some s = session_row w sid)
                            /\ t <> "").
        * eapply hoare_weaken;
            [ apply (generateSessionTitle_spec env message
                       (fun w1 => P0 w1 /\ Some s = session_row w sid))
            | | | ]; cbn; auto; easy.
        * intros t. apply hoare_prisma; intros w1 [[H1 Hs] Ht].
          -- apply H0T. exact H1.
          -- destruct (existsb _ _); [ | apply H0T; exact H1 ].
             right. exists s, t. cbn. rewrite H1. auto.
      + intros u. apply sessions_only_reply_phase. exact HT. }
  specialize (H w eq_refl).
  destruct (processChat env sid message w) as [[b | e] w']; exact H.
Qed.

(** A session that has a (non-empty) title keeps it through a turn. *)
Lemma processChat_keeps_title env sid message w sid0 t :
  t <> "" ->
  title_of w sid0 = Some (Some t) ->
  title_of (snd (processChat env sid message w)) sid0 = Some (Some t).
Proof.
  intros Hne Ht.
  destruct (processChat_sessions env sid message w)
    as [ E | (s & t' & Hs & Hun & _ & E) ].
  - unfold title_of, session_row in *. now rewrite E.
  - destruct (Z.eq_dec sid0 sid) as [ -> | Hd ].
    + exfalso. unfold title_of in Ht. rewrite Hs in Ht. cbn in Ht.
      unfold untitled in Hun. injection Ht as Ht. rewrite Ht in Hun.
      cbn in Hun. destruct (String.eqb_spec t ""); [ contradiction | easy ].
    + rewrite (title_of_other_set_title w _ sid sid0 t' Hd E). exact Ht.
Qed.

Lemma wf_title_nonempty (w : World) (sid : Z) (t : string) :
  wf w -> title_of w sid = Some (Some t) -> t <> "".
Proof.
  intros Hwf Ht. unfold title_of, session_row in Ht.
  destruct (find (has_id sid) (chatSessions (db w))) as [ s | ] eqn:E;
    [ | easy ].
  apply find_some in E. destruct E as [Hin _].
  pose proof (wf_titles _ Hwf) as Hall. rewrite Forall_forall in Hall.
  specialize (Hall s Hin). cbn in Ht. injection Ht as Ht.
  intros ->. congruence.
Qed.

Lemma wf_untitled (w : World) (sid : Z) (s : ChatSession.t) :
  wf w -> session_row w sid = Some s -> untitled s = true ->
  title_of w sid = Some None.
Proof.
  intros Hwf Hs Hun. unfold title_of. rewrite Hs. cbn.
  apply find_some in Hs. destruct Hs as [Hin _].
  pose proof (wf_titles _ Hwf) as Hall. rewrite Forall_forall in Hall.
  specialize (Hall s Hin). unfold untitled, truthy_string in Hun.
  destruct (ChatSession.title s) as [ t | ]; [ | reflexivity ].
  destruct (String.eqb_spec t ""); [ congruence | discriminate ].
Qed.

Lemma process_turns_keep_title calls : forall w sid0 t,
  t <> "" ->
  title_of w sid0 = Some (Some t) ->
  title_of (process_turns calls w) sid0 = Some (Some t).
Proof.
  induction calls as [ | [[env sid] message] calls IH ];
    intros w sid0 t Hne Ht; cbn [process_turns]; [ exact Ht | ].
  apply IH; [ exact Hne | ]. now apply processChat_keeps_title.
Qed.

(** ** C2 *)

(** A turn on a session without a title gives it one as soon as the store
    answers the lookup of the session and the update of the title,
    whatever happens afterwards. *)
Lemma processChat_sets_title env sid message s w :
  session_row w sid = Some s -> untitled s = true ->
  storeFault env (List.length (log w)) = false ->
  storeFault env (S (S (List.length (log w)))) = false ->
  chatSessions (db (snd (processChat env sid message w)))
  = map (set_title sid (chosen_title env message)) (chatSessions (db w)).
Proof.
  intros Hs Hun Hf0 Hf2.
  rewrite processChat_phases. unfold bind at 1.
  unfold chatSession_findUnique, prisma. rewrite Hf0.
  pose proof Hs as Hs'. unfold session_row in Hs'. rewrite Hs', Hun.
  unfold bind at 1. unfold bind at 1. rewrite generateSessionTitle_run.
  unfold chatSession_update, prisma. cbn [db now log].
  rewrite !length_app. cbn [List.length]. rewrite !Nat.add_1_r, Hf2.
  rewrite (session_row_exists _ _ _ Hs).
  set (w3 := mkWorld _ _ _).
  pose proof (sessions_only_reply_phase
                (fun w1 => chatSessions (db w1)
                           = map (set_title sid (chosen_title env message))
                                 (chatSessions (db w)))) as H.
  specialize (H ltac:(intros w1 w2 E H1; cbn in *; congruence)
                env sid message w3 eq_refl).
  destruct (reply_phase env sid message w3) as [[b | e] w']; exact H.
Qed.

(** C2: a turn gives the session a title, which is not empty, if the
    session has none (the store answering the lookup and the update); a
    turn changes the title of a session only if that session is the one of
    the turn and had no title; and a session that has a title keeps it
    through every later sequence of turns, whatever the store and the model
    do in them. *)
Theorem title_is_assigned_at_most_once
    (env : Env) (sid : Z) (message : string) (w : World) :
  wf w ->
  (title_of w sid = Some None ->
   storeFault env (List.length (log w)) = false ->
   storeFault env (S (S (List.length (log w)))) = false ->
   exists t, t <> "" /\
     title_of (snd (processChat env sid message w)) sid = Some (Some t))
  /\
  (forall sid0,
     title_of (snd (processChat env sid message w)) sid0 <> title_of w sid0 ->
     sid0 = sid /\ title_of w sid0 = Some None)
  /\
  (forall sid0 t,
     title_of w sid0 = Some (Some t) ->
     forall calls, title_of (process_turns calls w) sid0 = Some (Some t)).
Proof.
  intros Hwf. split; [ | split ].
  - intros Ht Hf0 Hf2.
    destruct (title_of_untitled _ _ Ht) as (s & Hs & Hun).
    exists (chosen_title env message).
    split; [ apply chosen_title_nonempty | ].
    apply (title_of_set_title w _ sid s _ Hs).
    now apply (processChat_sets_title env sid message s).
  - intros sid0 Hd.
    destruct (processChat_sessions env sid message w)
      as [ E | (s & t & Hs & Hun & _ & E) ].
    + exfalso. apply Hd. unfold title_of, session_row. now rewrite E.
    + destruct (Z.eq_dec sid0 sid) as [ -> | Hne ].
      * split; [ reflexivity | ]. now apply (wf_untitled w sid s).
      * exfalso. apply Hd.
        now apply (title_of_other_set_title w _ sid sid0 t).
  - intros sid0 t Ht calls.
    apply process_turns_keep_title; [ | exact Ht ].
    now apply (wf_title_nonempty w sid0).
Qed.

Lemma title_is_assigned_at_most_once_witness :
  (exists t, t <> "" /\
     title_of (snd (processChat
                      (failing_env (Returns (Some "Hello Bob")) Raises 3)
                      2 "hi there" demo_world)) 2 = Some (Some t))
  /\
  (forall calls,
     title_of (process_turns calls demo_world) 1 = Some (Some "Greetings")).
Proof.
  destruct (title_is_assigned_at_most_once
              (failing_env (Returns (Some "Hello Bob")) Raises 3)
              2 "hi there" demo_world) as (Hset & _ & Hkeep).
  - split; cbn; repeat constructor; cbn; try discriminate; lia.
  - split.
    + apply Hset; reflexivity.
    + apply Hkeep. reflexivity.
Defined.

(** ** C7 *)

(** The handler of GET /api/chat/:sessionId on a session the caller owns,
    when the store answers: the history of the session, and no change to
    the tables. *)
Lemma chat_history_run env apiKey req w :
  store_ok env ->
  owns w (ApiKey.id apiKey) (params_sessionId req) ->
  exists w',
    chat_history env apiKey req w
    = (Ok (res_json (JMessages (history (db w) (params_sessionId req)))),
       w') /\
    db w' = db w /\
    log w' = log w ++ [Prisma (ChatSessionFindFirst (params_sessionId req)
                                 (ApiKey.id apiKey));
                       Prisma (MessageFindMany (params_sessionId req))].
Proof.
  intros Hok Ho. destruct (findFirst_owned _ _ _ Ho) as (s & Hfind & _).
  eexists. split; [ | split ].
  - unfold chat_history, try_catch, bind at 1.
    unfold chatSession_findFirst, prisma. rewrite Hok, Hfind.
    unfold bind, message_findMany, prisma, ret. rewrite Hok.
    cbn [db]. reflexivity.
  - reflexivity.
  - cbn [log]. now rewrite <- app_assoc.
Qed.

(** Two appends to a session without messages, read back. *)
Lemma append_twice_then_read env sid c1 c2 w :
  store_ok env ->
  existsb (has_id sid) (chatSessions (db w)) = true ->
  filter (in_session sid) (messages (db w)) = [] ->
  exists u b w',
    (bind (message_create env c1 "user" sid) (fun _ =>
     bind (message_create env c2 "bot" sid) (fun _ =>
     message_findMany env sid))) w = (Ok [u; b], w') /\
    is_turn u sid "user" c1 /\ is_turn b sid "bot" c2 /\
    messages (db w') = messages (db w) ++ [u; b].
Proof.
  intros Hok Hex Hfresh.
  set (u := new_message (clock env w) (db w) c1 "user" sid).
  set (w1 := mkWorld (with_message (db w) u) (clock env w)
               (log w ++ [Prisma (MessageCreate c1 "user" sid)])).
  set (b := new_message (clock env w1) (db w1) c2 "bot" sid).
  exists u, b. eexists. split; [ | repeat split ].
  - unfold bind at 1. unfold message_create at 1, prisma.
    rewrite Hok, Hex. fold u. fold w1.
    unfold bind at 1. unfold message_create at 1, prisma.
    rewrite Hok. replace (existsb (has_id sid) (chatSessions (db w1)))
      with true by (symmetry; exact Hex).
    fold b. unfold message_findMany, prisma. rewrite Hok.
    cbn [db now log].
    assert (Hl : history (with_message (db w1) b) sid = [u; b]).
    { unfold history. change (messages (with_message (db w1) b))
        with ((messages (db w) ++ [u]) ++ [b]).
      rewrite !filter_app, Hfresh. cbn [filter app].
      replace (in_session sid u) with true by (symmetry; apply Z.eqb_refl).
      replace (in_session sid b) with true by (symmetry; apply Z.eqb_refl).
      cbn [app orderBy insert_row].
      replace (createdAt_asc u b) with true; [ reflexivity | ].
      symmetry. unfold createdAt_asc. apply Z.leb_le.
      pose proof (clock_ge env w1). subst u b w1. cbn in *. lia. }
    rewrite Hl. reflexivity.
  - change (messages (db w) ++ [u; b])
      with (messages (db w) ++ [u] ++ [b]).
    rewrite app_assoc. reflexivity.
Qed.

(** C7: the history of a session is made of exactly the turns of that
    session and is in non-decreasing order of creation; the handler of
    GET /api/chat/:sessionId returns it without changing the tables, so
    that a second read with no append in between returns the same
    sequence; and appending a user turn and then a bot turn to a session
    without messages and reading the history yields those two turns, in
    that order. *)
Theorem history_is_ascending_and_repeatable
    (env env' : Env) (apiKey : ApiKey.t) (req : Request) (w : World)
    (fresh : Z) (c1 c2 : string) :
  store_ok env -> store_ok env' ->
  owns w (ApiKey.id apiKey) (params_sessionId req) ->
  existsb (has_id fresh) (chatSessions (db w)) = true ->
  filter (in_session fresh) (messages (db w)) = [] ->
  (forall d sid,
     Permutation (history d sid) (filter (in_session sid) (messages d)) /\
     Sorted (fun a b => Message.createdAt a <= Message.createdAt b)
            (history d sid)) /\
  (exists w1 w2,
     chat_history env apiKey req w
     = (Ok (res_json (JMessages (history (db w) (params_sessionId req)))),
        w1) /\
     chat_history env' apiKey req w1
     = (Ok (res_json (JMessages (history (db w) (params_sessionId req)))),
        w2) /\
     db w1 = db w /\ db w2 = db w) /\
  (exists u b w',
     (bind (message_create env c1 "user" fresh) (fun _ =>
      bind (message_create env c2 "bot" fresh) (fun _ =>
      message_findMany env fresh))) w = (Ok [u; b], w') /\
     is_turn u fresh "user" c1 /\ is_turn b fresh "bot" c2 /\
     messages (db w') = messages (db w) ++ [u; b]).
Proof.
  intros Hok Hok' Ho Hex Hfresh. split; [ | split ].
  - intros d sid. split; [ apply history_perm | apply history_sorted ].
  - destruct (chat_history_run env apiKey req w Hok Ho)
      as (w1 & Hr1 & Hd1 & _).
    assert (Ho1 : owns w1 (ApiKey.id apiKey) (params_sessionId req)).
    { unfold owns. now rewrite Hd1. }
    destruct (chat_history_run env' apiKey req w1 Hok' Ho1)
      as (w2 & Hr2 & Hd2 & _).
    exists w1, w2. rewrite Hd1 in Hr2.
    repeat split; auto. congruence.
  - now apply append_twice_then_read.
Qed.

Lemma history_is_ascending_and_repeatable_witness :
  (forall d sid,
     Permutation (history d sid) (filter (in_session sid) (messages d)) /\
     Sorted (fun a b => Message.createdAt a <= Message.createdAt b)
            (history d sid)) /\
  (exists w1 w2,
     chat_history (demo_env Raises Raises) alice
       (mkRequest (HString "key-alice") None None 1) demo_world
     = (Ok (res_json (JMessages (history (db demo_world) 1))), w1) /\
     chat_history (demo_env Raises Raises) alice
       (mkRequest (HString "key-alice") None None 1) w1
     = (Ok (res_json (JMessages (history (db demo_world) 1))), w2) /\
     db w1 = db demo_world /\ db w2 = db demo_world) /\
  (exists u b w',
     (bind (message_create (demo_env Raises Raises) "ping" "user" 2)
        (fun _ =>
      bind (message_create (demo_env Raises Raises) "pong" "bot" 2)
        (fun _ =>
      message_findMany (demo_env Raises Raises) 2))) demo_world
     = (Ok [u; b], w') /\
     is_turn u 2 "user" "ping" /\ is_turn b 2 "bot" "pong" /\
     messages (db w') = messages (db demo_world) ++ [u; b]).
Proof.
  apply (history_is_ascending_and_repeatable
           (demo_env Raises Raises) (demo_env Raises Raises) alice
           (mkRequest (HString "key-alice") None None 1) demo_world
           2 "ping" "pong").
  - intros n. reflexivity.
  - intros n. reflexivity.
  - exists (ChatSession.mk 1 (Some "Greetings") 3 1). cbn. auto.
  - reflexivity.
  - reflexivity.
Defined.

(** ** What has been persisted when a turn throws the model's error *)

Lemma hoare_pure {A} (phi : Prop) (P : World -> Prop) (m : M A) Q E :
  (phi -> hoare P m Q E) -> hoare (fun w => P w /\ phi) m Q E.
Proof. intros H w [Hw Hphi]. now apply H. Qed.

Lemma hoare_generateSessionTitle env message (P P' : World -> Prop) E :
  (forall w l, P w -> P' (mkWorld (db w) (clock env w) l)) ->
  hoare P (generateSessionTitle env message)
        (fun t w => P' w /\ t = chosen_title env message) E.
Proof.
  intros HP w Hw. rewrite generateSessionTitle_run. split; auto.
Qed.

(** The only way for a turn to throw the model's error is the reply call:
    by then the title has been assigned if the session had none, and the
    user turn has been appended; nothing else has changed. *)
Lemma processChat_model_error env sid message s w :
  session_row w sid = Some s ->
  hoare (eq w) (processChat env sid message) (fun _ _ => True)
    (fun e w2 =>
       e = OracleError ->
       chatSessions (db w2)
       = (if untitled s
          then map (set_title sid (chosen_title env message))
                   (chatSessions (db w))
          else chatSessions (db w)) /\
       exists u, is_turn u sid "user" message /\
                 messages (db w2) = messages (db w) ++ [u]).
Proof.
  intros Hs.
  set (S' := if untitled s
             then map (set_title sid (chosen_title env message))
                      (chatSessions (db w))
             else chatSessions (db w)).
  set (R2 := fun w3 : World =>
               chatSessions (db w3) = S' /\ messages (db w3) = messages (db w)).
  set (R3 := fun w4 : World =>
               chatSessions (db w4) = S' /\
               exists u, is_turn u sid "user" message /\
                         messages (db w4) = messages (db w) ++ [u]).
  rewrite processChat_phases.
  eapply hoare_bind with
    (R := fun session w1 => db w1 = db w /\ session = Some s).
  { apply hoare_prisma; intros w1 <-; [ discriminate | ].
    split; [ reflexivity | exact Hs ]. }
  intros session. apply hoare_pure. intros ->.
  eapply hoare_bind with (R := fun _ => R2).
  { cbv beta iota. subst S' R2. destruct (untitled s).
    - eapply hoare_bind;
        [ apply hoare_generateSessionTitle
            with (P' := fun w2 => db w2 = db w); auto | ].
      intros t. apply hoare_prisma; intros w2 [Hdb ->];
        [ discriminate | ].
      rewrite Hdb. destruct (existsb _ _); [ | discriminate ].
      split; reflexivity.
    - apply hoare_ret. intros w1 ->. split; reflexivity. }
  intros _.
  eapply hoare_bind with (R := fun _ => R3).
  { apply hoare_prisma; intros w3 [Hses Hmsg]; [ discriminate | ].
    destruct (existsb _ _); [ | discriminate ].
    split; [ exact Hses | ]. eexists. split; [ | cbn; now rewrite Hmsg ].
    repeat split. }
  intros _.
  eapply hoare_bind with (R := fun _ => R3).
  { apply hoare_prisma; intros w4 H4; [ discriminate | exact H4 ]. }
  intros hist.
  eapply hoare_bind with (R := fun _ _ => True).
  { apply hoare_oracle; intros w5 **; [ assumption | exact I ]. }
  intros r.
  eapply hoare_bind with (R := fun _ _ => True).
  { apply hoare_prisma; intros w6 _; [ discriminate | ].
    destruct (existsb _ _); [ exact I | discriminate ]. }
  intros b. apply hoare_ret. auto.
Qed.

(** ** C9 *)

Lemma find_snoc {A} (f : A -> bool) (l : list A) (x : A) :
  find f (l ++ [x])
  = match find f l with
    | Some y => Some y
    | None => if f x then Some x else None
    end.
Proof.
  induction l as [ | a l IH ]; cbn; [ reflexivity | ].
  destruct (f a); [ reflexivity | exact IH ].
Qed.

Lemma session_row_fresh (w : World) :
  wf w -> session_row w (nextSessionId (db w)) = None.
Proof.
  intros Hwf. unfold session_row. apply find_none_iff. intros s Hs.
  pose proof (wf_session_ids _ Hwf) as Hall. rewrite Forall_forall in Hall.
  specialize (Hall s Hs). unfold has_id. lia.
Qed.

Lemma session_row_started env aid w :
  wf w ->
  session_row (started env aid w) (nextSessionId (db w))
  = Some (new_session (clock env w) (db w) aid).
Proof.
  intros Hwf. unfold session_row. cbn [db chatSessions].
  rewrite find_snoc. pose proof (session_row_fresh w Hwf) as Hn.
  unfold session_row in Hn. rewrite Hn.
  unfold has_id, new_session. cbn. now rewrite Z.eqb_refl.
Qed.

(** The handler of POST /api/chat/start once the session row has been
    created. *)
Lemma chat_start_run env apiKey req message w :
  truthy_string (body_message req) = Some message ->
  storeFault env (List.length (log w)) = false ->
  In apiKey (apiKeys (db w)) ->
  chat_start env apiKey req w
  = match processChat env (nextSessionId (db w)) message
            (started env (ApiKey.id apiKey) w) with
    | (Ok b, w2) =>
        match chatSession_findUnique env (nextSessionId (db w)) w2 with
        | (Ok s, w3) => (Ok (res_json (JStarted s b)), w3)
        | (Throw _, w3) =>
            (Ok (res_error 500 "Failed to create session"), w3)
        end
    | (Throw _, w2) => (Ok (res_error 500 "Failed to create session"), w2)
    end.
Proof.
  intros Hm Hf Hin. unfold chat_start. rewrite Hm.
  unfold try_catch, bind at 1. unfold chatSession_create, prisma.
  rewrite Hf.
  replace (existsb (fun k => ApiKey.id k =? ApiKey.id apiKey)
             (apiKeys (db w))) with true.
  2:{ symmetry. apply existsb_exists. exists apiKey.
      split; [ exact Hin | apply Z.eqb_refl ]. }
  cbn [ChatSession.id new_session]. unfold bind at 1.
  destruct (processChat _ _ _ _) as [[b | e] w2]; [ | reflexivity ].
  unfold bind, ret.
  destruct (chatSession_findUnique _ _ _) as [[s | e] w3]; reflexivity.
Qed.

(** C9: the handler of POST /api/chat/start creates the session row before
    it processes the turn.  If the creation has succeeded and the turn then
    throws, the handler answers with the fixed 500 response, which
    discloses no session id, and the new session row, owned by the caller,
    is still in the store; if what the turn threw is the model's error (the
    reply call raised), the session moreover has its title and the user
    turn is the one message appended. *)
Theorem failed_start_leaves_session_behind
    (env : Env) (apiKey : ApiKey.t) (req : Request) (message : string)
    (w w2 : World) (e : Error) :
  wf w -> In apiKey (apiKeys (db w)) ->
  body_message req = Some message -> message <> "" ->
  storeFault env (List.length (log w)) = false ->
  processChat env (nextSessionId (db w)) message
    (started env (ApiKey.id apiKey) w) = (Throw e, w2) ->
  chat_start env apiKey req w
  = (Ok (res_error 500 "Failed to create session"), w2) /\
  session_ids_in (json (res_error 500 "Failed to create session")) = [] /\
  session_row w (nextSessionId (db w)) = None /\
  (exists s, session_row w2 (nextSessionId (db w)) = Some s /\
             ChatSession.apiKeyId s = ApiKey.id apiKey) /\
  (e = OracleError ->
   (exists t, t <> "" /\
      title_of w2 (nextSessionId (db w)) = Some (Some t)) /\
   (exists u, is_turn u (nextSessionId (db w)) "user" message /\
              messages (db w2) = messages (db w) ++ [u])).
Proof.
  intros Hwf Hin Hb Hne Hf Hrun.
  pose proof (session_row_started env (ApiKey.id apiKey) w Hwf) as Hs1.
  split; [ | split; [ reflexivity | split; [ now apply session_row_fresh | ] ] ].
  - rewrite (chat_start_run env apiKey req message w);
      auto using truthy_string_some.
    now rewrite Hrun.
  - split.
    + pose proof (processChat_sessions env (nextSessionId (db w)) message
                    (started env (ApiKey.id apiKey) w)) as H.
      rewrite Hrun in H. cbn [snd] in H.
      destruct H as [ E | (s & t & _ & _ & _ & E) ];
        unfold session_row in *; rewrite E.
      * eexists. split; [ exact Hs1 | reflexivity ].
      * rewrite find_set_title, Hs1. cbn [option_map].
        eexists. split; [ reflexivity | ].
        unfold set_title. destruct (has_id _ _); reflexivity.
    + intros ->.
      pose proof (processChat_model_error env (nextSessionId (db w))
                    message _ _ Hs1 _ eq_refl) as H.
      rewrite Hrun in H. destruct (H eq_refl) as [Hses Hmsg].
      split; [ | exact Hmsg ].
      exists (chosen_title env message).
      split; [ apply chosen_title_nonempty | ].
      apply (title_of_set_title _ w2 _ _ _ Hs1). exact Hses.
Qed.

Lemma failed_start_leaves_session_behind_witness :
  chat_start (demo_env (Returns (Some "Small talk")) Raises) alice
    (mkRequest (HString "key-alice") None (Some "hello") 0) demo_world
  = (Ok (res_error 500 "Failed to create session"),
     snd (processChat (demo_env (Returns (Some "Small talk")) Raises)
            3 "hello"
            (started (demo_env (Returns (Some "Small talk")) Raises)
                     1 demo_world))) /\
  title_of (snd (chat_start
                   (demo_env (Returns (Some "Small talk")) Raises) alice
                   (mkRequest (HString "key-alice") None (Some "hello") 0)
                   demo_world)) 3
  = Some (Some "Small talk").
Proof.
  destruct (failed_start_leaves_session_behind
              (demo_env (Returns (Some "Small talk")) Raises) alice
              (mkRequest (HString "key-alice") None (Some "hello") 0)
              "hello" demo_world
              (snd (processChat
                      (demo_env (Returns (Some "Small talk")) Raises)
                      3 "hello"
                      (started
                         (demo_env (Returns (Some "Small talk")) Raises)
                         1 demo_world)))
              OracleError) as (H1 & _).
  - split; cbn; repeat constructor; cbn; try discriminate; lia.
  - left. reflexivity.
  - reflexivity.
  - discriminate.
  - reflexivity.
  - reflexivity.
  - split; [ exact H1 | reflexivity ].
Defined.


(** * Further properties of the handlers *)

(** ** Authentication *)

Lemma find_has_key_unique (l : list ApiKey.t) (k : ApiKey.t) :
  NoDup (map ApiKey.key l) -> In k l ->
  find (has_key (ApiKey.key k)) l = Some k.
Proof.
  induction l as [ | a l IH ]; cbn; [ easy | ].
  intros Hnd [ -> | Hin ].
  - unfold has_key. now rewrite String.eqb_refl.
  - inversion Hnd as [ | x l' Hnot Hnd' ]; subst.
    unfold has_key at 1. destruct (String.eqb_spec (ApiKey.key a) (ApiKey.key k))
      as [ E | _ ]; [ | now apply IH ].
    exfalso. apply Hnot. rewrite E. now apply in_map.
Qed.

(** X1: The middleware calls [next()] with the record [k] exactly when the
    header is the non-empty key of [k] and [k] is an active tenant of the
    store (keys being unique and the store answering the lookup). *)
Theorem middleware_accepts_exactly_active_keys
    (env : Env) (req : Request) (w : World) (k : ApiKey.t) :
  unique_keys w ->
  storeFault env (List.length (log w)) = false ->
  (exists w1, authenticateApiKey env req w = (Ok (inr k), w1))
  <-> presents_key_of w req k.
Proof.
  intros Huniq Hf. split.
  - intros [w1 H].
    destruct (authenticateApiKey_next _ _ _ _ _ H)
      as (h & Hh & Hne & Hfind & Hact & _ & _).
    apply find_some in Hfind. destruct Hfind as [Hin Hk].
    unfold has_key in Hk. apply String.eqb_eq in Hk. subst h.
    repeat split; assumption.
  - intros (Hin & Hact & Hne & Hh). eexists.
    unfold authenticateApiKey. rewrite Hh.
    destruct (String.eqb_spec (ApiKey.key k) ""); [ contradiction | ].
    unfold bind, apiKey_findUnique, prisma. rewrite Hf.
    rewrite (find_has_key_unique _ _ Huniq Hin), Hact. reflexivity.
Qed.

Lemma middleware_accepts_exactly_active_keys_witness :
  (exists w1,
     authenticateApiKey (demo_env Raises Raises)
       (mkRequest (HString "key-bob") None None 0) demo_world
     = (Ok (inr bob), w1))
  <-> presents_key_of demo_world
        (mkRequest (HString "key-bob") None None 0) bob.
Proof.
  apply (middleware_accepts_exactly_active_keys (demo_env Raises Raises)
           (mkRequest (HString "key-bob") None None 0) demo_world bob).
  - unfold unique_keys. cbn. repeat constructor; cbn; intuition discriminate.
  - reflexivity.
Defined.

(** X2: A request that does not present the key of an active tenant is
    answered 401 whatever handler is mounted behind the middleware, and the
    tables are unchanged (the store answering the lookup, if one is
    made). *)
Theorem request_without_active_key_reaches_no_handler
    (env : Env) (req : Request) (w : World) :
  storeFault env (List.length (log w)) = false ->
  (forall k, ~ presents_key_of w req k) ->
  forall handler, exists r w',
    authenticated env handler req w = (Ok r, w') /\
    status r = 401 /\ db w' = db w.
Proof.
  intros Hf Hnone handler. unfold authenticated, authenticateApiKey, bind.
  destruct (x_api_key req) as [ | h | l ] eqn:Hh;
    try (do 2 eexists; repeat split; reflexivity).
  destruct (String.eqb_spec h "") as [ | Hne ];
    [ do 2 eexists; repeat split; reflexivity | ].
  unfold apiKey_findUnique, prisma. rewrite Hf.
  destruct (find (has_key h) (apiKeys (db w))) as [ k | ] eqn:Hfind;
    [ | do 2 eexists; repeat split; reflexivity ].
  destruct (ApiKey.active k) eqn:Hact;
    [ | do 2 eexists; repeat split; reflexivity ].
  exfalso. apply (Hnone k).
  apply find_some in Hfind. destruct Hfind as [Hin Hk].
  unfold has_key in Hk. apply String.eqb_eq in Hk. subst h.
  repeat split; assumption.
Qed.

Lemma request_without_active_key_reaches_no_handler_witness :
  exists r w',
    authenticated (demo_env Raises Raises)
      (chat_message (demo_env Raises Raises))
      (mkRequest (HString "key-carol") (Some 1) (Some "hi") 1)
      demo_world_carol = (Ok r, w') /\
    status r = 401 /\ db w' = db demo_world_carol.
Proof.
  apply (request_without_active_key_reaches_no_handler
           (demo_env Raises Raises)
           (mkRequest (HString "key-carol") (Some 1) (Some "hi") 1)
           demo_world_carol).
  - reflexivity.
  - intros k (Hin & Hact & _ & Hh). cbn in Hin, Hh.
    destruct Hin as [ <- | [ <- | [ <- | [] ] ] ]; discriminate.
Defined.

Lemma try_catch_ret_total {A} (m : M A) (x : A) (w : World) :
  exists r w', try_catch m (fun _ => ret x) w = (Ok r, w').
Proof.
  unfold try_catch, ret. destruct (m w) as [[a | e] w1]; eauto.
Qed.

Lemma handler_total env e k req w :
  exists r w', handler_of env e k req w = (Ok r, w').
Proof.
  destruct e; cbn [handler_of].
  - unfold chat_start. destruct (truthy_string _);
      [ apply try_catch_ret_total | unfold ret; eauto ].
  - unfold chat_message.
    destruct (truthy_number _); [ | unfold ret; eauto ].
    destruct (truthy_string _); [ apply try_catch_ret_total | unfold ret; eauto ].
  - apply try_catch_ret_total.
  - apply try_catch_ret_total.
Qed.

(** How a request to an authenticated endpoint ends, as far as the code of
    the route goes: the lookup of a non-empty key is rejected by the store
    and the rejection leaves the middleware, or a response is sent. *)
Lemma serve_outcome env e req w :
  (exists h, x_api_key req = HString h /\ h <> "" /\
             storeFault env (List.length (log w)) = true /\
             exists w', serve env e req w
                        = (Throw (PrismaError Unavailable), w') /\
                        db w' = db w)
  \/ ((forall h, x_api_key req = HString h -> h <> "" ->
                 storeFault env (List.length (log w)) = false) /\
      exists r w', serve env e req w = (Ok r, w')).
Proof.
  unfold serve, authenticated, authenticateApiKey, bind.
  destruct (x_api_key req) as [ | h | l ];
    try (right; split; [ intros; discriminate | unfold ret; eauto ]).
  destruct (String.eqb_spec h "") as [ -> | Hne ];
    [ right; split; [ intros h' E; injection E as <-; easy
                    | unfold ret; eauto ] | ].
  unfold apiKey_findUnique, prisma.
  destruct (storeFault env (List.length (log w))) eqn:Hf.
  - left. exists h. repeat split; auto. eexists. split; reflexivity.
  - right. split; [ intros; reflexivity | ].
    destruct (find _ _) as [ k | ]; [ | unfold ret; eauto ].
    destruct (ApiKey.active k); [ | unfold ret; eauto ].
    apply handler_total.
Qed.

(** X3: No error of the store or of the model leaves a route handler:
    everything a handler awaits is inside its [try]/[catch], so a handler
    whose awaited calls settle ends by sending a response.  The middleware
    has no [try]/[catch]: an error leaves the code of a route, to be dealt
    with by the framework, exactly when the store rejects the lookup of a
    non-empty key; that error is the store's and the tables are then
    unchanged. *)
Theorem only_the_key_lookup_can_throw
    (env : Env) (e : Endpoint) (req : Request) (w : World) :
  (forall k w0, exists r w', handler_of env e k req w0 = (Ok r, w')) /\
  ((exists err w', serve env e req w = (Throw err, w')) <->
   (exists h, x_api_key req = HString h /\ h <> "" /\
              storeFault env (List.length (log w)) = true)) /\
  (forall err w',
     serve env e req w = (Throw err, w') ->
     err = PrismaError Unavailable /\ db w' = db w).
Proof.
  split; [ intros k w0; apply handler_total | ].
  pose proof (serve_outcome env e req w) as Hcases.
  split; [ split | ].
  - intros (err & w' & H).
    destruct Hcases as [ (h & Hh & Hne & Hf & _) | (_ & r & w2 & H2) ];
      [ eauto | congruence ].
  - intros (h & Hh & Hne & Hf).
    destruct Hcases as [ (_ & _ & _ & _ & w' & H & _) | (Hno & _) ];
      [ eauto | ].
    specialize (Hno h Hh Hne). congruence.
  - intros err w' H.
    destruct Hcases as [ (_ & _ & _ & _ & w2 & H2 & Hdb)
                       | (_ & r & w2 & H2) ]; [ | congruence ].
    rewrite H2 in H. injection H as <- <-. auto.
Qed.

(** ** Properties kept by every step of a handler *)

Section Steps.
Variable I : World -> Prop.

Hypothesis I_later :
  forall env w ev,
    I w -> I (mkWorld (db w) (clock env w) (log w ++ [ev])).

Hypothesis I_session :
  forall env w aid ev,
    I w ->
    I (mkWorld (mkDb (apiKeys (db w))
                     (chatSessions (db w)
                        ++ [new_session (clock env w) (db w) aid])
                     (messages (db w)) (nextSessionId (db w) + 1)
                     (nextMessageId (db w)))
               (clock env w) (log w ++ [ev])).

Hypothesis I_title :
  forall env w sid t ev,
    I w -> t <> "" ->
    I (mkWorld (mkDb (apiKeys (db w))
                     (map (set_title sid t) (chatSessions (db w)))
                     (messages (db w)) (nextSessionId (db w))
                     (nextMessageId (db w)))
               (clock env w) (log w ++ [ev])).

Hypothesis I_message :
  forall env w c s sid ev,
    I w ->
    existsb (has_id sid) (chatSessions (db w)) = true ->
    I (mkWorld (mkDb (apiKeys (db w)) (chatSessions (db w))
                     (messages (db w)
                        ++ [new_message (clock env w) (db w) c s sid])
                     (nextSessionId (db w)) (nextMessageId (db w) + 1))
               (clock env w) (log w ++ [ev])).

Lemma step_ret {A} (a : A) : hoare I (ret a) (fun _ => I) (fun _ => I).
Proof. apply hoare_ret. auto. Qed.

Lemma step_read {A} env op (f : Db -> A) :
  hoare I (prisma env op (fun _ d => (Ok (f d), d)))
        (fun _ => I) (fun _ => I).
Proof. apply hoare_prisma; intros w Hw; now apply I_later. Qed.

Lemma step_oracle env ev res :
  hoare I (oracle env ev res) (fun _ => I) (fun _ => I).
Proof. apply hoare_oracle; intros; now apply I_later. Qed.

Lemma step_message_create env c s sid :
  hoare I (message_create env c s sid) (fun _ => I) (fun _ => I).
Proof.
  apply hoare_prisma; intros w Hw; [ now apply I_later | ].
  destruct (existsb _ _) eqn:E; [ now apply I_message | now apply I_later ].
Qed.

Lemma step_chatSession_create env aid :
  hoare I (chatSession_create env aid) (fun _ => I) (fun _ => I).
Proof.
  apply hoare_prisma; intros w Hw; [ now apply I_later | ].
  destruct (existsb _ _); [ now apply I_session | now apply I_later ].
Qed.

Lemma step_chatSession_update env sid t :
  t <> "" ->
  hoare I (chatSession_update env sid t) (fun _ => I) (fun _ => I).
Proof.
  intros Ht. apply hoare_prisma; intros w Hw; [ now apply I_later | ].
  destruct (existsb _ _); [ now apply I_title | now apply I_later ].
Qed.

Lemma step_processChat env sid message :
  hoare I (processChat env sid message) (fun _ => I) (fun _ => I).
Proof.
  rewrite processChat_phases.
  eapply hoare_bind; [ apply step_read | ].
  intros session. eapply hoare_bind with (R := fun _ => I).
  - destruct session as [ s | ]; [ | apply step_ret ].
    destruct (untitled s); [ | apply step_ret ].
    eapply hoare_bind with (R := fun t w => I w /\ t <> "").
    + intros w Hw. rewrite generateSessionTitle_run.
      split; [ now apply I_later | apply chosen_title_nonempty ].
    + intros t w [Hw Ht]. now apply step_chatSession_update.
  - intros x. eapply hoare_bind; [ apply step_message_create | ].
    intros u. eapply hoare_bind; [ apply step_read | ].
    intros hist. eapply hoare_bind; [ apply step_oracle | ].
    intros r. eapply hoare_bind; [ apply step_message_create | ].
    intros b. apply step_ret.
Qed.

Lemma step_authenticateApiKey env req :
  hoare I (authenticateApiKey env req) (fun _ => I) (fun _ => I).
Proof.
  unfold authenticateApiKey.
  destruct (x_api_key req) as [ | h | l ]; try apply step_ret.
  destruct (String.eqb h ""); [ apply step_ret | ].
  eapply hoare_bind; [ apply step_read | ].
  intros [ k | ]; [ destruct (ApiKey.active k) | ]; apply step_ret.
Qed.

Lemma step_handler env e k req :
  hoare I (handler_of env e k req) (fun _ => I) (fun _ => I).
Proof.
  destruct e; cbn [handler_of].
  - unfold chat_start. destruct (truthy_string _); [ | apply step_ret ].
    eapply hoare_try_catch; [ | intros; apply step_ret ].
    eapply hoare_bind; [ apply step_chatSession_create | ].
    intros ses. eapply hoare_bind; [ apply step_processChat | ].
    intros bot. eapply hoare_bind; [ apply step_read | ].
    intros upd. apply step_ret.
  - unfold chat_message.
    destruct (truthy_number _); [ | apply step_ret ].
    destruct (truthy_string _); [ | apply step_ret ].
    eapply hoare_try_catch; [ | intros; apply step_ret ].
    eapply hoare_bind; [ apply step_read | ].
    intros [ ses | ]; [ | apply step_ret ].
    eapply hoare_bind; [ apply step_processChat | ].
    intros bot. apply step_ret.
  - unfold chat_sessions.
    eapply hoare_try_catch; [ | intros; apply step_ret ].
    eapply hoare_bind; [ apply step_read | ].
    intros l. apply step_ret.
  - unfold chat_history.
    eapply hoare_try_catch; [ | intros; apply step_ret ].
    cbv zeta. eapply hoare_bind; [ apply step_read | ].
    intros [ ses | ]; [ | apply step_ret ].
    eapply hoare_bind; [ apply step_read | ].
    intros l. apply step_ret.
Qed.

Lemma step_serve env e req w : I w -> I (snd (serve env e req w)).
Proof.
  intros Hw.
  assert (H : hoare I (serve env e req) (fun _ => I) (fun _ => I)).
  { unfold serve, authenticated.
    eapply hoare_bind; [ apply step_authenticateApiKey | ].
    intros [ r | k ]; [ apply step_ret | apply step_handler ]. }
  specialize (H w Hw). destruct (serve env e req w) as [[r | x] w']; exact H.
Qed.

Lemma step_serve_all reqs : forall w, I w -> I (serve_all reqs w).
Proof.
  induction reqs as [ | [[env e] req] reqs IH ]; intros w Hw;
    cbn [serve_all]; [ exact Hw | ].
  apply IH. now apply step_serve.
Qed.
End Steps.

(** ** Requests only append *)

Lemma same_but_title_refl (s : ChatSession.t) : same_but_title s s.
Proof. repeat split. Qed.

Lemma same_but_title_set_title (sid : Z) (t : string)
    (s s' : ChatSession.t) :
  same_but_title s s' -> same_but_title s (set_title sid t s').
Proof.
  intros H. unfold set_title. destruct (has_id sid s'); exact H.
Qed.

Lemma grows_refl (w : World) : grows w w.
Proof.
  split.
  - reflexivity.
  - exists []. now rewrite app_nil_r.
  - exists (chatSessions (db w)), []. split; [ now rewrite app_nil_r | ].
    induction (chatSessions (db w)); constructor;
      auto using same_but_title_refl.
  - lia.
  - exists []. now rewrite app_nil_r.
Qed.

Lemma grows_later (w0 : World) env w ev :
  grows w0 w -> grows w0 (mkWorld (db w) (clock env w) (log w ++ [ev])).
Proof.
  intros [Hk Hm Hs Ht [l Hl]]. split; cbn [db now log]; auto.
  - pose proof (clock_ge env w). lia.
  - exists (l ++ [ev]). now rewrite Hl, app_assoc.
Qed.

Lemma grows_session (w0 : World) env w aid ev :
  grows w0 w ->
  grows w0
    (mkWorld (mkDb (apiKeys (db w))
                   (chatSessions (db w)
                      ++ [new_session (clock env w) (db w) aid])
                   (messages (db w)) (nextSessionId (db w) + 1)
                   (nextMessageId (db w)))
             (clock env w) (log w ++ [ev])).
Proof.
  intros H. destruct (grows_later w0 env w ev H) as [Hk Hm Hs Ht Hl].
  split; cbn [db now log apiKeys messages chatSessions] in *; auto.
  destruct Hs as (kept & new & E & HF).
  exists kept, (new ++ [new_session (clock env w) (db w) aid]).
  split; [ now rewrite E, app_assoc | exact HF ].
Qed.

Lemma grows_title (w0 : World) env w sid t ev :
  grows w0 w -> t <> "" ->
  grows w0
    (mkWorld (mkDb (apiKeys (db w))
                   (map (set_title sid t) (chatSessions (db w)))
                   (messages (db w)) (nextSessionId (db w))
                   (nextMessageId (db w)))
             (clock env w) (log w ++ [ev])).
Proof.
  intros H _. destruct (grows_later w0 env w ev H) as [Hk Hm Hs Ht Hl].
  split; cbn [db now log apiKeys messages chatSessions] in *; auto.
  destruct Hs as (kept & new & E & HF).
  exists (map (set_title sid t) kept), (map (set_title sid t) new).
  split; [ now rewrite E, map_app | ].
  clear E. induction HF as [ | a b l l' Hab HF IH ]; cbn; constructor;
    auto using same_but_title_set_title.
Qed.

Lemma grows_message (w0 : World) env w c s sid ev :
  grows w0 w ->
  existsb (has_id sid) (chatSessions (db w)) = true ->
  grows w0
    (mkWorld (mkDb (apiKeys (db w)) (chatSessions (db w))
                   (messages (db w)
                      ++ [new_message (clock env w) (db w) c s sid])
                   (nextSessionId (db w)) (nextMessageId (db w) + 1))
             (clock env w) (log w ++ [ev])).
Proof.
  intros H _. destruct (grows_later w0 env w ev H) as [Hk Hm Hs Ht Hl].
  split; cbn [db now log apiKeys messages chatSessions] in *; auto.
  destruct Hm as [new E].
  exists (new ++ [new_message (clock env w) (db w) c s sid]).
  now rewrite E, app_assoc.
Qed.

(** X4: Whatever the requests, the store and the model: no request removes or
    rewrites a message, removes a session or changes the id, the owner or
    the creation time of one, or touches the key table; messages and
    sessions are only appended, and a session changes at most its title. *)
Theorem requests_only_append
    (reqs : list (Env * Endpoint * Request)) (w : World) :
  grows w (serve_all reqs w).
Proof.
  apply (step_serve_all (grows w)).
  - apply grows_later.
  - apply grows_session.
  - apply grows_title.
  - apply grows_message.
  - apply grows_refl.
Qed.

(** ** Referential integrity *)

Lemma existsb_has_id_app (sid : Z) (l l' : list ChatSession.t) :
  existsb (has_id sid) l = true -> existsb (has_id sid) (l ++ l') = true.
Proof. intros H. rewrite existsb_app, H. reflexivity. Qed.

Lemma map_id_set_title (sid : Z) (t : string) (l : list ChatSession.t) :
  map ChatSession.id (map (set_title sid t) l) = map ChatSession.id l.
Proof.
  rewrite map_map. apply map_ext. intros s. unfold set_title.
  destruct (has_id sid s); reflexivity.
Qed.

Lemma consistent_later env w ev :
  wf w /\ linked w ->
  wf (mkWorld (db w) (clock env w) (log w ++ [ev])) /\
  linked (mkWorld (db w) (clock env w) (log w ++ [ev])).
Proof.
  intros [Hwf [Hid Hm]]. split; [ now apply wf_later | now split ].
Qed.

Lemma consistent_session env w aid ev :
  wf w /\ linked w ->
  wf (mkWorld (mkDb (apiKeys (db w))
                    (chatSessions (db w)
                       ++ [new_session (clock env w) (db w) aid])
                    (messages (db w)) (nextSessionId (db w) + 1)
                    (nextMessageId (db w)))
              (clock env w) (log w ++ [ev])) /\
  linked (mkWorld (mkDb (apiKeys (db w))
                        (chatSessions (db w)
                           ++ [new_session (clock env w) (db w) aid])
                        (messages (db w)) (nextSessionId (db w) + 1)
                        (nextMessageId (db w)))
                  (clock env w) (log w ++ [ev])).
Proof.
  intros [Hwf [Hid Hm]]. split; [ now apply wf_new_session | ].
  split; cbn [db chatSessions messages].
  - rewrite map_app. cbn [map new_session ChatSession.id].
    apply NoDup_app; [ exact Hid | repeat constructor; easy | ].
    intros x Hx [ <- | [] ]. apply in_map_iff in Hx.
    destruct Hx as (s & Es & Hs).
    pose proof (wf_session_ids _ Hwf) as Hall.
    rewrite Forall_forall in Hall. specialize (Hall s Hs). lia.
  - eapply Forall_impl; [ | exact Hm ]. cbn.
    intros m. apply existsb_has_id_app.
Qed.

Lemma consistent_title env w sid t ev :
  wf w /\ linked w -> t <> "" ->
  wf (mkWorld (mkDb (apiKeys (db w))
                    (map (set_title sid t) (chatSessions (db w)))
                    (messages (db w)) (nextSessionId (db w))
                    (nextMessageId (db w)))
              (clock env w) (log w ++ [ev])) /\
  linked (mkWorld (mkDb (apiKeys (db w))
                        (map (set_title sid t) (chatSessions (db w)))
                        (messages (db w)) (nextSessionId (db w))
                        (nextMessageId (db w)))
                  (clock env w) (log w ++ [ev])).
Proof.
  intros [Hwf [Hid Hm]] Ht. split; [ now apply wf_set_title | ].
  split; cbn [db chatSessions messages].
  - now rewrite map_id_set_title.
  - eapply Forall_impl; [ | exact Hm ]. cbn.
    intros m. now rewrite existsb_set_title.
Qed.

Lemma consistent_message env w c s sid ev :
  wf w /\ linked w ->
  existsb (has_id sid) (chatSessions (db w)) = true ->
  wf (mkWorld (mkDb (apiKeys (db w)) (chatSessions (db w))
                    (messages (db w)
                       ++ [new_message (clock env w) (db w) c s sid])
                    (nextSessionId (db w)) (nextMessageId (db w) + 1))
              (clock env w) (log w ++ [ev])) /\
  linked (mkWorld (mkDb (apiKeys (db w)) (chatSessions (db w))
                        (messages (db w)
                           ++ [new_message (clock env w) (db w) c s sid])
                        (nextSessionId (db w)) (nextMessageId (db w) + 1))
                  (clock env w) (log w ++ [ev])).
Proof.
  intros [Hwf [Hid Hm]] Hex. split; [ now apply wf_new_message | ].
  split; cbn [db chatSessions messages]; [ exact Hid | ].
  apply Forall_app. split; [ exact Hm | ].
  constructor; [ exact Hex | constructor ].
Qed.

(** X5: Starting from a store that satisfies the invariant and referential
    integrity, and the empty store does, every sequence of requests,
    whatever the store and the model do, leaves a store that satisfies
    both: titles are absent or non-empty, session ids are distinct and
    below the next id, no message is stamped in the future and every
    message belongs to a session of the store. *)
Theorem requests_keep_the_store_consistent
    (reqs : list (Env * Endpoint * Request)) (w : World) :
  wf w -> linked w ->
  (wf (serve_all reqs w) /\ linked (serve_all reqs w)) /\
  (wf empty_world /\ linked empty_world).
Proof.
  intros Hwf Hl. split.
  - apply (step_serve_all (fun w => wf w /\ linked w)); auto.
    + apply consistent_later.
    + apply consistent_session.
    + apply consistent_title.
    + apply consistent_message.
  - split; [ apply wf_empty_world | split; constructor ].
Qed.

Lemma requests_keep_the_store_consistent_witness :
  (wf (serve_all
         [(demo_env (Returns (Some "Plans")) (Returns (Some "Sure.")),
           PostChatStart,
           mkRequest (HString "key-bob") None (Some "a plan?") 0);
          (failing_env Raises Raises 5, PostChatMessage,
           mkRequest (HString "key-bob") (Some 2) (Some "hello") 0)]
         demo_world) /\
   linked (serve_all
             [(demo_env (Returns (Some "Plans")) (Returns (Some "Sure.")),
               PostChatStart,
               mkRequest (HString "key-bob") None (Some "a plan?") 0);
              (failing_env Raises Raises 5, PostChatMessage,
               mkRequest (HString "key-bob") (Some 2) (Some "hello") 0)]
             demo_world)) /\
  (wf empty_world /\ linked empty_world).
Proof.
  apply (requests_keep_the_store_consistent
           [(demo_env (Returns (Some "Plans")) (Returns (Some "Sure.")),
             PostChatStart,
             mkRequest (HString "key-bob") None (Some "a plan?") 0);
            (failing_env Raises Raises 5, PostChatMessage,
             mkRequest (HString "key-bob") (Some 2) (Some "hello") 0)]
           demo_world).
  - split; cbn; repeat constructor; cbn; try discriminate; lia.
  - split; cbn; repeat constructor; cbn; intuition discriminate.
Defined.

(** ** Reads and refusals write nothing *)

Lemma hoare_any {A} (P : World -> Prop) (m : M A) :
  hoare P m (fun _ _ => True) (fun _ _ => True).
Proof. intros w _. destruct (m w) as [[a | e] w']; exact I. Qed.

Lemma hoare_same_db {A} (d : Db) env op (f : Db -> A) :
  hoare (fun w => db w = d) (prisma env op (fun _ d' => (Ok (f d'), d')))
        (fun a w => db w = d /\ a = f d) (fun _ w => db w = d).
Proof.
  apply hoare_prisma; intros w Hw; cbn [db]; [ exact Hw | ].
  split; [ exact Hw | now rewrite Hw ].
Qed.

Lemma authenticateApiKey_same_db env req (d : Db) :
  hoare (fun w => db w = d) (authenticateApiKey env req)
        (fun a w => db w = d /\
                    match a with
                    | inl r => status r = 401
                    | inr _ => True
                    end)
        (fun _ w => db w = d).
Proof.
  unfold authenticateApiKey.
  destruct (x_api_key req) as [ | h | l ];
    try (apply hoare_ret; intros w Hw; split; [ exact Hw | reflexivity ]).
  destruct (String.eqb h "");
    [ apply hoare_ret; intros w Hw; split; [ exact Hw | reflexivity ] | ].
  eapply hoare_bind; [ apply hoare_same_db | ].
  intros [ k | ]; [ destruct (ApiKey.active k) | ];
    apply hoare_ret; intros w [Hw _]; split; auto.
Qed.

(** X6: The two GET endpoints never write: whatever the request, the store
    and the model do, the tables after the request are the tables before
    it. *)
Theorem get_requests_write_nothing
    (env : Env) (req : Request) (w : World) :
  db (snd (serve env GetChatSessions req w)) = db w /\
  db (snd (serve env GetChatSessionId req w)) = db w.
Proof.
  assert (H : forall e, e = GetChatSessions \/ e = GetChatSessionId ->
                hoare (fun w1 => db w1 = db w) (serve env e req)
                      (fun _ w1 => db w1 = db w) (fun _ w1 => db w1 = db w)).
  { intros e He. unfold serve, authenticated.
    eapply hoare_bind; [ apply authenticateApiKey_same_db | ].
    intros [ r | k ]; [ apply hoare_ret; intros w1 [H1 _]; exact H1 | ].
    eapply hoare_weaken with
      (P' := fun w1 => db w1 = db w) (Q' := fun _ w1 => db w1 = db w)
      (E' := fun _ w1 => db w1 = db w);
      [ | intros w1 [H1 _]; exact H1 | auto | auto ].
    destruct He as [ -> | -> ]; cbn [handler_of].
    - unfold chat_sessions.
      eapply hoare_try_catch with (E' := fun _ w1 => db w1 = db w);
        [ | intros; apply hoare_ret; auto ].
      eapply hoare_bind; [ apply hoare_same_db | ].
      intros l. apply hoare_ret. intros w1 [H1 _]. exact H1.
    - unfold chat_history.
      eapply hoare_try_catch with (E' := fun _ w1 => db w1 = db w);
        [ | intros; apply hoare_ret; auto ].
      cbv zeta. eapply hoare_bind; [ apply hoare_same_db | ].
      intros [ s | ]; [ | apply hoare_ret; intros w1 [H1 _]; exact H1 ].
      eapply hoare_bind with (R := fun _ w1 => db w1 = db w).
      + eapply hoare_weaken; [ apply (hoare_same_db (db w)) | | | ];
          cbn; intuition eauto.
      + intros l. apply hoare_ret. auto. }
  split.
  - specialize (H GetChatSessions (or_introl eq_refl) w eq_refl).
    destruct (serve env GetChatSessions req w) as [[r | x] w']; exact H.
  - specialize (H GetChatSessionId (or_intror eq_refl) w eq_refl).
    destruct (serve env GetChatSessionId req w) as [[r | x] w']; exact H.
Qed.

(** X7: Every response has status 200, 400, 401, 404 or 500, and a request
    answered 400, 401 or 404, on any endpoint and whatever the store and
    the model do, has left the tables as they were. *)
Theorem refused_requests_write_nothing
    (env : Env) (e : Endpoint) (req : Request) (w w' : World)
    (r : Response) :
  serve env e req w = (Ok r, w') ->
  In (status r) [200; 400; 401; 404; 500] /\
  (status r = 400 \/ status r = 401 \/ status r = 404 -> db w' = db w).
Proof.
  set (G := fun (r : Response) (w1 : World) =>
              In (status r) [200; 400; 401; 404; 500] /\
              (status r = 400 \/ status r = 401 \/ status r = 404 ->
               db w1 = db w)).
  assert (Hok : forall j w1, G (res_json j) w1).
  { intros j w1. split; [ cbn; auto | cbn; intuition discriminate ]. }
  assert (H500 : forall s w1, G (res_error 500 s) w1).
  { intros s w1. split; [ cbn; auto 10 | cbn; intuition discriminate ]. }
  assert (Hsame : forall c s w1, In c [400; 401; 404] -> db w1 = db w ->
                                 G (res_error c s) w1).
  { intros c s w1 Hc Hd. split; [ | intros _; exact Hd ].
    cbn in *. intuition. }
  assert (H : hoare (fun w1 => db w1 = db w) (serve env e req) G
                    (fun _ _ => True)).
  { unfold serve, authenticated.
    eapply hoare_bind;
      [ eapply hoare_weaken;
          [ apply (authenticateApiKey_same_db env req (db w))
          | auto | intros a w1 Ha; exact Ha | auto ] | ].
    intros [ r0 | k ].
    { apply hoare_ret. intros w1 [H1 Hs]. split; [ | intros _; exact H1 ].
      rewrite Hs. cbn. auto. }
    eapply hoare_weaken with
      (P' := fun w1 => db w1 = db w) (Q' := G) (E' := fun _ _ => True);
      [ | intros w1 [H1 _]; exact H1 | auto | auto ].
    destruct e; cbn [handler_of].
    - unfold chat_start. destruct (truthy_string _);
        [ | apply hoare_ret; intros; apply Hsame; cbn; auto ].
      eapply hoare_try_catch with (E' := fun _ _ => True);
        [ | intros; apply hoare_ret; intros; apply H500 ].
      eapply hoare_bind; [ apply hoare_any | ].
      intros ses. eapply hoare_bind; [ apply hoare_any | ].
      intros bot. eapply hoare_bind; [ apply hoare_any | ].
      intros upd. apply hoare_ret. intros. apply Hok.
    - unfold chat_message.
      destruct (truthy_number _);
        [ | apply hoare_ret; intros; apply Hsame; cbn; auto ].
      destruct (truthy_string _);
        [ | apply hoare_ret; intros; apply Hsame; cbn; auto ].
      eapply hoare_try_catch with (E' := fun _ _ => True);
        [ | intros; apply hoare_ret; intros; apply H500 ].
      eapply hoare_bind with (R := fun _ w1 => db w1 = db w);
        [ eapply hoare_weaken; [ apply (hoare_same_db (db w)) | | | ];
          cbn; intuition eauto | ].
      intros [ ses | ];
        [ | apply hoare_ret; intros w1 H1; apply Hsame; cbn; auto ].
      eapply hoare_bind; [ apply hoare_any | ].
      intros bot. apply hoare_ret. intros. apply Hok.
    - unfold chat_sessions.
      eapply hoare_try_catch with (E' := fun _ _ => True);
        [ | intros; apply hoare_ret; intros; apply H500 ].
      eapply hoare_bind; [ apply hoare_any | ].
      intros l. apply hoare_ret. intros. apply Hok.
    - unfold chat_history.
      eapply hoare_try_catch with (E' := fun _ _ => True);
        [ | intros; apply hoare_ret; intros; apply H500 ].
      cbv zeta. eapply hoare_bind with (R := fun _ w1 => db w1 = db w);
        [ eapply hoare_weaken; [ apply (hoare_same_db (db w)) | | | ];
          cbn; intuition eauto | ].
      intros [ ses | ];
        [ | apply hoare_ret; intros w1 H1; apply Hsame; cbn; auto ].
      eapply hoare_bind; [ apply hoare_any | ].
      intros l. apply hoare_ret. intros. apply Hok. }
  intros Hrun. specialize (H w eq_refl). rewrite Hrun in H. exact H.
Qed.

Lemma refused_requests_write_nothing_witness :
  In (status (res_error 404 "Session not found or unauthorized"))
     [200; 400; 401; 404; 500] /\
  (status (res_error 404 "Session not found or unauthorized") = 400 \/
   status (res_error 404 "Session not found or unauthorized") = 401 \/
   status (res_error 404 "Session not found or unauthorized") = 404 ->
   db (snd (serve (demo_env Raises Raises) PostChatMessage
              (mkRequest (HString "key-alice") (Some 2) (Some "hi") 0)
              demo_world)) = db demo_world).
Proof.
  apply (refused_requests_write_nothing (demo_env Raises Raises)
           PostChatMessage
           (mkRequest (HString "key-alice") (Some 2) (Some "hi") 0)
           demo_world).
  reflexivity.
Defined.

(** ** The messages a turn appends, on every path *)

Lemma reply_calls_prisma (l : list Event) (op : StoreOp) :
  reply_calls (l ++ [Prisma op]) = reply_calls l.
Proof. rewrite reply_calls_app. cbn. apply app_nil_r. Qed.

Lemma reply_calls_title (l : list Event) (p : string) :
  reply_calls (l ++ [GenerateContent p]) = reply_calls l.
Proof. rewrite reply_calls_app. cbn. apply app_nil_r. Qed.

Lemma reply_calls_reply (l : list Event) (h : list Content) (m : string) :
  reply_calls (l ++ [SendMessage h m]) = reply_calls l ++ [(h, m)].
Proof. rewrite reply_calls_app. reflexivity. Qed.

Lemma processChat_messages_paths env sid message w0 :
  hoare (eq w0) (processChat env sid message)
    (fun b w' =>
       exists u h,
         is_turn u sid "user" message /\
         is_turn b sid "bot" (Message.content b) /\
         Message.content b <> "" /\
         messages (db w') = messages (db w0) ++ [u; b] /\
         reply_calls (log w') = reply_calls (log w0) ++ [(h, message)])
    (fun _ w' =>
       (messages (db w') = messages (db w0) /\
        reply_calls (log w') = reply_calls (log w0)) \/
       (exists u,
          is_turn u sid "user" message /\
          messages (db w') = messages (db w0) ++ [u] /\
          (reply_calls (log w') = reply_calls (log w0) \/
           exists h,
             reply_calls (log w') = reply_calls (log w0) ++ [(h, message)]))).
Proof.
  set (A := fun w1 : World =>
              messages (db w1) = messages (db w0) /\
              reply_calls (log w1) = reply_calls (log w0)).
  set (B := fun w1 : World =>
              exists u, is_turn u sid "user" message /\
                        messages (db w1) = messages (db w0) ++ [u] /\
                        reply_calls (log w1) = reply_calls (log w0)).
  set (C := fun w1 : World =>
              exists u h, is_turn u sid "user" message /\
                          messages (db w1) = messages (db w0) ++ [u] /\
                          reply_calls (log w1)
                          = reply_calls (log w0) ++ [(h, message)]).
  assert (HA : forall env w1 op, A w1 ->
             A (mkWorld (db w1) (clock env w1) (log w1 ++ [Prisma op]))).
  { intros env' w1 op [Hm Hr]. split; cbn [db log]; auto.
    now rewrite reply_calls_prisma. }
  assert (HB : forall env w1 op, B w1 ->
             B (mkWorld (db w1) (clock env w1) (log w1 ++ [Prisma op]))).
  { intros env' w1 op (u & Hu & Hm & Hr). exists u. cbn [db log].
    rewrite reply_calls_prisma. auto. }
  assert (HC : forall env w1 op, C w1 ->
             C (mkWorld (db w1) (clock env w1) (log w1 ++ [Prisma op]))).
  { intros env' w1 op (u & h & Hu & Hm & Hr). exists u, h. cbn [db log].
    rewrite reply_calls_prisma. auto. }
  rewrite processChat_phases.
  eapply hoare_bind with (R := fun _ => A).
  { apply hoare_prisma; intros w1 <-.
    - left. apply HA. split; reflexivity.
    - apply HA. split; reflexivity. }
  intros session.
  eapply hoare_bind with (R := fun _ => A).
  { destruct session as [ s | ]; [ | apply hoare_ret; auto ].
    destruct (untitled s); [ | apply hoare_ret; auto ].
    eapply hoare_bind with (R := fun _ => A).
    - intros w1 [Hm Hr]. rewrite generateSessionTitle_run.
      split; cbn [db log]; auto. now rewrite reply_calls_title.
    - intros t. apply hoare_prisma; intros w1 H1; [ left; now apply HA | ].
      destruct (existsb _ _); [ | left; now apply HA ].
      destruct H1 as [Hm Hr]. split; cbn [db log messages]; auto.
      now rewrite reply_calls_prisma. }
  intros x.
  eapply hoare_bind with (R := fun _ => B).
  { apply hoare_prisma; intros w1 H1; [ left; now apply HA | ].
    destruct (existsb _ _); [ | left; now apply HA ].
    destruct H1 as [Hm Hr]. eexists. cbn [db log messages].
    rewrite reply_calls_prisma, Hm.
    split; [ | split; [ reflexivity | exact Hr ] ]. repeat split. }
  intros u0.
  eapply hoare_bind with (R := fun _ => B).
  { apply hoare_prisma; intros w1 H1; [ | now apply HB ].
    right. destruct (HB env w1 (MessageFindMany sid) H1)
      as (u & Hu & Hm & Hr). exists u. auto. }
  intros hist.
  eapply hoare_bind with (R := fun _ => C).
  { apply hoare_oracle.
    - intros w1 (u & Hu & Hm & Hr). right. exists u. cbn [db log].
      rewrite reply_calls_reply, Hr. eauto 6.
    - intros w1 t (u & Hu & Hm & Hr) _. exists u. eexists. cbn [db log].
      rewrite reply_calls_reply, Hr. eauto. }
  intros r.
  eapply hoare_bind with
    (R := fun b w' =>
            exists u h,
              is_turn u sid "user" message /\
              is_turn b sid "bot" (Message.content b) /\
              Message.content b <> "" /\
              messages (db w') = messages (db w0) ++ [u; b] /\
              reply_calls (log w') = reply_calls (log w0) ++ [(h, message)]).
  { apply hoare_prisma; intros w1 H1.
    - right. destruct (HC env w1 (MessageCreate
                                    (or_else r "No response text") "bot" sid)
                          H1) as (u & h & Hu & Hm & Hr).
      exists u. eauto 6.
    - destruct (existsb _ _).
      + destruct H1 as (u & h & Hu & Hm & Hr). exists u, h.
        cbn [db log messages]. rewrite reply_calls_prisma, Hm, <- app_assoc.
        split; [ exact Hu | ]. split; [ repeat split | ].
        split; [ cbn; now apply or_else_nonempty | ].
        split; [ reflexivity | exact Hr ].
      + right. destruct (HC env w1 (MessageCreate
                                      (or_else r "No response text")
                                      "bot" sid) H1)
          as (u & h & Hu & Hm & Hr).
        exists u. eauto 6. }
  intros b. apply hoare_ret. auto.
Qed.

(** X8: Whatever the store and the model do, a turn that returns has appended
    two messages, the user turn and then the bot turn it returns, whose
    text is not empty, after one reply call to the model; a turn that
    throws has appended nothing, or the user turn alone, and the reply
    call, if it was made at all, was made after the user turn had been
    stored.  A bot turn is never stored without its user turn. *)
Theorem turn_appends_user_turn_then_bot_turn
    (env : Env) (sid : Z) (message : string) (w : World) :
  let r := processChat env sid message w in
  (exists b u h,
     fst r = Ok b /\
     is_turn u sid "user" message /\
     is_turn b sid "bot" (Message.content b) /\
     Message.content b <> "" /\
     messages (db (snd r)) = messages (db w) ++ [u; b] /\
     reply_calls (log (snd r)) = reply_calls (log w) ++ [(h, message)])
  \/
  (exists e,
     fst r = Throw e /\
     ((messages (db (snd r)) = messages (db w) /\
       reply_calls (log (snd r)) = reply_calls (log w)) \/
      (exists u,
         is_turn u sid "user" message /\
         messages (db (snd r)) = messages (db w) ++ [u] /\
         (reply_calls (log (snd r)) = reply_calls (log w) \/
          exists h,
            reply_calls (log (snd r))
            = reply_calls (log w) ++ [(h, message)])))).
Proof.
  cbv zeta.
  pose proof (processChat_messages_paths env sid message w w eq_refl) as H.
  destruct (processChat env sid message w) as [[b | e] w']; cbn [fst snd].
  - left. destruct H as (u & h & H). exists b, u, h. tauto.
  - right. exists e. auto.
Qed.

(** ** Titling happens on untitled sessions only *)

Lemma titling_calls_other (l : list Event) (ev : Event) :
  is_titling ev = false -> titling_calls (l ++ [ev]) = titling_calls l.
Proof.
  intros H. unfold titling_calls. rewrite filter_app. cbn. rewrite H.
  apply app_nil_r.
Qed.

Lemma reply_phase_no_titling env sid message (tl : list Event)
    (ss : list ChatSession.t) :
  hoare (fun w => titling_calls (log w) = tl /\ chatSessions (db w) = ss)
        (reply_phase env sid message)
        (fun _ w => titling_calls (log w) = tl /\ chatSessions (db w) = ss)
        (fun _ w => titling_calls (log w) = tl /\ chatSessions (db w) = ss).
Proof.
  set (T := fun w : World =>
              titling_calls (log w) = tl /\ chatSessions (db w) = ss).
  assert (HT : forall env' w ev d,
             T w -> is_titling ev = false -> chatSessions d = chatSessions (db w) ->
             T (mkWorld d (clock env' w) (log w ++ [ev]))).
  { intros env' w ev d [Hl Hs] Hev Hd. split; cbn [db log].
    - now rewrite titling_calls_other.
    - congruence. }
  eapply hoare_bind with (R := fun _ => T).
  { apply hoare_prisma; intros w Hw; [ now apply HT | ].
    destruct (existsb _ _); now apply HT. }
  intros u. eapply hoare_bind with (R := fun _ => T).
  { apply hoare_prisma; intros w Hw; now apply HT. }
  intros hist. eapply hoare_bind with (R := fun _ => T).
  { apply hoare_oracle; intros; now apply HT. }
  intros r. eapply hoare_bind with (R := fun _ => T).
  { apply hoare_prisma; intros w Hw; [ now apply HT | ].
    destruct (existsb _ _); now apply HT. }
  intros b. apply hoare_ret. auto.
Qed.

(** X9: A turn on a session that has a title makes no title request to the
    model and no title update, and leaves the session table as it was,
    whatever the store and the model do. *)
Theorem titled_session_is_not_titled_again
    (env : Env) (sid : Z) (message t : string) (w : World) :
  wf w ->
  title_of w sid = Some (Some t) ->
  titling_calls (log (snd (processChat env sid message w)))
  = titling_calls (log w) /\
  chatSessions (db (snd (processChat env sid message w)))
  = chatSessions (db w).
Proof.
  intros Hwf Ht.
  pose proof (wf_title_nonempty w sid t Hwf Ht) as Hne.
  set (T := fun w1 : World =>
              titling_calls (log w1) = titling_calls (log w) /\
              chatSessions (db w1) = chatSessions (db w)).
  assert (H : hoare (eq w) (processChat env sid message)
                    (fun _ => T) (fun _ => T)).
  { rewrite processChat_phases.
    eapply hoare_bind with
      (R := fun session w1 => T w1 /\ session = session_row w sid).
    { apply hoare_prisma; intros w1 <-.
      - split; cbn [db log]; [ now rewrite titling_calls_other | easy ].
      - split; [ | reflexivity ].
        split; cbn [db log]; [ now rewrite titling_calls_other | easy ]. }
    intros session. apply hoare_pure. intros ->.
    eapply hoare_bind with (R := fun _ => T).
    { unfold title_of in Ht.
      destruct (session_row w sid) as [ s | ]; [ | apply hoare_ret; auto ].
      cbn in Ht. injection Ht as Ht.
      assert (Hun : untitled s = false).
      { unfold untitled, truthy_string. rewrite Ht.
        destruct (String.eqb_spec t ""); [ contradiction | reflexivity ]. }
      rewrite Hun. apply hoare_ret. auto. }
    intros x. apply reply_phase_no_titling. }
  specialize (H w eq_refl).
  destruct (processChat env sid message w) as [[b | e] w']; exact H.
Qed.

Lemma titled_session_is_not_titled_again_witness :
  titling_calls
    (log (snd (processChat
                 (demo_env (Returns (Some "Other")) (Returns (Some "ok")))
                 1 "and then?" demo_world)))
  = titling_calls (log demo_world) /\
  chatSessions
    (db (snd (processChat
                (demo_env (Returns (Some "Other")) (Returns (Some "ok")))
                1 "and then?" demo_world)))
  = chatSessions (db demo_world).
Proof.
  apply (titled_session_is_not_titled_again
           (demo_env (Returns (Some "Other")) (Returns (Some "ok")))
           1 "and then?" "Greetings" demo_world).
  - split; cbn; repeat constructor; cbn; try discriminate; lia.
  - reflexivity.
Defined.

(** ** Titles and replies as the model gave them *)

(** X10: On a turn for a session that has no title, when the model answers the
    title request with text that is not empty once trimmed, that trimmed
    text becomes the title of the session (the store answering the lookup
    and the update). *)
Theorem model_title_is_stored_trimmed
    (env : Env) (sid : Z) (message t : string) (w : World) :
  title_of w sid = Some None ->
  storeFault env (List.length (log w)) = false ->
  storeFault env (S (S (List.length (log w)))) = false ->
  generateContent env (title_prompt message) = Returns (Some t) ->
  trim env t <> "" ->
  title_of (snd (processChat env sid message w)) sid
  = Some (Some (trim env t)).
Proof.
  intros Ht Hf0 Hf2 Hg Hne.
  destruct (title_of_untitled _ _ Ht) as (s & Hs & Hun).
  apply (title_of_set_title w _ sid s _ Hs).
  rewrite (processChat_sets_title env sid message s w Hs Hun Hf0 Hf2), Hg.
  cbn [option_map]. unfold or_else, truthy_string.
  destruct (String.eqb_spec (trim env t) ""); [ contradiction | reflexivity ].
Qed.

Lemma model_title_is_stored_trimmed_witness :
  title_of (snd (processChat
                   (demo_env (Returns (Some "Hello Bob")) Raises)
                   2 "hi there" demo_world)) 2
  = Some (Some (trim (demo_env (Returns (Some "Hello Bob")) Raises)
                  "Hello Bob")).
Proof.
  apply (model_title_is_stored_trimmed
           (demo_env (Returns (Some "Hello Bob")) Raises)
           2 "hi there" "Hello Bob" demo_world).
  - reflexivity.
  - reflexivity.
  - reflexivity.
  - reflexivity.
  - discriminate.
Defined.

(** X11: When the model replies with non-empty text to a turn on a session of
    the caller (the store answering every call), the handler of
    POST /api/chat/message answers 200 with a bot turn whose text is the
    reply as the model gave it, appended after the user turn. *)
Theorem reply_text_is_stored_as_given
    (env : Env) (apiKey : ApiKey.t) (req : Request) (sid : Z)
    (message reply : string) (w : World) :
  store_ok env -> wf w -> owns w (ApiKey.id apiKey) sid ->
  body_sessionId req = Some sid -> sid <> 0 ->
  body_message req = Some message -> message <> "" ->
  sendMessage env (map to_content (history (db w) sid)) message
  = Returns (Some reply) ->
  reply <> "" ->
  exists u b w',
    chat_message env apiKey req w = (Ok (mkResponse 200 (JMessage b)), w') /\
    is_turn u sid "user" message /\
    is_turn b sid "bot" reply /\
    messages (db w') = messages (db w) ++ [u; b] /\
    history (db w') sid = history (db w) sid ++ [u; b].
Proof.
  intros Hok Hwf Ho Hb Hz Hm Hne Hr Hrne.
  destruct (owns_session_row _ _ _ Ho) as [s Hs].
  rewrite (chat_message_run env apiKey req sid message w);
    auto using truthy_number_some, truthy_string_some.
  set (w0 := mkWorld (db w) (clock env w) _).
  assert (Hwf0 : wf w0) by (apply wf_later; exact Hwf).
  destruct (processChat_reply_returns env sid message s w0 (Some reply)
              Hok Hwf0 Hs Hr)
    as (u & b & w' & Hrun & Hu & Hbot & Hmsg & Hh & _).
  rewrite Hrun. exists u, b, w'.
  replace (or_else (Some reply) "No response text") with reply in Hbot.
  - auto.
  - unfold or_else, truthy_string.
    destruct (String.eqb_spec reply ""); [ contradiction | reflexivity ].
Qed.

Lemma reply_text_is_stored_as_given_witness :
  exists u b w',
    chat_message (demo_env Raises (Returns (Some "  fine.  "))) alice
      (mkRequest (HString "key-alice") (Some 1) (Some "and then?") 0)
      demo_world
    = (Ok (mkResponse 200 (JMessage b)), w') /\
    is_turn u 1 "user" "and then?" /\
    is_turn b 1 "bot" "  fine.  " /\
    messages (db w') = messages (db demo_world) ++ [u; b] /\
    history (db w') 1 = history (db demo_world) 1 ++ [u; b].
Proof.
  apply (reply_text_is_stored_as_given
           (demo_env Raises (Returns (Some "  fine.  "))) alice
           (mkRequest (HString "key-alice") (Some 1) (Some "and then?") 0)
           1 "and then?" "  fine.  " demo_world).
  - intros n. reflexivity.
  - split; cbn; repeat constructor; cbn; try discriminate; lia.
  - exists (ChatSession.mk 1 (Some "Greetings") 3 1). cbn. auto.
  - reflexivity.
  - discriminate.
  - reflexivity.
  - discriminate.
  - reflexivity.
  - discriminate.
Defined.

(** ** Listing the sessions of a tenant *)

Lemma createdAt_desc_total (a b : ChatSession.t) :
  createdAt_desc a b = false -> createdAt_desc b a = true.
Proof. unfold createdAt_desc. lia. Qed.

(** X12: The handler of GET /api/chat/sessions answers 500 if the store rejects
    the query; otherwise it answers 200 with exactly the sessions owned by
    the caller, none of another tenant, the most recently created first.
    In both cases the tables are unchanged. *)
Theorem sessions_lists_own_sessions_newest_first
    (env : Env) (apiKey : ApiKey.t) (req : Request) (w : World) :
  let l := orderBy createdAt_desc
             (filter (owned_by (ApiKey.id apiKey)) (chatSessions (db w))) in
  (exists w',
     chat_sessions env apiKey req w
     = (Ok (if storeFault env (List.length (log w))
            then res_error 500 "Failed to fetch sessions"
            else res_json (JSessions l)), w') /\
     db w' = db w) /\
  (forall s, In s l <->
             In s (chatSessions (db w)) /\
             ChatSession.apiKeyId s = ApiKey.id apiKey) /\
  Permutation l
    (filter (owned_by (ApiKey.id apiKey)) (chatSessions (db w))) /\
  Sorted (fun a b => ChatSession.createdAt b <= ChatSession.createdAt a) l.
Proof.
  cbv zeta. split; [ | split; [ | split ] ].
  - unfold chat_sessions, try_catch, bind, chatSession_findMany, prisma, ret.
    destruct (storeFault env (List.length (log w)));
      eexists; split; reflexivity.
  - intros s.
    transitivity (In s (filter (owned_by (ApiKey.id apiKey))
                          (chatSessions (db w)))).
    + split; apply Permutation_in;
        [ apply orderBy_perm | symmetry; apply orderBy_perm ].
    + rewrite filter_In. unfold owned_by. now rewrite Z.eqb_eq.
  - apply orderBy_perm.
  - pose proof (orderBy_sorted createdAt_desc createdAt_desc_total
                  (filter (owned_by (ApiKey.id apiKey))
                     (chatSessions (db w)))) as H.
    induction H as [ | a l Hs IH Ha ]; constructor; [ exact IH | ].
    destruct Ha as [ | b l Hab ]; constructor.
    unfold holds, createdAt_desc in Hab. lia.
Qed.

(** ** Starting a session *)

Lemma map_set_title_fresh (sid : Z) (t : string) (l : list ChatSession.t) :
  Forall (fun s => ChatSession.id s < sid) l ->
  map (set_title sid t) l = l.
Proof.
  induction 1 as [ | s l Hs Hl IH ]; cbn; [ reflexivity | ].
  rewrite IH. f_equal. unfold set_title, has_id.
  destruct (Z.eqb_spec (ChatSession.id s) sid); [ lia | reflexivity ].
Qed.

Lemma find_fresh (sid : Z) (l : list ChatSession.t) :
  Forall (fun s => ChatSession.id s < sid) l -> find (has_id sid) l = None.
Proof.
  intros H. apply find_none_iff. intros s Hs.
  rewrite Forall_forall in H. specialize (H s Hs). unfold has_id. lia.
Qed.

(** A start that goes through, when the store answers every call and the
    model replies. *)
Lemma chat_start_success env apiKey req message r w :
  store_ok env -> wf w -> In apiKey (apiKeys (db w)) ->
  body_message req = Some message -> message <> "" ->
  sendMessage env
    (map to_content (history (db w) (nextSessionId (db w)))) message
  = Returns r ->
  exists u b w',
    chat_start env apiKey req w
    = (Ok (res_json
             (JStarted
                (Some (ChatSession.mk (nextSessionId (db w))
                         (Some (chosen_title env message)) (clock env w)
                         (ApiKey.id apiKey)))
                b)), w') /\
    is_turn u (nextSessionId (db w)) "user" message /\
    is_turn b (nextSessionId (db w)) "bot" (or_else r "No response text") /\
    chatSessions (db w')
    = chatSessions (db w)
      ++ [ChatSession.mk (nextSessionId (db w))
            (Some (chosen_title env message)) (clock env w)
            (ApiKey.id apiKey)] /\
    messages (db w') = messages (db w) ++ [u; b] /\
    history (db w') (nextSessionId (db w))
    = history (db w) (nextSessionId (db w)) ++ [u; b] /\
    wf w'.
Proof.
  intros Hok Hwf Hin Hb Hne Hr.
  pose proof (session_row_started env (ApiKey.id apiKey) w Hwf) as Hs1.
  pose proof (wf_new_session env w (ApiKey.id apiKey)
                (log w ++ [Prisma (ChatSessionCreate (ApiKey.id apiKey))])
                Hwf) as Hwf1.
  destruct (processChat_reply_returns env (nextSessionId (db w)) message
              _ _ r Hok Hwf1 Hs1 Hr)
    as (u & b & w2 & Hrun & Hu & Hbot & Hmsg & Hh & Hses & Hwf2).
  cbn [db chatSessions messages] in Hmsg, Hses.
  change (untitled (new_session (clock env w) (db w) (ApiKey.id apiKey)))
    with true in Hses.
  rewrite map_app, (map_set_title_fresh _ _ _ (wf_session_ids _ Hwf)) in Hses.
  cbn [map] in Hses.
  change (set_title (nextSessionId (db w)) (chosen_title env message)
            (new_session (clock env w) (db w) (ApiKey.id apiKey)))
    with (if has_id (nextSessionId (db w))
               (new_session (clock env w) (db w) (ApiKey.id apiKey))
          then ChatSession.mk (nextSessionId (db w))
                 (Some (chosen_title env message)) (clock env w)
                 (ApiKey.id apiKey)
          else new_session (clock env w) (db w) (ApiKey.id apiKey)) in Hses.
  replace (has_id (nextSessionId (db w))
             (new_session (clock env w) (db w) (ApiKey.id apiKey)))
    with true in Hses by (symmetry; apply Z.eqb_refl).
  exists u, b. eexists.
  split; [ | split; [ exact Hu | split; [ exact Hbot | ] ] ].
  - rewrite (chat_start_run env apiKey req message w);
      auto using truthy_string_some.
    rewrite Hrun. unfold chatSession_findUnique, prisma. rewrite Hok.
    rewrite Hses, find_snoc, (find_fresh _ _ (wf_session_ids _ Hwf)).
    unfold has_id. cbn [ChatSession.id]. rewrite Z.eqb_refl. reflexivity.
  - cbn [db]. repeat split; try apply Hwf2; auto.
    eapply Forall_impl; [ | exact (wf_times _ Hwf2) ].
    cbn. intros m Hm. pose proof (clock_ge env w2). lia.
Qed.

(** X13: When the store answers every call and the model replies, the handler
    of POST /api/chat/start answers 200 with the new session, owned by the
    caller and already titled, and with the bot turn; the session row and
    the two turns, user then bot, are what was added to the tables. *)
Theorem successful_start_returns_titled_session
    (env : Env) (apiKey : ApiKey.t) (req : Request) (message : string)
    (r : option string) (w : World) :
  store_ok env -> wf w -> In apiKey (apiKeys (db w)) ->
  body_message req = Some message -> message <> "" ->
  sendMessage env
    (map to_content (history (db w) (nextSessionId (db w)))) message
  = Returns r ->
  exists s u b w',
    chat_start env apiKey req w
    = (Ok (mkResponse 200 (JStarted (Some s) b)), w') /\
    ChatSession.id s = nextSessionId (db w) /\
    ChatSession.apiKeyId s = ApiKey.id apiKey /\
    (exists t, t <> "" /\ ChatSession.title s = Some t) /\
    is_turn u (ChatSession.id s) "user" message /\
    is_turn b (ChatSession.id s) "bot" (or_else r "No response text") /\
    chatSessions (db w') = chatSessions (db w) ++ [s] /\
    messages (db w') = messages (db w) ++ [u; b].
Proof.
  intros Hok Hwf Hin Hb Hne Hr.
  destruct (chat_start_success env apiKey req message r w
              Hok Hwf Hin Hb Hne Hr)
    as (u & b & w' & Hrun & Hu & Hbot & Hses & Hmsg & _).
  eexists. exists u, b, w'.
  split; [ exact Hrun | ]. cbn [ChatSession.id ChatSession.apiKeyId
                                ChatSession.title].
  repeat split; try apply Hu; try apply Hbot; auto.
  exists (chosen_title env message).
  split; [ apply chosen_title_nonempty | reflexivity ].
Qed.

Lemma successful_start_returns_titled_session_witness :
  exists s u b w',
    chat_start (demo_env (Returns (Some "Plans")) (Returns (Some "Sure.")))
      bob (mkRequest (HString "key-bob") None (Some "a plan?") 0)
      demo_world
    = (Ok (mkResponse 200 (JStarted (Some s) b)), w') /\
    ChatSession.id s = nextSessionId (db demo_world) /\
    ChatSession.apiKeyId s = ApiKey.id bob /\
    (exists t, t <> "" /\ ChatSession.title s = Some t) /\
    is_turn u (ChatSession.id s) "user" "a plan?" /\
    is_turn b (ChatSession.id s) "bot"
      (or_else (Some "Sure.") "No response text") /\
    chatSessions (db w') = chatSessions (db demo_world) ++ [s] /\
    messages (db w') = messages (db demo_world) ++ [u; b].
Proof.
  apply (successful_start_returns_titled_session
           (demo_env (Returns (Some "Plans")) (Returns (Some "Sure.")))
           bob (mkRequest (HString "key-bob") None (Some "a plan?") 0)
           "a plan?" (Some "Sure.") demo_world).
  - intros n. reflexivity.
  - split; cbn; repeat constructor; cbn; try discriminate; lia.
  - right. left. reflexivity.
  - reflexivity.
  - discriminate.
  - reflexivity.
Defined.

Lemma no_message_of_next_session (w : World) :
  wf w -> linked w ->
  filter (in_session (nextSessionId (db w))) (messages (db w)) = [].
Proof.
  intros Hwf [_ Hm].
  assert (H : forall m, In m (messages (db w)) ->
                        in_session (nextSessionId (db w)) m = false).
  { intros m Hin. rewrite Forall_forall in Hm. specialize (Hm m Hin).
    apply existsb_exists in Hm. destruct Hm as (s & Hs & Hid).
    pose proof (wf_session_ids _ Hwf) as Hall.
    rewrite Forall_forall in Hall. specialize (Hall s Hs).
    unfold has_id in Hid. unfold in_session. lia. }
  revert H. generalize (messages (db w)).
  induction l as [ | m l IH ]; intros H; cbn; [ reflexivity | ].
  rewrite (H m (or_introl eq_refl)). apply IH. intros m' Hm'.
  apply H. now right.
Qed.

Lemma chat_sessions_answer env k req w :
  storeFault env (List.length (log w)) = false ->
  fst (chat_sessions env k req w)
  = Ok (res_json (JSessions
                    (orderBy createdAt_desc
                       (filter (owned_by (ApiKey.id k))
                          (chatSessions (db w)))))).
Proof.
  intros Hf.
  unfold chat_sessions, try_catch, bind, chatSession_findMany, prisma, ret.
  now rewrite Hf.
Qed.

Lemma in_listing (aid : Z) (l : list ChatSession.t) (s : ChatSession.t) :
  In s (orderBy createdAt_desc (filter (owned_by aid) l)) <->
  In s l /\ ChatSession.apiKeyId s = aid.
Proof.
  transitivity (In s (filter (owned_by aid) l)).
  - split; apply Permutation_in;
      [ apply orderBy_perm | symmetry; apply orderBy_perm ].
  - rewrite filter_In. unfold owned_by. now rewrite Z.eqb_eq.
Qed.

(** X14: After a start that went through, the caller reads back, from
    GET /api/chat/:sessionId with the id it was given, exactly the two
    turns, user then bot, and finds the session in its list; another
    tenant gets 404 for that id and does not find the session in its
    list. *)
Theorem started_session_reads_back_for_its_owner_only
    (env env' : Env) (apiKey other : ApiKey.t) (req get : Request)
    (message : string) (r : option string) (w : World) :
  store_ok env -> store_ok env' -> wf w -> linked w ->
  In apiKey (apiKeys (db w)) ->
  ApiKey.id other <> ApiKey.id apiKey ->
  body_message req = Some message -> message <> "" ->
  sendMessage env
    (map to_content (history (db w) (nextSessionId (db w)))) message
  = Returns r ->
  params_sessionId get = nextSessionId (db w) ->
  exists s u b w',
    chat_start env apiKey req w = (Ok (res_json (JStarted (Some s) b)), w') /\
    ChatSession.id s = nextSessionId (db w) /\
    is_turn u (ChatSession.id s) "user" message /\
    is_turn b (ChatSession.id s) "bot" (or_else r "No response text") /\
    fst (chat_history env' apiKey get w')
    = Ok (res_json (JMessages [u; b])) /\
    fst (chat_history env' other get w')
    = Ok (res_error 404 "Session not found or unauthorized") /\
    (exists l, fst (chat_sessions env' apiKey get w')
               = Ok (res_json (JSessions l)) /\ In s l) /\
    (exists l, fst (chat_sessions env' other get w')
               = Ok (res_json (JSessions l)) /\ ~ In s l).
Proof.
  intros Hok Hok' Hwf Hl Hin Hother Hb Hne Hr Hget.
  destruct (chat_start_success env apiKey req message r w
              Hok Hwf Hin Hb Hne Hr)
    as (u & b & w' & Hrun & Hu & Hbot & Hses & Hmsg & Hh & Hwf').
  set (s := ChatSession.mk (nextSessionId (db w))
              (Some (chosen_title env message)) (clock env w)
              (ApiKey.id apiKey)) in *.
  exists s, u, b, w'.
  split; [ exact Hrun | ]. split; [ reflexivity | ].
  split; [ exact Hu | ]. split; [ exact Hbot | ].
  assert (Hown : owns w' (ApiKey.id apiKey) (params_sessionId get)).
  { exists s. rewrite Hses, Hget. split; [ | split; reflexivity ].
    apply in_or_app. right. now left. }
  assert (Hnot : ~ owns w' (ApiKey.id other) (params_sessionId get)).
  { intros (s' & Hs' & Hid & Hown'). rewrite Hses in Hs'.
    apply in_app_or in Hs'. destruct Hs' as [ Hold | [ <- | [] ] ].
    - pose proof (wf_session_ids _ Hwf) as Hall.
      rewrite Forall_forall in Hall. specialize (Hall s' Hold). lia.
    - cbn in Hown'. congruence. }
  split; [ | split; [ | split ] ].
  - destruct (chat_history_run env' apiKey get w' Hok' Hown)
      as (w2 & Hrun2 & _).
    rewrite Hrun2. cbn [fst]. rewrite Hget, Hh.
    unfold history at 1.
    rewrite (no_message_of_next_session w Hwf Hl). reflexivity.
  - rewrite (chat_history_not_owned env' other get w' (Hok' _) Hnot).
    reflexivity.
  - eexists. split; [ apply chat_sessions_answer; exact (Hok' _) | ].
    apply in_listing. rewrite Hses. split; [ | reflexivity ].
    apply in_or_app. right. now left.
  - eexists. split; [ apply chat_sessions_answer; exact (Hok' _) | ].
    rewrite in_listing. intros [_ Hown']. cbn in Hown'. congruence.
Qed.

Lemma started_session_reads_back_for_its_owner_only_witness :
  exists s u b w',
    chat_start (demo_env (Returns (Some "Plans")) (Returns (Some "Sure.")))
      bob (mkRequest (HString "key-bob") None (Some "a plan?") 0)
      demo_world
    = (Ok (res_json (JStarted (Some s) b)), w') /\
    ChatSession.id s = nextSessionId (db demo_world) /\
    is_turn u (ChatSession.id s) "user" "a plan?" /\
    is_turn b (ChatSession.id s) "bot"
      (or_else (Some "Sure.") "No response text") /\
    fst (chat_history (demo_env Raises Raises) bob
           (mkRequest (HString "key-bob") None None 3) w')
    = Ok (res_json (JMessages [u; b])) /\
    fst (chat_history (demo_env Raises Raises) alice
           (mkRequest (HString "key-bob") None None 3) w')
    = Ok (res_error 404 "Session not found or unauthorized") /\
    (exists l, fst (chat_sessions (demo_env Raises Raises) bob
                      (mkRequest (HString "key-bob") None None 3) w')
               = Ok (res_json (JSessions l)) /\ In s l) /\
    (exists l, fst (chat_sessions (demo_env Raises Raises) alice
                      (mkRequest (HString "key-bob") None None 3) w')
               = Ok (res_json (JSessions l)) /\ ~ In s l).
Proof.
  apply (started_session_reads_back_for_its_owner_only
           (demo_env (Returns (Some "Plans")) (Returns (Some "Sure.")))
           (demo_env Raises Raises) bob alice
           (mkRequest (HString "key-bob") None (Some "a plan?") 0)
           (mkRequest (HString "key-bob") None None 3)
           "a plan?" (Some "Sure.") demo_world).
  - intros n. reflexivity.
  - intros n. reflexivity.
  - split; cbn; repeat constructor; cbn; try discriminate; lia.
  - split; cbn; repeat constructor; cbn; intuition discriminate.
  - right. left. reflexivity.
  - discriminate.
  - reflexivity.
  - discriminate.
  - reflexivity.
  - reflexivity.
Defined.

(** ** A request writes to the sessions of its tenant only *)

Lemma same_id_same_row (l : list ChatSession.t) (a b : ChatSession.t) :
  NoDup (map ChatSession.id l) -> In a l -> In b l ->
  ChatSession.id a = ChatSession.id b -> a = b.
Proof.
  induction l as [ | x l IH ]; cbn; [ easy | ].
  intros Hnd Ha Hb E. inversion Hnd as [ | y l' Hnot Hnd' ]; subst.
  destruct Ha as [ -> | Ha ], Hb as [ -> | Hb ]; auto.
  - exfalso. apply Hnot. rewrite E. now apply in_map.
  - exfalso. apply Hnot. rewrite <- E. now apply in_map.
Qed.

(** What a turn writes when every row bearing the id of its session
    belongs to tenant [aid], who owns such a row. *)
Lemma turn_is_isolated env sid message v aid :
  (forall s, In s (chatSessions (db v)) -> ChatSession.id s = sid ->
             ChatSession.apiKeyId s = aid) ->
  owns v aid sid ->
  (forall s, In s (chatSessions (db v)) -> ChatSession.apiKeyId s <> aid ->
             In s (chatSessions (db (snd (processChat env sid message v)))))
  /\
  (forall s, In s (chatSessions (db (snd (processChat env sid message v)))) ->
             In s (chatSessions (db v)) \/ ChatSession.apiKeyId s = aid)
  /\
  (exists new,
     messages (db (snd (processChat env sid message v)))
     = messages (db v) ++ new /\
     forall m, In m new ->
       owns (snd (processChat env sid message v)) aid
            (Message.chatSessionId m)).
Proof.
  intros Hids (r & Hr & Hrid & Hrown).
  pose proof (processChat_sessions env sid message v) as Hses.
  pose proof (processChat_messages_paths env sid message v v eq_refl)
    as Hmsg.
  destruct (processChat env sid message v) as [res v']. cbn [snd] in *.
  assert (Hown' : owns v' aid sid).
  { destruct Hses as [ E | (s & t & _ & _ & _ & E) ]; unfold owns;
      rewrite E.
    - exists r. auto.
    - exists (set_title sid t r). split; [ now apply in_map | ].
      unfold set_title. destruct (has_id sid r); cbn; auto. }
  split; [ | split ].
  - intros s Hs Hforeign.
    destruct Hses as [ E | (s0 & t & _ & _ & _ & E) ]; rewrite E;
      [ exact Hs | ].
    apply in_map_iff. exists s. split; [ | exact Hs ].
    unfold set_title, has_id.
    destruct (Z.eqb_spec (ChatSession.id s) sid) as [ Eid | ];
      [ | reflexivity ].
    exfalso. apply Hforeign. now apply Hids.
  - intros s Hs.
    destruct Hses as [ E | (s0 & t & _ & _ & _ & E) ]; rewrite E in Hs;
      [ now left | ].
    apply in_map_iff in Hs. destruct Hs as (s1 & <- & Hs1).
    unfold set_title, has_id.
    destruct (Z.eqb_spec (ChatSession.id s1) sid) as [ Eid | ];
      [ right; cbn; now apply Hids | now left ].
  - destruct res as [ b | e ].
    + destruct Hmsg as (u & h & Hu & Hb & _ & Hm & _).
      exists [u; b]. split; [ exact Hm | ].
      intros m [ <- | [ <- | [] ] ];
        [ destruct Hu as (-> & _) | destruct Hb as (-> & _) ];
        exact Hown'.
    + destruct Hmsg as [ [Hm _] | (u & Hu & Hm & _) ].
      * exists []. split; [ now rewrite app_nil_r | easy ].
      * exists [u]. split; [ exact Hm | ].
        intros m [ <- | [] ]. destruct Hu as (-> & _). exact Hown'.
Qed.

(** The tables after a handler are the tables before it, or the tables
    after a turn on a session the caller has just created or owns. *)
Lemma handler_writes_through_a_turn env e k req w :
  db (snd (handler_of env e k req w)) = db w \/
  (exists message,
     e = PostChatStart /\
     db (snd (handler_of env e k req w))
     = db (snd (processChat env (nextSessionId (db w)) message
                  (started env (ApiKey.id k) w)))) \/
  (exists sid message,
     e = PostChatMessage /\ owns w (ApiKey.id k) sid /\
     db (snd (handler_of env e k req w))
     = db (snd (processChat env sid message
                  (mkWorld (db w) (clock env w)
                     (log w ++ [Prisma (ChatSessionFindFirst sid
                                          (ApiKey.id k))]))))).
Proof.
  remember (handler_of env e k req w) as out eqn:Hout.
  destruct e; cbn [handler_of] in Hout.
  - unfold chat_start in Hout.
    destruct (truthy_string (body_message req)) as [ message | ];
      [ | subst out; now left ].
    unfold try_catch, bind at 1 in Hout.
    unfold chatSession_create, prisma in Hout.
    destruct (storeFault env (List.length (log w)));
      [ subst out; now left | ].
    destruct (existsb _ (apiKeys (db w))); [ | subst out; now left ].
    right. left. exists message. split; [ reflexivity | ].
    cbn [ChatSession.id new_session] in Hout. unfold bind at 1 in Hout.
    destruct (processChat _ _ _ _) as [[b | x] w2];
      [ | subst out; reflexivity ].
    unfold bind, chatSession_findUnique, prisma, ret in Hout.
    destruct (storeFault env (List.length (log w2))); subst out;
      reflexivity.
  - unfold chat_message in Hout.
    destruct (truthy_number (body_sessionId req)) as [ sid | ];
      [ | subst out; now left ].
    destruct (truthy_string (body_message req)) as [ message | ];
      [ | subst out; now left ].
    unfold try_catch, bind at 1 in Hout.
    unfold chatSession_findFirst, prisma in Hout.
    destruct (storeFault env (List.length (log w)));
      [ subst out; now left | ].
    destruct (find _ (chatSessions (db w))) as [ s | ] eqn:Hfind;
      [ | subst out; now left ].
    right. right. exists sid, message. split; [ reflexivity | ]. split.
    + apply find_some in Hfind. destruct Hfind as [Hin H].
      apply andb_true_iff in H. unfold has_id, owned_by in H.
      rewrite !Z.eqb_eq in H. exists s. tauto.
    + unfold bind, ret in Hout.
      destruct (processChat _ _ _ _) as [[b | x] w2]; subst out;
        reflexivity.
  - left. unfold chat_sessions, try_catch, bind, chatSession_findMany,
      prisma, ret in Hout.
    destruct (storeFault env (List.length (log w))); subst out;
      reflexivity.
  - left. unfold chat_history, try_catch, bind at 1 in Hout.
    unfold chatSession_findFirst, prisma in Hout.
    destruct (storeFault env (List.length (log w)));
      [ subst out; reflexivity | ].
    destruct (find _ (chatSessions (db w))); [ | subst out; reflexivity ].
    unfold bind, message_findMany, prisma, ret in Hout. cbn [log] in Hout.
    destruct (storeFault env _); subst out; reflexivity.
Qed.

(** X15: Tenant isolation of writes: on a store that satisfies the invariant
    and referential integrity, a request authenticated as tenant [k], on
    any endpoint and whatever the store and the model do, leaves every
    session row of another tenant as it was, adds or changes only session
    rows owned by [k], and appends messages only to sessions owned by
    [k]. *)
Theorem requests_write_to_own_sessions_only
    (env : Env) (e : Endpoint) (req : Request) (k : ApiKey.t)
    (w w1 : World) :
  wf w -> linked w ->
  authenticateApiKey env req w = (Ok (inr k), w1) ->
  (forall s, In s (chatSessions (db w)) ->
             ChatSession.apiKeyId s <> ApiKey.id k ->
             In s (chatSessions (db (snd (serve env e req w)))))
  /\
  (forall s, In s (chatSessions (db (snd (serve env e req w)))) ->
             In s (chatSessions (db w)) \/
             ChatSession.apiKeyId s = ApiKey.id k)
  /\
  (exists new,
     messages (db (snd (serve env e req w))) = messages (db w) ++ new /\
     forall m, In m new ->
       owns (snd (serve env e req w)) (ApiKey.id k)
            (Message.chatSessionId m)).
Proof.
  intros Hwf [Hnd _] Hauth.
  rewrite (serve_next _ _ _ _ _ _ Hauth). unfold owns.
  destruct (authenticateApiKey_next _ _ _ _ _ Hauth)
    as (h & _ & _ & _ & _ & _ & Hw1).
  assert (Hdb : db w1 = db w) by (subst w1; reflexivity).
  destruct (handler_writes_through_a_turn env e k req w1)
    as [ E | [ (message & _ & E) | (sid & message & _ & Hown & E) ] ];
    rewrite E; clear E.
  - rewrite Hdb. split; [ auto | split; [ auto | ] ].
    exists []. split; [ now rewrite app_nil_r | easy ].
  - set (v := started env (ApiKey.id k) w1).
    assert (Hsv : chatSessions (db v)
                  = chatSessions (db w)
                    ++ [new_session (clock env w1) (db w1) (ApiKey.id k)]).
    { subst v. cbn [db chatSessions]. now rewrite Hdb. }
    assert (Hmv : messages (db v) = messages (db w)).
    { subst v. cbn [db messages]. now rewrite Hdb. }
    destruct (turn_is_isolated env (nextSessionId (db w1)) message v
                (ApiKey.id k)) as (H1 & H2 & new & Hm & Hnew).
    + intros s Hs Hid. rewrite Hsv in Hs. apply in_app_or in Hs.
      destruct Hs as [ Hold | [ <- | [] ] ]; [ | reflexivity ].
      pose proof (wf_session_ids _ Hwf) as Hall.
      rewrite Forall_forall in Hall. specialize (Hall s Hold).
      rewrite Hdb in Hid. lia.
    + exists (new_session (clock env w1) (db w1) (ApiKey.id k)).
      rewrite Hsv. split; [ | split; reflexivity ].
      apply in_or_app. right. now left.
    + split; [ | split ].
      * intros s Hs Hforeign. apply H1; [ | exact Hforeign ].
        rewrite Hsv. apply in_or_app. now left.
      * intros s Hs. destruct (H2 s Hs) as [ Hv | Ho ]; [ | now right ].
        rewrite Hsv in Hv. apply in_app_or in Hv.
        destruct Hv as [ Hold | [ <- | [] ] ]; [ now left | now right ].
      * exists new. rewrite Hm, Hmv. split; [ reflexivity | exact Hnew ].
  - set (v := mkWorld (db w1) (clock env w1) _).
    assert (Hsv : chatSessions (db v) = chatSessions (db w))
      by (subst v; cbn [db]; now rewrite Hdb).
    assert (Hmv : messages (db v) = messages (db w))
      by (subst v; cbn [db]; now rewrite Hdb).
    assert (Hown_v : owns v (ApiKey.id k) sid) by exact Hown.
    destruct (turn_is_isolated env sid message v (ApiKey.id k))
      as (H1 & H2 & new & Hm & Hnew).
    + intros s Hs Hid. destruct Hown_v as (r & Hr & Hrid & Hrown).
      rewrite Hsv in Hs, Hr.
      assert (s = r) by (apply (same_id_same_row _ _ _ Hnd Hs Hr); lia).
      now subst s.
    + exact Hown_v.
    + rewrite Hsv in H1, H2. rewrite Hmv in Hm.
      split; [ exact H1 | split; [ exact H2 | ] ].
      exists new. split; [ exact Hm | exact Hnew ].
Qed.

Lemma requests_write_to_own_sessions_only_witness :
  (forall s, In s (chatSessions (db demo_world)) ->
             ChatSession.apiKeyId s <> ApiKey.id bob ->
             In s (chatSessions
                     (db (snd (serve
                                 (demo_env (Returns (Some "Plans"))
                                    (Returns (Some "Sure.")))
                                 PostChatMessage
                                 (mkRequest (HString "key-bob") (Some 2)
                                    (Some "a plan?") 0)
                                 demo_world)))))
  /\
  (forall s, In s (chatSessions
                     (db (snd (serve
                                 (demo_env (Returns (Some "Plans"))
                                    (Returns (Some "Sure.")))
                                 PostChatMessage
                                 (mkRequest (HString "key-bob") (Some 2)
                                    (Some "a plan?") 0)
                                 demo_world)))) ->
             In s (chatSessions (db demo_world)) \/
             ChatSession.apiKeyId s = ApiKey.id bob)
  /\
  (exists new,
     messages (db (snd (serve
                          (demo_env (Returns (Some "Plans"))
                             (Returns (Some "Sure.")))
                          PostChatMessage
                          (mkRequest (HString "key-bob") (Some 2)
                             (Some "a plan?") 0)
                          demo_world)))
     = messages (db demo_world) ++ new /\
     forall m, In m new ->
       owns (snd (serve
                    (demo_env (Returns (Some "Plans"))
                       (Returns (Some "Sure.")))
                    PostChatMessage
                    (mkRequest (HString "key-bob") (Some 2)
                       (Some "a plan?") 0)
                    demo_world))
            (ApiKey.id bob) (Message.chatSessionId m)).
Proof.
  apply (requests_write_to_own_sessions_only
           (demo_env (Returns (Some "Plans")) (Returns (Some "Sure.")))
           PostChatMessage
           (mkRequest (HString "key-bob") (Some 2) (Some "a plan?") 0)
           bob demo_world
           (mkWorld demo_db 11 [Prisma (ApiKeyFindUnique "key-bob")])).
  - split; cbn; repeat constructor; cbn; try discriminate; lia.
  - split; cbn; repeat constructor; cbn; intuition discriminate.
  - reflexivity.
Defined.

(** ** What the model is given *)

Lemma history_snoc (d : Db) (sid : Z) (old : list Message.t)
    (u : Message.t) :
  messages d = old ++ [u] ->
  Message.chatSessionId u = sid ->
  Forall (fun m => Message.createdAt m <= Message.createdAt u) old ->
  history d sid
  = orderBy createdAt_asc (filter (in_session sid) old) ++ [u].
Proof.
  intros Hm Hu Hle. unfold history. rewrite Hm, filter_app. cbn [filter].
  replace (in_session sid u) with true
    by (symmetry; unfold in_session; now apply Z.eqb_eq).
  apply orderBy_snoc. apply Forall_forall. intros m Hin.
  apply filter_In in Hin. rewrite Forall_forall in Hle.
  unfold createdAt_asc. apply Z.leb_le, Hle, Hin.
Qed.

Lemma processChat_reply_context env sid message w :
  wf w ->
  hoare (eq w) (processChat env sid message)
    (fun _ w' =>
       reply_calls (log w')
       = reply_calls (log w)
         ++ [(map to_content (history (db w) sid), message)])
    (fun _ w' =>
       reply_calls (log w') = reply_calls (log w) \/
       reply_calls (log w')
       = reply_calls (log w)
         ++ [(map to_content (history (db w) sid), message)]).
Proof.
  intros Hwf.
  set (ctx := map to_content (history (db w) sid)).
  set (A := fun w1 : World =>
              messages (db w1) = messages (db w) /\ now w <= now w1 /\
              reply_calls (log w1) = reply_calls (log w)).
  set (B := fun w1 : World =>
              (exists u, history (db w1) sid = history (db w) sid ++ [u]) /\
              reply_calls (log w1) = reply_calls (log w)).
  set (C := fun w1 : World =>
              reply_calls (log w1) = reply_calls (log w) ++ [(ctx, message)]).
  assert (HA : forall w1 op d,
             A w1 -> messages d = messages (db w1) ->
             A (mkWorld d (clock env w1) (log w1 ++ [Prisma op]))).
  { intros w1 op d (Hm & Ht & Hr) Hd. repeat split; cbn [db now log].
    - congruence.
    - pose proof (clock_ge env w1). lia.
    - now rewrite reply_calls_prisma. }
  rewrite processChat_phases.
  eapply hoare_bind with (R := fun _ => A).
  { apply hoare_prisma; intros w1 <-.
    - left. cbn [log]. apply reply_calls_prisma.
    - apply HA; [ repeat split; lia | reflexivity ]. }
  intros session.
  eapply hoare_bind with (R := fun _ => A).
  { destruct session as [ s | ]; [ | apply hoare_ret; auto ].
    destruct (untitled s); [ | apply hoare_ret; auto ].
    eapply hoare_bind with (R := fun _ => A).
    - intros w1 (Hm & Ht & Hr). rewrite generateSessionTitle_run.
      repeat split; cbn [db now log]; auto.
      + pose proof (clock_ge env w1). lia.
      + now rewrite reply_calls_title.
    - intros t. apply hoare_prisma; intros w1 H1.
      + left. apply (HA w1 _ (db w1) H1 eq_refl).
      + destruct (existsb _ _).
        * now apply HA.
        * left. apply (HA w1 _ (db w1) H1 eq_refl). }
  intros x.
  eapply hoare_bind with (R := fun _ => B).
  { apply hoare_prisma; intros w1 H1.
    - left. apply (HA w1 _ (db w1) H1 eq_refl).
    - destruct (existsb _ _);
        [ | left; apply (HA w1 _ (db w1) H1 eq_refl) ].
      destruct H1 as (Hm & Ht & Hr). split; cbn [db log].
      + exists (new_message (clock env w1) (db w1) message "user" sid).
        apply history_snoc.
        * cbn [messages]. now rewrite Hm.
        * reflexivity.
        * eapply Forall_impl; [ | exact (wf_times _ Hwf) ].
          cbn. intros m Hle. pose proof (clock_ge env w1). lia.
      + now rewrite reply_calls_prisma. }
  intros u.
  eapply hoare_bind with
    (R := fun hist w1 =>
            reply_calls (log w1) = reply_calls (log w) /\
            removelast (map to_content hist) = ctx).
  { apply hoare_prisma; intros w1 [[u' Hh] Hr]; cbn [db log].
    - left. now rewrite reply_calls_prisma.
    - split; [ now rewrite reply_calls_prisma | ].
      rewrite Hh, map_app. cbn [map]. apply removelast_last. }
  intros hist.
  eapply hoare_bind with (R := fun _ => C).
  { apply hoare_oracle.
    - intros w1 [Hr Hc]. right. cbn [log].
      now rewrite reply_calls_reply, Hr, Hc.
    - intros w1 t [Hr Hc] _. unfold C. cbn [log].
      now rewrite reply_calls_reply, Hr, Hc. }
  intros r.
  eapply hoare_bind with (R := fun _ => C).
  { apply hoare_prisma; intros w1 H1; unfold C in *.
    - right. cbn [log]. now rewrite reply_calls_prisma.
    - destruct (existsb _ _); [ | right ]; cbn [log];
        now rewrite reply_calls_prisma. }
  intros b. apply hoare_ret. auto.
Qed.

(** X16: Whatever the store and the model do, a turn makes at most one reply
    call to the model, and the context of that call is made of the turns
    the session had before the turn, in their ascending order, and of
    nothing else: no turn of another session is ever handed to the
    model. *)
Theorem model_is_given_the_turns_of_the_session_only
    (env : Env) (sid : Z) (message : string) (w : World) :
  wf w ->
  (reply_calls (log (snd (processChat env sid message w)))
   = reply_calls (log w) \/
   reply_calls (log (snd (processChat env sid message w)))
   = reply_calls (log w)
     ++ [(map to_content (history (db w) sid), message)]) /\
  (forall c, In c (map to_content (history (db w) sid)) ->
     exists m, In m (messages (db w)) /\
               Message.chatSessionId m = sid /\ c = to_content m).
Proof.
  intros Hwf. split.
  - pose proof (processChat_reply_context env sid message w Hwf w eq_refl)
      as H.
    destruct (processChat env sid message w) as [[b | e] w'];
      cbn [snd]; auto.
  - intros c Hc. apply in_map_iff in Hc. destruct Hc as (m & <- & Hm).
    apply history_in in Hm. exists m. tauto.
Qed.

Lemma model_is_given_the_turns_of_the_session_only_witness :
  (reply_calls
     (log (snd (processChat (failing_env Raises (Returns (Some "ok")) 1)
                  1 "and then?" demo_world)))
   = reply_calls (log demo_world) \/
   reply_calls
     (log (snd (processChat (failing_env Raises (Returns (Some "ok")) 1)
                  1 "and then?" demo_world)))
   = reply_calls (log demo_world)
     ++ [(map to_content (history (db demo_world) 1), "and then?")]) /\
  (forall c, In c (map to_content (history (db demo_world) 1)) ->
     exists m, In m (messages (db demo_world)) /\
               Message.chatSessionId m = 1 /\ c = to_content m).
Proof.
  apply (model_is_given_the_turns_of_the_session_only
           (failing_env Raises (Returns (Some "ok")) 1)
           1 "and then?" demo_world).
  split; cbn; repeat constructor; cbn; try discriminate; lia.
Defined.

Lemma processChat_reply_log env sid message s w :
  store_ok env -> wf w -> session_row w sid = Some s ->
  reply_calls (log (snd (processChat env sid message w)))
  = reply_calls (log w)
    ++ [(map to_content (history (db w) sid), message)].
Proof.
  intros Hok Hwf Hs.
  destruct (processChat_run env sid message s w Hok Hwf Hs)
    as (u & w6 & l & _ & _ & _ & _ & _ & Hlog & Hrc & Hrun).
  rewrite Hrun.
  destruct (sendMessage env _ message); cbn [snd log];
    rewrite ?reply_calls_prisma, Hlog, !reply_calls_app, Hrc;
    reflexivity.
Qed.

Lemma to_content_bot_turn (b : Message.t) (sid : Z) (c : string) :
  is_turn b sid "bot" c -> to_content b = mkContent "model" c.
Proof. intros (_ & Hs & Hc). unfold to_content. now rewrite Hs, Hc. Qed.

(** X17: Two turns in a row on a session, the store answering every call and
    the model replying to the first: the context of the second reply call
    is the context of the first followed by the first exchange, the user
    text under role user and the stored reply under role model. *)
Theorem next_turn_replays_the_previous_exchange
    (env1 env2 : Env) (sid : Z) (m1 m2 : string) (r1 : option string)
    (s : ChatSession.t) (w : World) :
  store_ok env1 -> store_ok env2 -> wf w ->
  session_row w sid = Some s ->
  sendMessage env1 (map to_content (history (db w) sid)) m1 = Returns r1 ->
  reply_calls
    (log (snd (processChat env2 sid m2
                 (snd (processChat env1 sid m1 w)))))
  = reply_calls (log w)
    ++ [(map to_content (history (db w) sid), m1);
        (map to_content (history (db w) sid)
           ++ [mkContent "user" m1;
               mkContent "model" (or_else r1 "No response text")],
         m2)].
Proof.
  intros Hok1 Hok2 Hwf Hs Hr.
  pose proof (processChat_reply_log env1 sid m1 s w Hok1 Hwf Hs) as Hlog1.
  destruct (processChat_reply_returns env1 sid m1 s w r1 Hok1 Hwf Hs Hr)
    as (u & b & w1 & Hrun & Hu & Hb & _ & Hh & Hses & Hwf1).
  rewrite Hrun in *. cbn [snd] in *.
  assert (Hs1 : exists s1, session_row w1 sid = Some s1).
  { unfold session_row in *. rewrite Hses.
    destruct (untitled s); [ | eauto ].
    rewrite find_set_title, Hs. cbn. eauto. }
  destruct Hs1 as [s1 Hs1].
  rewrite (processChat_reply_log env2 sid m2 s1 w1 Hok2 Hwf1 Hs1).
  rewrite Hlog1, Hh, map_app. cbn [map].
  rewrite (to_content_user_turn u sid m1 Hu),
    (to_content_bot_turn b sid _ Hb), <- app_assoc.
  reflexivity.
Qed.

Lemma next_turn_replays_the_previous_exchange_witness :
  reply_calls
    (log (snd (processChat (demo_env Raises (Returns None)) 2 "B"
                 (snd (processChat
                         (demo_env Raises (Returns (Some "ok"))) 2 "A"
                         demo_world)))))
  = reply_calls (log demo_world)
    ++ [(map to_content (history (db demo_world) 2), "A");
        (map to_content (history (db demo_world) 2)
           ++ [mkContent "user" "A";
               mkContent "model" (or_else (Some "ok") "No response text")],
         "B")].
Proof.
  apply (next_turn_replays_the_previous_exchange
           (demo_env Raises (Returns (Some "ok")))
           (demo_env Raises (Returns None)) 2 "A" "B" (Some "ok")
           (ChatSession.mk 2 None 4 2) demo_world).
  - intros n. reflexivity.
  - intros n. reflexivity.
  - split; cbn; repeat constructor; cbn; try discriminate; lia.
  - reflexivity.
  - reflexivity.
Defined.

(** ** The responses of a route *)

(** A response sent by the middleware or by the handler of a route is
    one of the fixed responses of that route. *)
Lemma sent_response_is_of_the_route env e req w w' r :
  serve env e req w = (Ok r, w') -> response_of e r.
Proof.
  assert (H : hoare (fun _ => True) (serve env e req)
                    (fun r _ => response_of e r) (fun _ _ => True)).
  { unfold serve, authenticated.
    eapply hoare_bind with
      (R := fun a _ => match a with
                       | inl r => response_of e r
                       | inr _ => True
                       end).
    { unfold authenticateApiKey.
      destruct (x_api_key req) as [ | h | l ];
        try (apply hoare_ret; intros; left; reflexivity).
      destruct (String.eqb h "");
        [ apply hoare_ret; intros; left; reflexivity | ].
      eapply hoare_bind; [ apply hoare_any | ].
      intros [ k | ]; [ destruct (ApiKey.active k) | ];
        apply hoare_ret; intros; try exact I; right; left; reflexivity. }
    intros [ r0 | k ]; [ apply hoare_ret; auto | ].
    eapply hoare_weaken with
      (P' := fun _ => True)
      (Q' := fun r _ =>
               match e with
               | PostChatStart =>
                   r = res_error 400 "Initial message is required" \/
                   r = res_error 500 "Failed to create session" \/
                   exists s b, r = res_json (JStarted s b)
               | PostChatMessage =>
                   r = res_error 400 "sessionId and message are required" \/
                   r = res_error 404 "Session not found or unauthorized" \/
                   r = res_error 500
                         "Something went wrong processing the AI response" \/
                   exists b, r = res_json (JMessage b)
               | GetChatSessions =>
                   r = res_error 500 "Failed to fetch sessions" \/
                   exists l, r = res_json (JSessions l)
               | GetChatSessionId =>
                   r = res_error 404 "Session not found or unauthorized" \/
                   r = res_error 500 "Failed to fetch history" \/
                   exists l, r = res_json (JMessages l)
               end)
      (E' := fun _ _ => True);
      [ | auto | intros a w1 Ha; right; right; exact Ha | auto ].
    destruct e; cbn [handler_of].
    - unfold chat_start. destruct (truthy_string _);
        [ | apply hoare_ret; auto ].
      eapply hoare_try_catch with (E' := fun _ _ => True);
        [ | intros; apply hoare_ret; auto ].
      eapply hoare_bind; [ apply hoare_any | ].
      intros ses. eapply hoare_bind; [ apply hoare_any | ].
      intros bot. eapply hoare_bind; [ apply hoare_any | ].
      intros upd. apply hoare_ret. intros. right. right. eauto.
    - unfold chat_message.
      destruct (truthy_number _); [ | apply hoare_ret; auto ].
      destruct (truthy_string _); [ | apply hoare_ret; auto ].
      eapply hoare_try_catch with (E' := fun _ _ => True);
        [ | intros; apply hoare_ret; auto ].
      eapply hoare_bind; [ apply hoare_any | ].
      intros [ ses | ]; [ | apply hoare_ret; auto ].
      eapply hoare_bind; [ apply hoare_any | ].
      intros bot. apply hoare_ret. intros. right. right. right. eauto.
    - unfold chat_sessions.
      eapply hoare_try_catch with (E' := fun _ _ => True);
        [ | intros; apply hoare_ret; auto ].
      eapply hoare_bind; [ apply hoare_any | ].
      intros l. apply hoare_ret. intros. right. eauto.
    - unfold chat_history.
      eapply hoare_try_catch with (E' := fun _ _ => True);
        [ | intros; apply hoare_ret; auto ].
      cbv zeta. eapply hoare_bind; [ apply hoare_any | ].
      intros [ ses | ]; [ | apply hoare_ret; auto ].
      eapply hoare_bind; [ apply hoare_any | ].
      intros l. apply hoare_ret. intros. right. right. eauto. }
  intros Hrun. specialize (H w I). rewrite Hrun in H. exact H.
Qed.

(** X18: Whatever the request, the store and the model do, the code of a
    route ends in one of two ways when the calls it awaits settle.  Either
    it sends one of the fixed responses of the route: a 401 of the
    middleware, an error of the handler, whose body is a constant text
    that carries nothing of the failure behind it, or the success shape of
    the route.  Or it sends nothing itself: the store has rejected the
    middleware's lookup of a non-empty key and the store's error is left
    to the framework, the tables being unchanged. *)
Theorem route_sends_fixed_response_or_leaves_lookup_error
    (env : Env) (e : Endpoint) (req : Request) (w : World) :
  match serve env e req w with
  | (Ok r, _) => response_of e r
  | (Throw err, w') =>
      err = PrismaError Unavailable /\ db w' = db w /\
      exists h, x_api_key req = HString h /\ h <> "" /\
                storeFault env (List.length (log w)) = true
  end.
Proof.
  destruct (serve_outcome env e req w)
    as [ (h & Hh & Hne & Hf & w' & H & Hdb) | (_ & r & w' & H) ].
  - rewrite H. split; [ reflexivity | split; [ exact Hdb | eauto ] ].
  - rewrite H. apply (sent_response_is_of_the_route env e req w w' r H).
Qed.

(** ** A response discloses sessions of the caller only *)

(** Ownership of a session is never lost in a turn. *)
Lemma turn_keeps_owner env sid message v aid sid0 :
  owns v aid sid0 ->
  owns (snd (processChat env sid message v)) aid sid0.
Proof.
  intros (r & Hr & Hrid & Hrown).
  destruct (processChat_sessions env sid message v)
    as [ E | (s & t & _ & _ & _ & E) ]; unfold owns; rewrite E.
  - exists r. auto.
  - exists (set_title sid t r). split; [ now apply in_map | ].
    unfold set_title. destruct (has_id sid r); cbn; auto.
Qed.

Lemma turn_returns_turn_of_session env sid message v b v' :
  processChat env sid message v = (Ok b, v') ->
  Message.chatSessionId b = sid.
Proof.
  intros Hrun.
  pose proof (processChat_messages_paths env sid message v v eq_refl) as H.
  rewrite Hrun in H. destruct H as (u & h & _ & (Hb & _) & _). exact Hb.
Qed.

(** X19: Tenant isolation of reads: whatever the store and the model do, every
    session id that the response to a request authenticated as tenant [k]
    discloses, as the id of a session or as the session of a message, is
    the id of a session owned by [k]. *)
Theorem responses_disclose_own_sessions_only
    (env : Env) (e : Endpoint) (req : Request) (k : ApiKey.t)
    (w w1 w' : World) (r : Response) :
  authenticateApiKey env req w = (Ok (inr k), w1) ->
  serve env e req w = (Ok r, w') ->
  forall i, In i (session_ids_in (json r)) -> owns w' (ApiKey.id k) i.
Proof.
  intros Hauth Hrun. rewrite (serve_next _ _ _ _ _ _ Hauth) in Hrun.
  clear Hauth w. revert Hrun. generalize w1 as w. clear w1. intros w Hrun.
  destruct e; cbn [handler_of] in Hrun.
  - unfold chat_start in Hrun.
    destruct (truthy_string (body_message req)) as [ message | ];
      [ | injection Hrun as <- <-; intros i [] ].
    unfold try_catch, bind at 1 in Hrun.
    unfold chatSession_create, prisma in Hrun.
    destruct (storeFault env (List.length (log w)));
      [ injection Hrun as <- <-; intros i [] | ].
    destruct (existsb _ (apiKeys (db w)));
      [ | injection Hrun as <- <-; intros i [] ].
    cbn [ChatSession.id new_session] in Hrun. unfold bind at 1 in Hrun.
    assert (Hown : owns (snd (processChat env (nextSessionId (db w)) message
                                (started env (ApiKey.id k) w)))
                        (ApiKey.id k) (nextSessionId (db w))).
    { apply turn_keeps_owner.
      exists (new_session (clock env w) (db w) (ApiKey.id k)).
      cbn [db chatSessions]. split; [ | split; reflexivity ].
      apply in_or_app. right. now left. }
    destruct (processChat env (nextSessionId (db w)) message _)
      as [[b | x] w2] eqn:Hturn;
      [ | injection Hrun as <- <-; intros i [] ].
    pose proof (turn_returns_turn_of_session _ _ _ _ _ _ Hturn) as Hb.
    cbn [snd] in Hown.
    unfold bind, chatSession_findUnique, prisma, ret in Hrun.
    destruct (storeFault env (List.length (log w2)));
      [ injection Hrun as <- <-; intros i [] | ].
    injection Hrun as <- <-. cbn [json res_json session_ids_in].
    intros i Hi. apply in_app_or in Hi.
    destruct Hi as [ Hi | [ <- | [] ] ]; [ | rewrite Hb; exact Hown ].
    destruct (find (has_id (nextSessionId (db w))) (chatSessions (db w2)))
      as [ s | ] eqn:Hfind; [ | destruct Hi ].
    destruct Hi as [ <- | [] ]. apply find_some in Hfind.
    destruct Hfind as [_ Hid]. unfold has_id in Hid.
    apply Z.eqb_eq in Hid. rewrite Hid. exact Hown.
  - unfold chat_message in Hrun.
    destruct (truthy_number (body_sessionId req)) as [ sid | ];
      [ | injection Hrun as <- <-; intros i [] ].
    destruct (truthy_string (body_message req)) as [ message | ];
      [ | injection Hrun as <- <-; intros i [] ].
    unfold try_catch, bind at 1 in Hrun.
    unfold chatSession_findFirst, prisma in Hrun.
    destruct (storeFault env (List.length (log w)));
      [ injection Hrun as <- <-; intros i [] | ].
    destruct (find _ (chatSessions (db w))) as [ s | ] eqn:Hfind;
      [ | injection Hrun as <- <-; intros i [] ].
    assert (Hown0 : owns w (ApiKey.id k) sid).
    { apply find_some in Hfind. destruct Hfind as [Hin H].
      apply andb_true_iff in H. unfold has_id, owned_by in H.
      rewrite !Z.eqb_eq in H. exists s. tauto. }
    unfold bind, ret in Hrun.
    pose proof (turn_keeps_owner env sid message
                  (mkWorld (db w) (clock env w)
                     (log w ++ [Prisma (ChatSessionFindFirst sid
                                          (ApiKey.id k))]))
                  (ApiKey.id k) sid Hown0) as Hown.
    destruct (processChat env sid message _) as [[b | x] w2] eqn:Hturn;
      injection Hrun as <- <-; [ | intros i [] ].
    pose proof (turn_returns_turn_of_session _ _ _ _ _ _ Hturn) as Hb.
    cbn [json res_json session_ids_in]. intros i [ <- | [] ].
    rewrite Hb. exact Hown.
  - unfold chat_sessions, try_catch, bind, chatSession_findMany, prisma,
      ret in Hrun.
    destruct (storeFault env (List.length (log w)));
      injection Hrun as <- <-; [ intros i [] | ].
    cbn [json res_json session_ids_in]. intros i Hi.
    apply in_map_iff in Hi. destruct Hi as (s & <- & Hs).
    apply in_listing in Hs. exists s. cbn [db]. tauto.
  - unfold chat_history, try_catch, bind at 1 in Hrun.
    unfold chatSession_findFirst, prisma in Hrun.
    destruct (storeFault env (List.length (log w)));
      [ injection Hrun as <- <-; intros i [] | ].
    destruct (find _ (chatSessions (db w))) as [ s | ] eqn:Hfind;
      [ | injection Hrun as <- <-; intros i [] ].
    assert (Hown0 : owns w (ApiKey.id k) (params_sessionId req)).
    { apply find_some in Hfind. destruct Hfind as [Hin H].
      apply andb_true_iff in H. unfold has_id, owned_by in H.
      rewrite !Z.eqb_eq in H. exists s. tauto. }
    unfold bind, message_findMany, prisma, ret in Hrun. cbn [log] in Hrun.
    destruct (storeFault env _); injection Hrun as <- <-;
      [ intros i [] | ].
    cbn [json res_json session_ids_in db]. intros i Hi.
    apply in_map_iff in Hi. destruct Hi as (m & <- & Hm).
    apply history_in in Hm. destruct Hm as [_ ->]. exact Hown0.
Qed.

Lemma responses_disclose_own_sessions_only_witness :
  owns (snd (serve (demo_env Raises Raises) GetChatSessionId
               (mkRequest (HString "key-alice") None None 1)
               demo_world))
       (ApiKey.id alice) 1.
Proof.
  apply (responses_disclose_own_sessions_only
           (demo_env Raises Raises) GetChatSessionId
           (mkRequest (HString "key-alice") None None 1) alice
           demo_world
           (mkWorld demo_db 11 [Prisma (ApiKeyFindUnique "key-alice")])
           (snd (serve (demo_env Raises Raises) GetChatSessionId
                   (mkRequest (HString "key-alice") None None 1)
                   demo_world))
           (res_json (JMessages (history (db demo_world) 1)))).
  - reflexivity.
  - reflexivity.
  - left. reflexivity.
Defined.
